(** * kratos: client-side selection subsystem

    A shallow embedding of the EWMA weighted node
    ([selector/node/ewma/node.go]), the default selector
    ([selector/default_selector.go]), the HTTP resolver's [update]
    ([transport/http/resolver.go]) and [ServiceInstance.Equal]
    ([registry/registry.go]), with the properties the specification states
    about them.

    Conventions.
    - [int64] and [uint64] values are integers of [Z]; every arithmetic
      operation of the source is followed by its wrap-around ([Int.i64],
      [Int.u64]).
    - [float64] values are the kernel's binary64 floats ([PrimFloat]); Go's
      [+], [-], [*], [/] on [float64] are the IEEE-754 operations rounded to
      nearest even, evaluated one at a time (no fused multiply-add).
    - [time.Now().UnixNano()] is an input of every operation that reads the
      clock.
    - Functions of other packages ([math.Exp], the error predicates,
      [endpoint.ParseEndpoint], [subset.Subset], [selector.NewNode],
      [Balancer.Pick]) are parameters. *)

From Stdlib Require Import ZArith Lia Floats Reals Lra String Ascii.
From stdpp Require Import base list gmap strings sorting.

Local Open Scope Z_scope.

(** ** Machine integers *)

Module Int.

(** Two's-complement reduction to [int64]. *)
Definition i64 (z : Z) : Z := (z + 2 ^ 63) mod 2 ^ 64 - 2 ^ 63.

(** Reduction to [uint64]; also the conversion [uint64(x)] of an [int64]. *)
Definition u64 (z : Z) : Z := z mod 2 ^ 64.

Definition min_i64 : Z := - 2 ^ 63.
Definition max_i64 : Z := 2 ^ 63 - 1.

Definition in_i64 (z : Z) : Prop := min_i64 <= z <= max_i64.
Definition in_u64 (z : Z) : Prop := 0 <= z < 2 ^ 64.

End Int.

(** ** [float64] conversions *)

Module F64.

(** [float64(x)] for an integer [x]: the nearest binary64, ties to even. *)
Definition of_Z (z : Z) : float :=
  SF2Prim (binary_normalize prec emax z 0 false).

(** The integer part of a finite float (the fraction is discarded); [0]
    for zeros.  [None] for NaN and the infinities. *)
Definition trunc (f : float) : option Z :=
  match Prim2SF f with
  | S754_zero _ => Some 0
  | S754_finite s m e =>
      let a := match e with
               | Zneg p => Z.pos m / 2 ^ Z.pos p
               | _ => Z.pos m * 2 ^ e
               end in
      Some (if s then - a else a)
  | _ => None
  end.

(** [int64(f)]: truncation toward zero.  Go leaves the result open when
    the value does not fit; the amd64 result (the bit pattern
    [0x8000000000000000]) is used there. *)
Definition to_i64 (f : float) : Z :=
  match trunc f with
  | Some t => if (Int.min_i64 <=? t) && (t <=? Int.max_i64) then t else Int.min_i64
  | None => Int.min_i64
  end.

(** [uint64(f)]: truncation toward zero, with the same convention outside
    the range of [uint64]. *)
Definition to_u64 (f : float) : Z :=
  match trunc f with
  | Some t => if (0 <=? t) && (t <? 2 ^ 64) then t else 2 ^ 63
  | None => 2 ^ 63
  end.

(** Rounding to the nearest integer, halves away from zero ([math.Round]);
    only used to state what "round" in the specification would give. *)
Definition round_half_away (f : float) : option Z :=
  match Prim2SF f with
  | S754_zero _ => Some 0
  | S754_finite s m e =>
      let a := match e with
               | Zneg p => (2 * Z.pos m + 2 ^ Z.pos p) / 2 ^ (Z.pos p + 1)
               | _ => Z.pos m * 2 ^ e
               end in
      Some (if s then - a else a)
  | _ => None
  end.

(** *** The real number a float stands for *)

(** [2^e], for an exponent of either sign. *)
Definition p2 (e : Z) : R := powerRZ 2 e.

(** The value of a zero or of a finite float; [None] for NaN and the
    infinities. *)
Definition SFreal (f : spec_float) : option R :=
  match f with
  | S754_zero _ => Some 0%R
  | S754_finite s m e =>
      Some ((if s then (-1) else 1) * IZR (Z.pos m) * p2 e)%R
  | _ => None
  end.

Definition real (f : float) : option R := SFreal (Prim2SF f).

(** The unit roundoff bound used throughout, [2^-52], and the smallest
    positive float, [2^-1074]. *)
Definition eps : R := p2 (-52).
Definition eta : R := p2 (-1074).

(** [f] is a valid float, a zero or a positive finite one, and stands for
    the real [x]. *)
Definition nonneg (f : spec_float) (x : R) : Prop :=
  SFreal f = Some x /\ (0 <= x)%R /\ valid_binary f = true.

(** The same, for a primitive float. *)
Definition fnonneg (f : float) (x : R) : Prop := nonneg (Prim2SF f) x.

End F64.

(** ** The EWMA weighted node ([selector/node/ewma/node.go]) *)

Module Ewma.

(** [tau = int64(time.Millisecond * 600)] *)
Definition tau : Z := 600000000.

(** [penalty = uint64(time.Second * 10)] *)
Definition penalty : Z := 10000000000.

(** [uint64(time.Second)] *)
Definition second : Z := 1000000000.

(** An element of the [container/list] list [inflights].  Go identifies an
    element by its address; the embedding numbers the elements in the
    order [PushBack] allocates them. *)
Record Element := { el_id : nat; el_value : Z }.

(** The predicates [DoneFunc] applies to a non-nil [di.Err]; they live in
    [context], [net] and kratos' [errors] package. *)
Record ErrPredicates (error : Type) := {
  is_DeadlineExceeded : error -> bool;   (* errors.Is(context.DeadlineExceeded, err) *)
  is_Canceled : error -> bool;           (* errors.Is(context.Canceled, err) *)
  IsServiceUnavailable : error -> bool;  (* errors.IsServiceUnavailable(err) *)
  IsGatewayTimeout : error -> bool;      (* errors.IsGatewayTimeout(err) *)
  As_netError : error -> bool            (* errors.As(err, &netErr) *)
}.
Arguments is_DeadlineExceeded {error}.
Arguments is_Canceled {error}.
Arguments IsServiceUnavailable {error}.
Arguments IsGatewayTimeout {error}.
Arguments As_netError {error}.

(** [selector.DoneInfo]; [ReplyMD] is not read by this package. *)
Record DoneInfo (error : Type) := {
  Err : option error;
  BytesSent : bool;
  BytesReceived : bool
}.
Arguments Err {error}.
Arguments BytesSent {error}.
Arguments BytesReceived {error}.

Section Node.
Context {RawNode error : Type}.

(** [type Node struct].  [next_elem] is not a field of the source: it
    is the allocator of list elements. *)
Record Node := {
  raw : RawNode;
  lag : Z;
  success : Z;
  inflight : Z;
  inflights : list Element;
  stamp : Z;
  predictTs : Z;
  predict : Z;
  reqs : Z;
  lastPick : Z;
  errHandler : option (error -> bool);
  next_elem : nat
}.

(** [Builder.Build] *)
Definition Build (ErrHandler : option (error -> bool)) (n : RawNode) : Node :=
  {| raw := n; lag := 0; success := 1000; inflight := 1; inflights := [];
     stamp := 0; predictTs := 0; predict := 0; reqs := 0; lastPick := 0;
     errHandler := ErrHandler; next_elem := 0 |}.

(** [Node.health] *)
Definition health (n : Node) : Z := success n.

(** The loop of [load] over [inflights]: [(total, count)] of the entries
    older than [avgLag]. *)
Fixpoint scan (now avgLag : Z) (l : list Element) (total count : Z) : Z * Z :=
  match l with
  | [] => (total, count)
  | e :: l' =>
      let lag := Int.i64 (now - el_value e) in
      if lag >? avgLag
      then scan now avgLag l' (Int.i64 (total + lag)) (Int.i64 (count + 1))
      else scan now avgLag l' total count
  end.

Definition clamp_interval (avgLag : Z) : Z :=
  let predictInterval := Z.quot avgLag 5 in
  let predictInterval := if predictInterval <? 5000000 then 5000000 else predictInterval in
  if predictInterval >? 200000000 then 200000000 else predictInterval.

(** The refresh of [predict] at the head of [load]; the compare-and-swap
    on [predictTs] succeeds, as nothing runs between the load and it. *)
Definition refresh_predict (n : Node) (now : Z) : Node :=
  let avgLag := lag n in
  let lastPredictTs := predictTs n in
  if Int.i64 (now - lastPredictTs) >? clamp_interval avgLag then
    let '(total, count) := scan now avgLag (inflights n) 0 0 in
    let p := if count >? Z.quot (Z.of_nat (length (inflights n))) 2 + 1
             then Z.quot total count else 0 in
    {| raw := raw n; lag := lag n; success := success n; inflight := inflight n;
       inflights := inflights n; stamp := stamp n; predictTs := now; predict := p;
       reqs := reqs n; lastPick := lastPick n; errHandler := errHandler n;
       next_elem := next_elem n |}
  else n.

(** [Node.load]: the load and the node after the call. *)
Definition load (n : Node) (now : Z) : Z * Node :=
  let avgLag := lag n in
  let n' := refresh_predict n now in
  if avgLag =? 0 then
    (Int.u64 (penalty * Int.u64 (inflight n')), n')
  else
    let p := predict n' in
    let avgLag := if p >? avgLag then p else avgLag in
    (Int.u64 (Int.u64 avgLag * Int.u64 (inflight n')), n').

(** The quotient [Weight] returns, as a function of the two integers it
    reads. *)
Definition weight_of (health load : Z) : float :=
  (F64.of_Z (Int.u64 (health * second)) / F64.of_Z load)%float.

(** [Node.Weight] *)
Definition Weight (n : Node) (now : Z) : float * Node :=
  let h := health n in
  let '(l, n') := load n now in
  (weight_of h l, n').

(** [Node.Pick], up to the closure it returns: the node after the call
    and the list element the closure captures. *)
Definition Pick (n : Node) (now : Z) : Element * Node :=
  let e := {| el_id := next_elem n; el_value := now |} in
  (e,
   {| raw := raw n; lag := lag n; success := success n;
      inflight := Int.i64 (inflight n + 1);
      inflights := inflights n ++ [e];
      stamp := stamp n; predictTs := predictTs n; predict := predict n;
      reqs := Int.i64 (reqs n + 1); lastPick := now;
      errHandler := errHandler n; next_elem := S (next_elem n) |}).

(** [list.Remove(e)]: drops the element when it is still in the list. *)
Definition list_Remove (e : Element) (l : list Element) : list Element :=
  List.filter (fun x => negb (Nat.eqb (el_id x) (el_id e))) l.

Section Done.
Variable math_Exp : float -> float.
Variable errs : ErrPredicates error.

(** [td]: the time since the previous completion, not below zero. *)
Definition done_td (n : Node) (now : Z) : Z :=
  let td := Int.i64 (now - stamp n) in
  if td <? 0 then 0 else td.

(** [w]: the moving-average ratio of one completion. *)
Definition done_w (n : Node) (now : Z) : float :=
  let w := math_Exp (F64.of_Z (Int.i64 (- done_td n now)) / F64.of_Z tau)%float in
  if lag n =? 0 then 0%float else w.

(** The latency sample of one completion. *)
Definition done_lag (e : Element) (now : Z) : Z :=
  let lag := Int.i64 (now - el_value e) in
  if lag <? 0 then 0 else lag.

(** Whether the error of a completion counts as a failure: the two [if]s
    of the closure on a non-nil [di.Err], taken together. *)
Definition is_failure (n : Node) (err : error) : bool :=
  match errHandler n with Some h => h err | None => false end
  || is_DeadlineExceeded errs err || is_Canceled errs err
  || IsServiceUnavailable errs err || IsGatewayTimeout errs err
  || As_netError errs err.

(** The success sample of one completion. *)
Definition done_sample (n : Node) (di : DoneInfo error) : Z :=
  match Err di with
  | None => 1000
  | Some err =>
      let success :=
        match errHandler n with
        | Some h => if h err then 0 else 1000
        | None => 1000
        end in
      if is_DeadlineExceeded errs err || is_Canceled errs err
         || IsServiceUnavailable errs err || IsGatewayTimeout errs err
         || As_netError errs err
      then 0 else success
  end.

(** The moving average both statistics are updated with, before the
    conversion back to an integer. *)
Definition ewma (old sample : Z) (w : float) : float :=
  (F64.of_Z old * w + F64.of_Z sample * (1 - w))%float.

(** The closure [Pick] returns, for the element [e] it captured. *)
Definition DoneFunc (n : Node) (e : Element) (now : Z) (di : DoneInfo error) : Node :=
  let w := done_w n now in
  {| raw := raw n;
     lag := F64.to_i64 (ewma (lag n) (done_lag e now) w);
     success := F64.to_u64 (ewma (success n) (done_sample n di) w);
     inflight := Int.i64 (inflight n - 1);
     inflights := list_Remove e (inflights n);
     stamp := now; predictTs := predictTs n; predict := predict n;
     reqs := reqs n; lastPick := lastPick n;
     errHandler := errHandler n; next_elem := next_elem n |}.

End Done.

(** *** Calls on one node, in sequence *)

Section Run.
Variable math_Exp : float -> float.
Variable errs : ErrPredicates error.

(** One call on a node: [Pick], the closure the [k]-th [Pick] returned
    (counting from 0), or [Weight]. *)
Inductive op :=
| OpPick (now : Z)
| OpDone (k : nat) (now : Z) (di : DoneInfo error)
| OpWeight (now : Z).

(** A node together with the closures handed out so far, each given by the
    list element it captured. *)
Record client := { node : Node; closures : list Element }.

Definition step (c : client) (o : op) : client :=
  match o with
  | OpPick now =>
      let '(e, n') := Pick (node c) now in
      {| node := n'; closures := closures c ++ [e] |}
  | OpDone k now di =>
      match closures c !! k with
      | Some e => {| node := DoneFunc math_Exp errs (node c) e now di; closures := closures c |}
      | None => c
      end
  | OpWeight now => {| node := snd (Weight (node c) now); closures := closures c |}
  end.

Definition run (c : client) (ops : list op) : client := fold_left step ops c.

(** A sequence of calls in which every closure invoked was returned by an
    earlier [Pick] and none is invoked twice; [picks] closures exist and
    those of [finished] have been invoked when the sequence starts. *)
Fixpoint paired (picks : nat) (finished : list nat) (ops : list op) : bool :=
  match ops with
  | [] => true
  | OpPick _ :: ops' => paired (S picks) finished ops'
  | OpDone k _ _ :: ops' =>
      (k <? picks)%nat && negb (existsb (Nat.eqb k) finished) && paired picks (k :: finished) ops'
  | OpWeight _ :: ops' => paired picks finished ops'
  end.

Definition is_pick (o : op) : bool := match o with OpPick _ => true | _ => false end.
Definition is_done (o : op) : bool := match o with OpDone _ _ _ => true | _ => false end.

Definition picks (ops : list op) : Z := Z.of_nat (length (List.filter is_pick ops)).
Definition dones (ops : list op) : Z := Z.of_nat (length (List.filter is_done ops)).

End Run.

(** [Node.PickElapsed] *)
Definition PickElapsed (n : Node) (now : Z) : Z := Int.i64 (now - lastPick n).

(** [Node.Raw] *)
Definition Raw (n : Node) : RawNode := raw n.

End Node.
Arguments Node : clear implicits.

(** *** An instance of the parameters, for the closed examples *)

(** An approximation of [math.Exp] in binary64 arithmetic (reduction of the
    argument by multiples of [ln 2], then a rational approximation on the
    remainder).  It stands for the library function in the closed examples
    only; the theorems hold for every [math_Exp]. *)
Definition exp_model (x : float) : float :=
  if PrimFloat.is_nan x then x
  else if (0x1.62e42fefa39efp+9 <? x)%float then infinity
  else if (x <? -0x1.74910d52d3051p+9)%float then 0%float
  else if ((-0x1p-28 <? x) && (x <? 0x1p-28))%float%bool then (1 + x)%float
  else
    let k := if (x <? 0)%float
             then F64.to_i64 (0x1.71547652b82fep+0 * x - 0x1p-1)%float
             else F64.to_i64 (0x1.71547652b82fep+0 * x + 0x1p-1)%float in
    let kf := F64.of_Z k in
    let hi := (x - kf * 0x1.62e42feep-1)%float in
    let lo := (kf * 0x1.a39ef35793c76p-33)%float in
    let r := (hi - lo)%float in
    let t := (r * r)%float in
    let c := (r - t * (0x1.555555555553ep-3
                       + t * (-0x1.6c16c16bebd93p-9
                              + t * (0x1.1566aaf25de2cp-14
                                     + t * (-0x1.bbd41c5d26bf1p-20
                                            + t * 0x1.6376972bea4d0p-25)))))%float in
    let y := (1 - ((lo - (r * c) / (2 - c)) - hi))%float in
    Z.ldexp y k.

(** Errors of the examples, and the predicates on them. *)
Inductive sample_error :=
| ErrDeadline | ErrCanceled | ErrUnavailable | ErrGatewayTimeout | ErrNet | ErrOther.

Definition sample_errs : ErrPredicates sample_error :=
  {| is_DeadlineExceeded := fun e => match e with ErrDeadline => true | _ => false end;
     is_Canceled := fun e => match e with ErrCanceled => true | _ => false end;
     IsServiceUnavailable := fun e => match e with ErrUnavailable => true | _ => false end;
     IsGatewayTimeout := fun e => match e with ErrGatewayTimeout => true | _ => false end;
     As_netError := fun e => match e with ErrNet => true | _ => false end |}.

Definition ok : DoneInfo sample_error :=
  {| Err := None; BytesSent := true; BytesReceived := true |}.

Definition failed (e : sample_error) : DoneInfo sample_error :=
  {| Err := Some e; BytesSent := true; BytesReceived := false |}.

(** A node fresh from [Build], as a client sees it. *)
Definition fresh : @client unit sample_error :=
  {| node := Build None tt; closures := [] |}.

Definition sample_run := @run unit sample_error exp_model sample_errs.

(** The calls of the examples: a request of 1 ms that fails or succeeds,
    then a request of 2 ms that completes 600 ms ([tau]) after the first. *)
Definition first_ok : list (@op sample_error) :=
  [OpPick 1000000000; OpDone 0 1001000000 ok].

Definition first_failed : list (@op sample_error) :=
  [OpPick 1000000000; OpDone 0 1001000000 (failed ErrNet)].

Definition second_pick : list (@op sample_error) := [OpPick 1599000000].

(** The element the second [Pick] handed to its closure. *)
Definition second_elem : Element := {| el_id := 1; el_value := 1599000000 |}.

End Ewma.

(** ** Service instances ([registry/registry.go]) *)

Module Registry.

(** [type ServiceInstance struct].  A nil [Metadata] map reads like the
    empty one. *)
Record ServiceInstance := {
  ID : string;
  Name : string;
  Version : string;
  Metadata : gmap string string;
  Endpoints : list string
}.

(** Instances are handled through pointers: the heap maps an address to
    the instance stored there, and [None] is the nil pointer.  Every
    instance owns the array behind its [Endpoints]. *)
Abbreviation heap := (list ServiceInstance).
Abbreviation ptr := (option nat).

(** The argument of [Equal], of type [interface{}]: the nil interface, a
    [*ServiceInstance] (possibly a nil pointer), or a value of another
    type. *)
Inductive iface := I_nil | I_instance (p : ptr) | I_other.

(** A call either returns or panics (nil dereference). *)
Inductive outcome (A : Type) := Returned (a : A) | Panicked.
Arguments Returned {A}.
Arguments Panicked {A}.

(** [sort.Strings]: ascending order of Go's [<] on strings (bytewise). *)
Definition sort_Strings (l : list string) : list string :=
  merge_sort String.le l.

Definition set_Endpoints (s : ServiceInstance) (l : list string) : ServiceInstance :=
  {| ID := ID s; Name := Name s; Version := Version s;
     Metadata := Metadata s; Endpoints := l |}.

(** [sort.Strings(p.Endpoints)], in place. *)
Definition sort_in_place (h : heap) (p : nat) : heap :=
  match h !! p with
  | Some s => <[p := set_Endpoints s (sort_Strings (Endpoints s))]> h
  | None => h
  end.

(** The loop [for j := 0; j < len(i.Endpoints); j++] over two slices of
    one length. *)
Fixpoint endpoints_eqb (a b : list string) : bool :=
  match a, b with
  | x :: a', y :: b' => if String.eqb x y then endpoints_eqb a' b' else false
  | _, _ => true
  end.

(** [t.Metadata[k]]: the zero value for a missing key. *)
Definition md_get (m : gmap string string) (k : string) : string :=
  default EmptyString (m !! k).

(** The loop [for k, v := range i.Metadata]. *)
Definition metadata_eqb (a b : gmap string string) : bool :=
  forallb (fun kv => String.eqb (snd kv) (md_get b (fst kv))) (map_to_list a).

(** [ServiceInstance.Equal]: the result and the heap after the call. *)
Definition Equal (h : heap) (i : ptr) (o : iface) : outcome (bool * heap) :=
  match i, o with
  | None, I_nil => Returned (true, h)
  | None, _ => Returned (false, h)
  | Some _, I_nil => Returned (false, h)
  | Some _, I_other => Returned (false, h)
  | Some _, I_instance None => Panicked
  | Some pi, I_instance (Some pt) =>
      match h !! pi, h !! pt with
      | Some si, Some st =>
          if negb (Nat.eqb (length (Endpoints si)) (length (Endpoints st)))
          then Returned (false, h)
          else
            let h1 := sort_in_place h pi in
            let h2 := sort_in_place h1 pt in
            match h2 !! pi, h2 !! pt with
            | Some si', Some st' =>
                if negb (endpoints_eqb (Endpoints si') (Endpoints st'))
                then Returned (false, h2)
                else if negb (Nat.eqb (size (Metadata si')) (size (Metadata st')))
                then Returned (false, h2)
                else if negb (metadata_eqb (Metadata si') (Metadata st'))
                then Returned (false, h2)
                else Returned (String.eqb (ID si') (ID st') && String.eqb (Name si') (Name st')
                               && String.eqb (Version si') (Version st'), h2)
            | _, _ => Panicked
            end
      | _, _ => Panicked
      end
  end.

End Registry.

(** ** The default selector ([selector/default_selector.go]) *)

Module Selector.

Inductive outcome (A : Type) := Returned (a : A) | Panicked.
Arguments Returned {A}.
Arguments Panicked {A}.

Section Default.
Context {RawNode WeightedNode DoneFunc error Ctx World : Type}.

(** [selector.ErrNoAvailable] *)
Variable ErrNoAvailable : error.
(** [WeightedNode.Raw] *)
Variable Raw : WeightedNode -> RawNode.
(** [FromPeerContext(ctx)]: whether the context carries a peer slot. *)
Variable has_peer : Ctx -> bool.

(** A value of the interface type [Node] inside [Select]: a weighted
    node seen as a [Node], or some other implementation of [Node] a
    filter handed back. *)
Inductive NodeI := Weighted (w : WeightedNode) | Plain (r : RawNode).

(** [type NodeFilter func(context.Context, []Node) []Node] *)
Definition NodeFilter := Ctx -> list NodeI -> list NodeI.

(** [type SelectOptions struct], and a [SelectOption], which updates it. *)
Record SelectOptions := { NodeFilters : list NodeFilter }.
Definition SelectOption := SelectOptions -> SelectOptions.

(** What [Balancer.Pick] returns; [World] is whatever state the
    balancer and its nodes keep. *)
Record PickResult := {
  picked : option WeightedNode;
  picked_done : option DoneFunc;
  picked_err : option error
}.
Definition Balancer := Ctx -> list WeightedNode -> World -> PickResult * World.

(** [type Default struct]; [nodes] is the [atomic.Value], [None] until
    the first [Store]. *)
Record Default := {
  NodeBuilder : RawNode -> WeightedNode;
  balancer : Balancer;
  nodes : option (list WeightedNode)
}.

(** What [Select] returns, and the node it wrote into the peer slot of
    the context, if it wrote one. *)
Record SelectResult := {
  selected : option RawNode;
  done : option DoneFunc;
  err : option error;
  peer_Node : option RawNode
}.

(** [for _, o := range opts { o(&options) }] *)
Definition apply_options (opts : list SelectOption) : SelectOptions :=
  fold_left (fun options o => o options) opts {| NodeFilters := [] |}.

(** [for _, filter := range options.NodeFilters { newNodes = filter(ctx, newNodes) }] *)
Definition run_filters (ctx : Ctx) (fs : list NodeFilter) (l : list NodeI) : list NodeI :=
  fold_left (fun newNodes filter => filter ctx newNodes) fs l.

(** [candidates[i] = n.(WeightedNode)]: the assertion panics on a node
    that is not a weighted one. *)
Fixpoint assert_weighted (l : list NodeI) : option (list WeightedNode) :=
  match l with
  | [] => Some []
  | Weighted w :: l' => option_map (cons w) (assert_weighted l')
  | Plain _ :: _ => None
  end.

(** The candidates [Select] hands to the balancer. *)
Definition candidates_of (ctx : Ctx) (options : SelectOptions) (nodes : list WeightedNode)
  : option (list WeightedNode) :=
  if (0 <? length (NodeFilters options))%nat
  then assert_weighted (run_filters ctx (NodeFilters options) (List.map Weighted nodes))
  else Some nodes.

Definition no_available : SelectResult :=
  {| selected := None; done := None; err := Some ErrNoAvailable; peer_Node := None |}.

(** [Default.Select] *)
Definition Select (d : Default) (ctx : Ctx) (opts : list SelectOption) (s : World)
  : outcome SelectResult * World :=
  match nodes d with
  | None => (Returned no_available, s)
  | Some nodes =>
      let options := apply_options opts in
      match candidates_of ctx options nodes with
      | None => (Panicked, s)
      | Some candidates =>
          if (length candidates =? 0)%nat then (Returned no_available, s)
          else
            let '(r, s') := balancer d ctx candidates s in
            match picked_err r with
            | Some e =>
                (Returned {| selected := None; done := None; err := Some e;
                             peer_Node := None |}, s')
            | None =>
                match picked r with
                | None => (Panicked, s')
                | Some wn =>
                    (Returned {| selected := Some (Raw wn); done := picked_done r;
                                 err := None;
                                 peer_Node := if has_peer ctx then Some (Raw wn) else None |},
                     s')
                end
            end
      end
  end.

(** What [Select] makes of the balancer's answer. *)
Definition propagate (ctx : Ctx) (r : PickResult)
  : outcome SelectResult :=
  match picked_err r, picked r with
  | Some e, _ =>
      Returned {| selected := None; done := None; err := Some e; peer_Node := None |}
  | None, Some wn =>
      Returned {| selected := Some (Raw wn); done := picked_done r; err := None;
                  peer_Node := if has_peer ctx then Some (Raw wn) else None |}
  | None, None => Panicked
  end.

(** [Default.Apply] *)
Definition Apply (d : Default) (nodes : list RawNode) : Default :=
  {| NodeBuilder := NodeBuilder d; balancer := balancer d;
     nodes := Some (List.map (NodeBuilder d) nodes) |}.

End Default.

(** A fixed instance of the selector's parameters, for the closed
    examples: nodes are their addresses, the balancer takes the first
    candidate and counts its invocations in the world. *)
Definition first_balancer : @Balancer string unit string unit nat :=
  fun _ cs calls =>
    ({| picked := head cs; picked_done := Some tt;
        picked_err := match cs with [] => Some "empty"%string | _ => None end |},
     S calls).

Definition sample_default (ns : option (list string)) : @Default string string unit string unit nat :=
  {| NodeBuilder := fun r => r; balancer := first_balancer; nodes := ns |}.

Definition with_filters (fs : list (@NodeFilter string string unit))
  : @SelectOption string string unit :=
  fun _ => {| NodeFilters := fs |}.


End Selector.

(** ** The HTTP resolver ([transport/http/resolver.go]) *)

Module Resolver.
Import Registry.

Section Update.
Context {Node error : Type}.

(** [endpoint.Scheme(scheme, isSecure)] *)
Variable Scheme : string -> bool -> string.
(** [endpoint.ParseEndpoint(endpoints, scheme)] *)
Variable ParseEndpoint : list string -> string -> string * option error.
(** [subset.Subset(selectKey, inss, num)] *)
Variable Subset : string -> list ServiceInstance -> Z -> list ServiceInstance.
(** [selector.NewNode(scheme, addr, ins)] *)
Variable NewNode : string -> string -> ServiceInstance -> Node.

(** [type resolver struct]: the fields [update] reads.  The rebalancer
    is seen through the calls [update] makes on it. *)
Record resolver := {
  selecterKey : string;
  subsetSize : Z;
  insecure : bool
}.

(** The calls of [update] into the other packages that the claims speak
    about. *)
Inductive call :=
| Call_Subset (key : string) (inss : list ServiceInstance) (num : Z)
| Call_Apply (nodes : list Node).

(** The first loop of [update]: the instances with an endpoint of the
    resolver's scheme. *)
Definition keep (r : resolver) (ins : ServiceInstance) : bool :=
  match ParseEndpoint (Endpoints ins) (Scheme "http" (negb (insecure r))) with
  | (_, Some _) => false
  | (ept, None) => negb (String.eqb ept "")
  end.

Definition filtered (r : resolver) (services : list ServiceInstance) : list ServiceInstance :=
  List.filter (keep r) services.

(** The instances node construction receives, and the call to [Subset]
    made to get them. *)
Definition reduced (r : resolver) (services : list ServiceInstance)
  : list ServiceInstance * list call :=
  let f := filtered r services in
  if negb (subsetSize r =? 0)
  then (Subset (selecterKey r) f (subsetSize r),
        [Call_Subset (selecterKey r) f (subsetSize r)])
  else (f, []).

(** The second loop of [update]. *)
Definition to_node (r : resolver) (ins : ServiceInstance) : Node :=
  NewNode "http" (fst (ParseEndpoint (Endpoints ins) (Scheme "http" (negb (insecure r))))) ins.

(** The node set [update] ends up with. *)
Definition effective_nodes (r : resolver) (services : list ServiceInstance) : list Node :=
  List.map (to_node r) (fst (reduced r services)).

(** [resolver.update]: its result and the calls it made, in order. *)
Definition update (r : resolver) (services : list ServiceInstance) : bool * list call :=
  let '(f, calls) := reduced r services in
  let nodes := List.map (to_node r) f in
  if (length nodes =? 0)%nat then (false, calls)
  else (true, calls ++ [Call_Apply nodes]).

(** The effect of the logged calls on a rebalancer with state [R]. *)
Definition replay {R : Type} (Apply : R -> list Node -> R) (calls : list call) (s : R) : R :=
  fold_left (fun s c => match c with Call_Apply nodes => Apply s nodes | _ => s end) calls s.

Definition is_Apply (c : call) : bool :=
  match c with Call_Apply _ => true | _ => false end.


End Update.

(** A fixed instance of the parameters of [update], for the closed
    examples: an endpoint is kept when it starts with the scheme followed by
    [://], its address is what follows; [Subset] keeps the first [num]
    instances; a node is its scheme, its address and the instance's ID. *)
Definition sample_Scheme (scheme : string) (isSecure : bool) : string :=
  if isSecure then (scheme ++ "s")%string else scheme.

Fixpoint sample_ParseEndpoint (endpoints : list string) (scheme : string)
  : string * option string :=
  match endpoints with
  | [] => (EmptyString, None)
  | e :: es =>
      let p := (scheme ++ "://")%string in
      if String.prefix p e
      then (String.substring (String.length p) (String.length e - String.length p) e, None)
      else sample_ParseEndpoint es scheme
  end.

Definition sample_Subset (key : string) (inss : list ServiceInstance) (num : Z)
  : list ServiceInstance :=
  firstn (Z.to_nat num) inss.

Definition sample_NewNode (scheme addr : string) (ins : ServiceInstance)
  : string * string * string :=
  (scheme, addr, ID ins).

Definition sample_update :=
  update sample_Scheme sample_ParseEndpoint sample_Subset sample_NewNode.

Definition sample_instance (id : string) (endpoints : list string) : ServiceInstance :=
  {| ID := id; Name := "svc"; Version := "v1"; Metadata := ∅; Endpoints := endpoints |}.

End Resolver.

(** ** Sentences of the specification that the code does not obey, as they
    stand *)

Module Stated.
Import Ewma.

(** "For a fixed success a higher load gives a lower weight". *)
Definition C1_higher_load_lower_weight : Prop :=
  forall (n1 n2 : Node unit sample_error) (now : Z),
    health n1 = health n2 ->
    fst (load n1 now) < fst (load n2 now) ->
    (fst (Weight n2 now) <? fst (Weight n1 now))%float = true.

(** "The new stored lag equals round(old_lag * w + raw_lag * (1 - w))". *)
Definition C2_lag_is_rounded : Prop :=
  forall (n : Node unit sample_error) (e : Element) (now : Z) (di : DoneInfo sample_error),
    Some (lag (DoneFunc exp_model sample_errs n e now di))
    = F64.round_half_away (ewma (lag n) (done_lag e now) (done_w exp_model n now)).

(** "The stored success is then updated to round(old_success * w + sample * (1 - w))". *)
Definition C3_success_is_rounded : Prop :=
  forall (n : Node unit sample_error) (e : Element) (now : Z) (di : DoneInfo sample_error),
    Some (success (DoneFunc exp_model sample_errs n e now di))
    = F64.round_half_away
        (ewma (success n) (done_sample sample_errs n di) (done_w exp_model n now)).



End Stated.

(** ** Sequences of calls on an EWMA node: checks on the inputs *)

Module EwmaChecks.
Import Ewma.

(** The clock reading a call is made at. *)
Definition op_now {error : Type} (o : @op error) : Z :=
  match o with
  | OpPick now => now
  | OpDone _ now _ => now
  | OpWeight now => now
  end.

(** Every clock reading of the sequence lies in [T, T + 2^49]. *)
Definition in_window {error : Type} (T : Z) (ops : list (@op error)) : bool :=
  forallb (fun o => (T <=? op_now o) && (op_now o <=? T + 2 ^ 49)) ops.

Section Ratios.
Context {RawNode error : Type}.
Variable math_Exp : float -> float.
Variable errs : ErrPredicates error.

(** Every completion of the sequence computes a ratio [w] between 0 and 1,
    in the order of floats. *)
Fixpoint ratios_ok (c : @client RawNode error) (ops : list (@op error)) : bool :=
  match ops with
  | [] => true
  | o :: ops' =>
      match o with
      | OpDone k now _ =>
          match closures c !! k with
          | Some _ =>
              ((0 <=? done_w math_Exp (node c) now)%float
               && (done_w math_Exp (node c) now <=? 1)%float)%bool
          | None => true
          end
      | _ => true
      end
      && ratios_ok (step math_Exp errs c o) ops'
  end.

End Ratios.

End EwmaChecks.

(** ** The direct weighted node ([selector/node/direct/direct.go]) *)

Module Direct.

(** [defaultWeight = 100] *)
Definition defaultWeight : Z := 100.

Section Node.
Context {RawNode : Type}.

(** [selector.Node.InitialWeight]: the weight of the wrapped node, [None]
    for the nil pointer. *)
Variable InitialWeight : RawNode -> option Z.

(** [type Node struct] *)
Record Node := { raw : RawNode; lastPick : Z }.

(** [Builder.Build] *)
Definition Build (n : RawNode) : Node := {| raw := n; lastPick := 0 |}.

(** [Node.Pick]: the node after the call; the closure it returns does
    nothing. *)
Definition Pick (n : Node) (now : Z) : Node := {| raw := raw n; lastPick := now |}.

Definition DoneFunc (n : Node) : Node := n.

(** [Node.Weight] *)
Definition Weight (n : Node) : float :=
  match InitialWeight (raw n) with
  | Some w => F64.of_Z w
  | None => F64.of_Z defaultWeight
  end.

(** [Node.PickElapsed] *)
Definition PickElapsed (n : Node) (now : Z) : Z := Int.i64 (now - lastPick n).

(** [Node.Raw] *)
Definition Raw (n : Node) : RawNode := raw n.

(** One call on a direct node, and sequences of them. *)
Inductive op := OpPick (now : Z) | OpDone.

Definition step (n : Node) (o : op) : Node :=
  match o with
  | OpPick now => Pick n now
  | OpDone => DoneFunc n
  end.

Definition run (n : Node) (ops : list op) : Node := fold_left step ops n.

End Node.
Arguments Node : clear implicits.

End Direct.

(** Properties of call sequences that later statements name. *)
Module EwmaRuns.

Section Ops.
Context {error : Type}.

Definition not_done (o : @Ewma.op error) : bool := negb (Ewma.is_done o).
Definition not_pick (o : @Ewma.op error) : bool := negb (Ewma.is_pick o).

(** No closure is invoked in [ops]. *)
Definition no_done (ops : list (@Ewma.op error)) : bool := forallb not_done ops.

(** No [Pick] in [ops]. *)
Definition no_pick (ops : list (@Ewma.op error)) : bool := forallb not_pick ops.

End Ops.

Definition direct_not_pick (o : Direct.op) : bool :=
  match o with Direct.OpPick _ => false | Direct.OpDone => true end.

End EwmaRuns.

(** ** [DefaultBuilder] and filters of the default selector *)

Module SelectorBuild.
Import Selector.

Section Builder.
Context {RawNode WeightedNode DoneFunc error Ctx World : Type}.

(** [type DefaultBuilder struct]: [Node] is the [WeightedNodeBuilder], seen
    through its [Build]; [Balancer] is the [BalancerBuilder], seen through
    its [Build]. *)
Record DefaultBuilder := {
  Node : RawNode -> WeightedNode;
  Balancer_Build : unit -> @Balancer WeightedNode DoneFunc error Ctx World
}.

(** [DefaultBuilder.Build]: the [atomic.Value] of the new selector is
    empty. *)
Definition Build (db : DefaultBuilder) : @Default RawNode WeightedNode DoneFunc error Ctx World :=
  {| NodeBuilder := Node db; balancer := Balancer_Build db tt; nodes := None |}.

(** A filter that hands back only nodes it was given. *)
Definition narrowing (ctx : Ctx) (f : @NodeFilter RawNode WeightedNode Ctx) : Prop :=
  forall l : list NodeI, f ctx l ⊆ l.

End Builder.

(** A filter of the closed examples: the nodes whose address starts with
    [p]. *)
Definition by_prefix (p : string) : @NodeFilter string string unit :=
  fun _ l => List.filter (fun n => match n with
                                   | Weighted w => String.prefix p w
                                   | Plain r => String.prefix p r
                                   end) l.

End SelectorBuild.

(** ** The loops of [newResolver] and [parseTarget]
    ([transport/http/resolver.go]) *)

Module ResolverLoops.
Import Registry Resolver.



(** The fields of [url.URL] that [parseTarget] reads. *)
Record URL := { URL_Scheme : string; Host : string; Path : string }.

Section ParseTarget.
Context {error : Type}.

(** [url.Parse] *)
Variable url_Parse : string -> URL + error.


End ParseTarget.

Section Loops.
Context {Node error : Type}.

Variable Scheme : string -> bool -> string.
Variable ParseEndpoint : list string -> string -> string * option error.
Variable Subset : string -> list ServiceInstance -> Z -> list ServiceInstance.
Variable NewNode : string -> string -> ServiceInstance -> Node.
(** [errors.Is(err, context.Canceled)] *)
Variable is_Canceled : error -> bool.

(** What one call of [watcher.Next] returned. *)
Inductive next_result :=
| Next_ok (services : list ServiceInstance)
| Next_err (e : error).

(** The goroutine of the blocking phase, run on the successive results of
    [watcher.Next]: what it sends on [done] ([None] while it still waits
    in [Next] for a result beyond those given), the calls it made, and the
    results it has not consumed. *)
Fixpoint bootstrap (r : resolver) (results : list next_result)
  : option (option error) * list (@call Node) * list next_result :=
  match results with
  | [] => (None, [], [])
  | Next_err e :: rest => (Some (Some e), [], rest)
  | Next_ok services :: rest =>
      let '(ok, calls) := update Scheme ParseEndpoint Subset NewNode r services in
      if ok then (Some None, calls, rest)
      else
        let '(res, calls', rest') := bootstrap r rest in
        (res, calls ++ calls', rest')
  end.

(** The goroutine started last, run on the successive results of
    [watcher.Next]: whether it has returned, and the calls it made. *)
Fixpoint watch (r : resolver) (results : list next_result) : bool * list (@call Node) :=
  match results with
  | [] => (false, [])
  | Next_err e :: rest =>
      if is_Canceled e then (true, []) else watch r rest
  | Next_ok services :: rest =>
      let '(_, calls) := update Scheme ParseEndpoint Subset NewNode r services in
      let '(b, calls') := watch r rest in
      (b, calls ++ calls')
  end.

(** No result of the list is the cancellation error. *)
Definition no_cancel (results : list next_result) : bool :=
  forallb (fun x => match x with Next_err e => negb (is_Canceled e) | Next_ok _ => true end)
          results.

(** Every snapshot of the list is one [update] refuses. *)
Definition all_refused (r : resolver) (results : list next_result) : Prop :=
  Forall (fun x => match x with
                   | Next_ok s => fst (update Scheme ParseEndpoint Subset NewNode r s) = false
                   | Next_err _ => True
                   end) results.

End Loops.

End ResolverLoops.

(** ** [middleware.Chain], [FilterChain] and the router
    ([middleware/middleware.go], [transport/http/filter.go],
    [transport/http/router.go]) *)

Module Middleware.

Section Chain.
Context {Handler : Type}.

(** [type Middleware func(Handler) Handler] *)
Definition Middleware := Handler -> Handler.

(** The loop [for i := len(m) - 1; i >= 0; i-- { next = m[i](next) }];
    [k] is [i + 1]. *)
Fixpoint chain_loop (m : list Middleware) (k : nat) (next : Handler) : Handler :=
  match k with
  | O => next
  | S i => chain_loop m i (match m !! i with Some f => f next | None => next end)
  end.

(** [Chain] *)
Definition Chain (m : list Middleware) : Middleware :=
  fun next => chain_loop m (length m) next.

End Chain.

End Middleware.

Module Router.

Section Router.
Context {Handler HandlerFunc : Type}.

(** [type FilterFunc func(http.Handler) http.Handler] *)
Definition FilterFunc := Handler -> Handler.

(** [FilterChain]: the same loop as [middleware.Chain]. *)
Fixpoint filter_loop (filters : list FilterFunc) (k : nat) (next : Handler) : Handler :=
  match k with
  | O => next
  | S i => filter_loop filters i (match filters !! i with Some f => f next | None => next end)
  end.

Definition FilterChain (filters : list FilterFunc) : FilterFunc :=
  fun next => filter_loop filters (length filters) next.

(** [path.Join] of two elements. *)
Variable path_Join : string -> string -> string.
(** The [http.Handler] that [Handle] makes of a [HandlerFunc]: it takes a
    context from the pool, runs the function, encodes its error and puts
    the context back. *)
Variable wrap : HandlerFunc -> Handler.

(** [type Router struct]; the server is seen through the routes
    registered on its mux. *)
Record Router := { prefix : string; filters : list FilterFunc }.

(** A route on the mux: [router.Handle(path, handler).Methods(method)]. *)
Record Route := { route_path : string; route_handler : Handler; route_method : string }.

(** [newRouter] *)
Definition newRouter (prefix : string) (filters : list FilterFunc) : Router :=
  {| prefix := prefix; filters := filters |}.

(** [Router.Group] *)
Definition Group (r : Router) (prefix' : string) (filters' : list FilterFunc) : Router :=
  let newFilters := [] ++ filters r in
  let newFilters := newFilters ++ filters' in
  newRouter (path_Join (prefix r) prefix') newFilters.

(** [Router.Handle]: the mux after the call. *)
Definition Handle (r : Router) (method relativePath : string) (h : HandlerFunc)
    (filters' : list FilterFunc) (mux : list Route) : list Route :=
  let next := wrap h in
  let next := FilterChain filters' next in
  let next := FilterChain (filters r) next in
  mux ++ [{| route_path := path_Join (prefix r) relativePath;
             route_handler := next; route_method := method |}].

(** [Router.GET] and [Router.POST]; the other verbs are alike. *)
Definition GET (r : Router) (path : string) (h : HandlerFunc) (m : list FilterFunc)
    (mux : list Route) : list Route :=
  Handle r "GET" path h m mux.

Definition POST (r : Router) (path : string) (h : HandlerFunc) (m : list FilterFunc)
    (mux : list Route) : list Route :=
  Handle r "POST" path h m mux.

End Router.

End Router.

(** ** [App.Stop] and [App.buildInstance] ([app.go]) *)

Module App.
Import Registry.

Section App.
Context {error World URL : Type}.

(** [String] of a [url.URL] *)
Variable url_String : URL -> string.

(** A hook, [func(context.Context) error], acting on the world. *)
Definition Hook := World -> option error * World.

(** A [transport.Server]: [Some] result of [Endpoint()] when the server is
    a [transport.Endpointer], [None] when it is not. *)
Record Server := { server_Endpoint : option (URL + error) }.

(** [registry.Registrar], the method [Stop] calls. *)
Record Registrar := { Deregister : ServiceInstance -> World -> option error * World }.

(** [type options struct], the fields read here. *)
Record options := {
  id : string;
  name : string;
  version : string;
  metadata : gmap string string;
  endpoints : list URL;
  servers : list Server;
  beforeStart : list Hook;
  beforeStop : list Hook;
  registrar : option Registrar
}.

(** [type App struct] *)
Record App := {
  opts : options;
  cancel : option (World -> World);
  instance : option ServiceInstance
}.

(** The loop of [buildInstance] over the servers. *)
Fixpoint collect_endpoints (srvs : list Server) (endpoints : list string)
  : list string + error :=
  match srvs with
  | [] => inl endpoints
  | srv :: rest =>
      match server_Endpoint srv with
      | Some (inr err) => inr err
      | Some (inl e) => collect_endpoints rest (endpoints ++ [url_String e])
      | None => collect_endpoints rest endpoints
      end
  end.

(** [App.buildInstance] *)
Definition buildInstance (a : App) : ServiceInstance + error :=
  let endpoints := List.map url_String (endpoints (opts a)) in
  let build eps :=
    {| ID := id (opts a); Name := name (opts a); Version := version (opts a);
       Metadata := metadata (opts a); Endpoints := eps |} in
  if (length endpoints =? 0)%nat then
    match collect_endpoints (servers (opts a)) endpoints with
    | inr err => inr err
    | inl eps => inl (build eps)
    end
  else inl (build endpoints).

(** What [Stop] and the start of [Run] call, in order. *)
Inductive event :=
| Ev_beforeStart (k : nat)
| Ev_beforeStop (k : nat)
| Ev_Deregister (ins : ServiceInstance)
| Ev_cancel.

(** [for _, fn := range a.opts.beforeStart { if err = fn(sctx); err != nil
    { return err } }], from the [k]-th hook on. *)
Fixpoint start_hooks (fns : list Hook) (k : nat) (w : World)
  : option error * World * list event :=
  match fns with
  | [] => (None, w, [])
  | fn :: rest =>
      let '(err, w') := fn w in
      match err with
      | Some e => (Some e, w', [Ev_beforeStart k])
      | None =>
          let '(res, w'', evs) := start_hooks rest (S k) w' in
          (res, w'', Ev_beforeStart k :: evs)
      end
  end.

(** [for _, fn := range a.opts.beforeStop { err = fn(sctx) }], from the
    [k]-th hook on. *)
Fixpoint run_hooks (fns : list Hook) (k : nat) (err : option error) (w : World)
  : option error * World * list event :=
  match fns with
  | [] => (err, w, [])
  | fn :: rest =>
      let '(err', w') := fn w in
      let '(res, w'', evs) := run_hooks rest (S k) err' w' in
      (res, w'', Ev_beforeStop k :: evs)
  end.

(** [App.Stop]: the error returned, the world after the call and the
    calls made. *)
Definition Stop (a : App) (w : World) : option error * World * list event :=
  let '(err, w1, evs) := run_hooks (beforeStop (opts a)) 0 None w in
  let finish err w2 evs :=
    match cancel a with
    | Some c => (err, c w2, evs ++ [Ev_cancel])
    | None => (err, w2, evs)
    end in
  match registrar (opts a), instance a with
  | Some reg, Some ins =>
      let '(err', w2) := Deregister reg ins w1 in
      match err' with
      | Some e => (Some e, w2, evs ++ [Ev_Deregister ins])
      | None => finish None w2 (evs ++ [Ev_Deregister ins])
      end
  | _, _ => finish err w1 evs
  end.

Definition is_beforeStop (e : event) : bool :=
  match e with Ev_beforeStop _ => true | _ => false end.

Definition is_cancel (e : event) : bool :=
  match e with Ev_cancel => true | _ => false end.

Definition is_Deregister (e : event) : bool :=
  match e with Ev_Deregister _ => true | _ => false end.

(** [App.Endpoint] *)
Definition Endpoint (a : App) : list string :=
  match instance a with
  | Some ins => Endpoints ins
  | None => []
  end.

(** [App.Run] up to the point where it starts the servers: [Some err]
    when it returns [err] before that point, [None] when it goes on; the
    application and the world at that point, and the hooks called. *)
Definition Run_startup (a : App) (w : World) : option error * App * World * list event :=
  match buildInstance a with
  | inr err => (Some err, a, w, [])
  | inl ins =>
      let a' := {| opts := opts a; cancel := cancel a; instance := Some ins |} in
      let '(res, w', evs) := start_hooks (beforeStart (opts a)) 0 w in
      (res, a', w', evs)
  end.

End App.

End App.

(** ** The etcd watcher ([contrib/registry/etcd/watcher.go]) *)

Module Etcd.
Import Registry.

Section Watcher.
Context {error bytes : Type}.

(** [unmarshal], of the package's [service.go]. *)
Variable unmarshal : bytes -> ServiceInstance + error.

(** [type watcher struct]: the fields that decide what [Next] and
    [getInstance] return. *)
Record watcher := { first : bool; serviceName : string }.

(** The loop of [getInstance] over [resp.Kvs]. *)
Fixpoint collect (w : watcher) (kvs : list bytes) (items : list ServiceInstance)
  : list ServiceInstance + error :=
  match kvs with
  | [] => inl items
  | kv :: rest =>
      match unmarshal kv with
      | inr err => inr err
      | inl si =>
          if negb (String.eqb (Name si) (serviceName w))
          then collect w rest items
          else collect w rest (items ++ [si])
      end
  end.

(** [watcher.getInstance], given what [kv.Get] returned: the values under
    the prefix, or an error. *)
Definition getInstance (w : watcher) (get : list bytes + error)
  : list ServiceInstance + error :=
  match get with
  | inr err => inr err
  | inl kvs => collect w kvs []
  end.

(** What ends the wait of [Next]: the context is done, or the watch
    channel delivers ([ok] false for a closed channel, [resp_err] for a
    response that carries an error). *)
Inductive wake :=
| Ctx_Done (err : error)
| Watch_resp (ok : bool) (resp_err : bool).

(** [watcher.Next], given the event that ends its wait, what [reWatch]
    returns and what [kv.Get] returns, should it come to them: the result
    and the watcher after the call. *)
Definition Next (w : watcher) (ev : wake) (reWatch : option error) (get : list bytes + error)
  : (list ServiceInstance + error) * watcher :=
  if first w then
    (getInstance w get, {| first := false; serviceName := serviceName w |})
  else
    match ev with
    | Ctx_Done err => (inr err, w)
    | Watch_resp ok resp_err =>
        if negb ok || resp_err then
          match reWatch with
          | Some err => (inr err, w)
          | None => (getInstance w get, w)
          end
        else (getInstance w get, w)
    end.

End Watcher.

End Etcd.

(** An application of the closed examples: the world is the log of what
    ran; the first hook fails, deregistration fails. *)
Module AppSample.

Definition hook_fails : @App.Hook string (list string) :=
  fun w => (Some "hook failed"%string, w ++ ["hook 1"%string]).

Definition hook_ok : @App.Hook string (list string) :=
  fun w => (None, w ++ ["hook 2"%string]).

Definition registrar_down : @App.Registrar string (list string) :=
  {| App.Deregister := fun _ w => (Some "registry down"%string, w ++ ["deregister"%string]) |}.

Definition app : @App.App string (list string) string :=
  {| App.opts :=
       {| App.id := "1"; App.name := "svc"; App.version := "v1"; App.metadata := ∅;
          App.endpoints := [];
          App.servers := [ {| App.server_Endpoint := None |};
                           {| App.server_Endpoint := Some (inl "grpc://h:9000"%string) |};
                           {| App.server_Endpoint := Some (inl "http://h:8000"%string) |} ];
          App.beforeStart := [hook_ok; hook_fails; hook_ok];
          App.beforeStop := [hook_fails; hook_ok];
          App.registrar := Some registrar_down |};
     App.cancel := Some (fun w => w ++ ["cancel"%string]);
     App.instance := Some (Resolver.sample_instance "1" ["http://h:8000"]) |}.

End AppSample.

(** ** The gRPC picker ([transport/grpc/balancer.go]) *)

Module Grpc.
Import Registry Selector.

Section Picker.
Context {SubConn Base WeightedNode DoneFunc error Ctx World : Type}.

(** A [selector.Node] as this package sees it: a [*grpcNode], which embeds
    a node and carries its [subConn], or a node of another type. *)
Inductive Node :=
| GrpcNode (node : Base) (subConn : SubConn)
| OtherNode (node : Base).

(** [selector.NewNode(scheme, addr, ins)] *)
Variable NewNode : string -> string -> option ServiceInstance -> Base.
(** [balancer.ErrNoSubConnAvailable] *)
Variable ErrNoSubConnAvailable : error.
(** [selector.ErrNoAvailable], [WeightedNode.Raw] and [FromPeerContext],
    which [Select] uses. *)
Variable ErrNoAvailable : error.
Variable Raw : WeightedNode -> Node.
Variable has_peer : Ctx -> bool.
(** [selector.WithNodeFilter], of [selector/options.go]. *)
Variable WithNodeFilter :
  list (@NodeFilter Node WeightedNode Ctx) -> @SelectOption Node WeightedNode Ctx.

(** What [Build] reads of a [base.SubConnInfo]: the address, and the
    attribute [rawServiceInstance] when it holds a [*ServiceInstance]. *)
Record SubConnInfo := { Addr : string; rawServiceInstance : option ServiceInstance }.

(** [base.PickerBuildInfo]: the map [ReadySCs], as the list of its entries
    in the order the [range] visits them. *)
Record PickerBuildInfo := { ReadySCs : list (SubConn * SubConnInfo) }.

(** [balancer.Picker]: the error picker of [base], or a [balancerPicker]
    with its selector. *)
Inductive Picker :=
| ErrPicker (err : error)
| BalancerPicker (selector : @Default Node WeightedNode DoneFunc error Ctx World).

(** The loop of [Build] over [info.ReadySCs]. *)
Definition nodes_of (info : PickerBuildInfo) : list Node :=
  List.map (fun ci : SubConn * SubConnInfo =>
              GrpcNode (NewNode "grpc" (Addr (snd ci)) (rawServiceInstance (snd ci))) (fst ci))
           (ReadySCs info).

(** [balancerBuilder.Build], for a builder that is a [DefaultBuilder]. *)
Definition Build (b : @SelectorBuild.DefaultBuilder Node WeightedNode DoneFunc error Ctx World)
    (info : PickerBuildInfo) : Picker :=
  if (length (ReadySCs info) =? 0)%nat then ErrPicker ErrNoSubConnAvailable
  else BalancerPicker (Apply (SelectorBuild.Build b) (nodes_of info)).

(** [balancer.PickInfo]: the context, and the node filters of the client
    transport in it, if there is one. *)
Record PickInfo := {
  pick_Ctx : Ctx;
  transport_NodeFilters : option (list (@NodeFilter Node WeightedNode Ctx))
}.

(** [balancer.PickResult]; [Done] forwards to the [DoneFunc] of the
    selector. *)
Record PickResult := { SubConn_of : SubConn; Done : option DoneFunc }.

(** [balancerPicker.Pick] *)
Definition Pick (p : @Default Node WeightedNode DoneFunc error Ctx World) (info : PickInfo)
    (w : World) : outcome (PickResult + error) * World :=
  let filters := match transport_NodeFilters info with Some fs => fs | None => [] end in
  match Select ErrNoAvailable Raw has_peer p (pick_Ctx info) [WithNodeFilter filters] w with
  | (Panicked, w') => (Panicked, w')
  | (Returned r, w') =>
      match err r with
      | Some e => (Returned (inr e), w')
      | None =>
          match selected r with
          | Some (GrpcNode _ c) => (Returned (inl {| SubConn_of := c; Done := done r |}), w')
          | _ => (Panicked, w')
          end
      end
  end.

(** A balancer that answers with an error or with one of the candidates
    it was given. *)
Definition picks_candidate (bal : @Balancer WeightedNode DoneFunc error Ctx World) : Prop :=
  forall ctx cs w,
    picked_err (fst (bal ctx cs w)) <> None
    \/ exists wn, picked (fst (bal ctx cs w)) = Some wn /\ wn ∈ cs.

End Picker.

End Grpc.

(** The requests in flight were all picked at most [2^49] ns before [now],
    none after it. *)
Module EwmaAges.

Definition recent (now : Z) (l : list Ewma.Element) : Prop :=
  Forall (fun e => 0 <= now - Ewma.el_value e <= 2 ^ 49) l.

Definition recentb (now : Z) (l : list Ewma.Element) : bool :=
  forallb (fun e => (0 <=? now - Ewma.el_value e) && (now - Ewma.el_value e <=? 2 ^ 49)) l.

End EwmaAges.
(** * Properties *)

(** ** The default selector *)

Module SelectorFacts.
Import Selector.

Section Facts.
Context {RawNode WeightedNode DoneFunc error Ctx World : Type}.
Variable ErrNoAvailable : error.
Variable Raw : WeightedNode -> RawNode.
Variable has_peer : Ctx -> bool.

Abbreviation Default' := (@Default RawNode WeightedNode DoneFunc error Ctx World).
Abbreviation Select' := (@Select RawNode WeightedNode DoneFunc error Ctx World ErrNoAvailable Raw has_peer).



Lemma Select_candidates (d : Default') ctx opts s ns cs :
  nodes d = Some ns ->
  candidates_of ctx (apply_options opts) ns = Some cs ->
  Select' d ctx opts s =
    match cs with
    | [] => (Returned (no_available ErrNoAvailable), s)
    | _ => (propagate Raw has_peer ctx (fst (balancer d ctx cs s)), snd (balancer d ctx cs s))
    end.
Proof.
  intros Hn Hc. unfold Select. rewrite Hn, Hc.
  destruct cs as [|c cs]; [reflexivity|].
  cbn [length Nat.eqb].
  destruct (balancer d ctx (c :: cs) s) as [r s']. cbn [fst snd].
  unfold propagate. destruct (picked_err r); [reflexivity|].
  destruct (picked r); reflexivity.
Qed.

End Facts.

End SelectorFacts.



(** ** Accuracy of the [float64] operations

    The operations of the source are primitive floats; their specification
    ([FloatAxioms]) gives each as a rounding of the exact result.  This part
    derives from it, for operands that are not negative, enclosures of the
    rounded result: it is within a few units in the last place of the exact
    one.  The bounds are not the sharpest ones; they are what the
    properties of the node need. *)

Module FloatFacts.
Import F64.

Local Open Scope R_scope.

(** *** Powers of two *)

Lemma p2_pos (e : Z) : 0 < p2 e.
Proof. unfold p2. apply powerRZ_lt. lra. Qed.

Lemma p2_add (a b : Z) : p2 (a + b) = p2 a * p2 b.
Proof. unfold p2. apply powerRZ_add. lra. Qed.

Lemma p2_0 : p2 0 = 1.
Proof. reflexivity. Qed.

Lemma p2_1 : p2 1 = 2.
Proof. unfold p2. simpl. lra. Qed.

Lemma p2_succ (e : Z) : p2 (e + 1) = 2 * p2 e.
Proof. rewrite p2_add, p2_1. lra. Qed.

Lemma p2_opp (e : Z) : p2 (- e) = / p2 e.
Proof. unfold p2. apply powerRZ_neg'. Qed.

Lemma p2_sub (a b : Z) : p2 (a - b) = p2 a / p2 b.
Proof.
  replace (a - b)%Z with (a + - b)%Z by lia.
  rewrite p2_add, p2_opp. reflexivity.
Qed.

Lemma p2_IZR (k : Z) : (0 <= k)%Z -> p2 k = IZR (2 ^ k).
Proof.
  intros H. unfold p2. destruct k as [|p|p]; [reflexivity | | lia].
  simpl. rewrite pow_IZR. f_equal. rewrite positive_nat_Z. reflexivity.
Qed.

Lemma p2_ge_1 (k : Z) : (0 <= k)%Z -> 1 <= p2 k.
Proof.
  intros H. rewrite p2_IZR by exact H. apply IZR_le.
  pose proof (Z.pow_pos_nonneg 2 k). lia.
Qed.

Lemma p2_le (a b : Z) : (a <= b)%Z -> p2 a <= p2 b.
Proof.
  intros H. replace b with (a + (b - a))%Z by lia. rewrite p2_add.
  pose proof (p2_ge_1 (b - a)). pose proof (p2_pos a).
  assert (1 <= p2 (b - a)) by (apply H0; lia). nra.
Qed.

Lemma p2_lt (a b : Z) : (a < b)%Z -> p2 a < p2 b.
Proof.
  intros H. replace b with (a + (b - a - 1) + 1)%Z by lia.
  rewrite p2_succ, p2_add.
  assert (1 <= p2 (b - a - 1)) by (apply p2_ge_1; lia).
  pose proof (p2_pos a). nra.
Qed.

(** *** Number of binary digits *)

Lemma digits2_size (p : positive) : digits2_pos p = Pos.size p.
Proof. induction p; simpl; congruence. Qed.

Lemma digits2_bounds (p : positive) :
  (2 ^ (Z.pos (digits2_pos p) - 1) <= Z.pos p < 2 ^ Z.pos (digits2_pos p))%Z.
Proof.
  rewrite digits2_size.
  pose proof (Pos.size_gt p) as H1. pose proof (Pos.size_le p) as H2.
  apply Pos2Z.pos_lt_pos in H1. apply Pos2Z.pos_le_pos in H2.
  rewrite Pos2Z.inj_pow in H1, H2.
  split; [|exact H1].
  replace (Z.pos (Pos.size p)) with (Z.succ (Z.pos (Pos.size p) - 1)) in H2 by lia.
  rewrite Z.pow_succ_r in H2 by lia. lia.
Qed.

Lemma Zdigits2_bounds (m : Z) :
  (0 < m)%Z -> (2 ^ (Zdigits2 m - 1) <= m < 2 ^ Zdigits2 m)%Z.
Proof.
  destruct m as [|p|p]; try lia. intros _. apply digits2_bounds.
Qed.

Lemma Zdigits2_pos (m : Z) : (0 < m)%Z -> (0 < Zdigits2 m)%Z.
Proof. destruct m; simpl; lia. Qed.

(** The number of digits is fixed by the power of two just above. *)
Lemma Zdigits2_unique (m d : Z) :
  (0 < m)%Z -> (2 ^ (d - 1) <= m < 2 ^ d)%Z -> (0 < d)%Z -> Zdigits2 m = d.
Proof.
  intros Hm [H1 H2] Hd.
  pose proof (Zdigits2_bounds m Hm) as [H3 H4].
  pose proof (Zdigits2_pos m Hm) as H5.
  destruct (Z.lt_trichotomy (Zdigits2 m) d) as [H | [H | H]]; [|exact H|].
  - assert (2 ^ Zdigits2 m <= 2 ^ (d - 1))%Z by (apply Z.pow_le_mono_r; lia). lia.
  - assert (2 ^ d <= 2 ^ (Zdigits2 m - 1))%Z by (apply Z.pow_le_mono_r; lia). lia.
Qed.


(** *** Right shifts and rounding of a mantissa *)

Abbreviation fexp64 := (SpecFloat.fexp prec emax).

Lemma fexp64_eq (x : Z) : fexp64 x = Z.max (x - 53) (-1074).
Proof. reflexivity. Qed.

Lemma shr_1_m (r : shr_record) :
  (0 <= shr_m r)%Z -> shr_m (shr_1 r) = (shr_m r / 2)%Z.
Proof.
  destruct r as [m b st]. simpl. intros H.
  destruct m as [|p|p]; [reflexivity | | lia].
  destruct p as [q|q|]; simpl.
  - apply (Z.div_unique _ _ _ 1); lia.
  - apply (Z.div_unique _ _ _ 0); lia.
  - reflexivity.
Qed.

Lemma iter_shr_m (n : positive) :
  forall r : shr_record,
    (0 <= shr_m r)%Z ->
    shr_m (SpecFloat.iter_pos shr_1 n r) = (shr_m r / 2 ^ Z.pos n)%Z.
Proof.
  assert (Hdiv : forall a k : Z, (0 <= a -> 0 <= k -> 0 <= a / 2 ^ k)%Z).
  { intros a k Ha Hk. apply Z.div_pos; [exact Ha|]. apply Z.pow_pos_nonneg; lia. }
  assert (Hpow : forall k : Z, (0 <= k -> 0 < 2 ^ k)%Z).
  { intros k Hk. apply Z.pow_pos_nonneg; lia. }
  induction n as [n IH | n IH |]; intros r Hr; cbn [SpecFloat.iter_pos].
  - pose proof (shr_1_m r Hr) as H1.
    assert (H1' : (0 <= shr_m (shr_1 r))%Z) by (rewrite H1; apply Z.div_pos; lia).
    pose proof (IH _ H1') as H2.
    assert (H2' : (0 <= shr_m (SpecFloat.iter_pos shr_1 n (shr_1 r)))%Z)
      by (rewrite H2; apply Hdiv; lia).
    rewrite (IH _ H2'), H2, H1.
    rewrite !Z.div_div by solve [apply Hpow; lia | apply Z.pow_nonzero; lia | lia].
    f_equal. rewrite (Pos2Z.inj_xI n).
    replace (2 * Z.pos n + 1)%Z with (1 + Z.pos n + Z.pos n)%Z by lia.
    rewrite !Z.pow_add_r by lia. rewrite Z.pow_1_r. lia.
  - pose proof (IH _ Hr) as H2.
    assert (H2' : (0 <= shr_m (SpecFloat.iter_pos shr_1 n r))%Z)
      by (rewrite H2; apply Hdiv; lia).
    rewrite (IH _ H2'), H2.
    rewrite Z.div_div by solve [apply Hpow; lia | apply Z.pow_nonzero; lia | lia].
    f_equal. rewrite (Pos2Z.inj_xO n).
    replace (2 * Z.pos n)%Z with (Z.pos n + Z.pos n)%Z by lia.
    rewrite Z.pow_add_r by lia. reflexivity.
  - rewrite shr_1_m by exact Hr. reflexivity.
Qed.

(** The mantissa and exponent [shr_fexp] returns. *)
Lemma shr_fexp_m (m e : Z) (l : location) :
  (0 <= m)%Z ->
  let n := (fexp64 (Zdigits2 m + e) - e)%Z in
  shr_m (fst (shr_fexp prec emax m e l)) = (if (0 <? n)%Z then m / 2 ^ n else m)%Z
  /\ snd (shr_fexp prec emax m e l) = (if (0 <? n)%Z then e + n else e)%Z.
Proof.
  intros Hm n. unfold shr_fexp. fold n.
  assert (Hrec : shr_m (shr_record_of_loc m l) = m).
  { destruct l as [|[]]; reflexivity. }
  destruct n as [|p|p]; simpl; try (split; [exact Hrec | reflexivity]).
  split; [|reflexivity].
  rewrite iter_shr_m by (rewrite Hrec; exact Hm). rewrite Hrec. reflexivity.
Qed.

Lemma round_nearest_even_bounds (q : Z) (l : location) :
  (q <= round_nearest_even q l <= q + 1)%Z.
Proof.
  destruct l as [|[]]; simpl; try lia. destruct (Z.even q); lia.
Qed.


(** *** The rounding step shared by the operations

    [binary_round_aux] on a mantissa [m > 0] at exponent [e] that is not
    above the exponent [E] of the format at that magnitude: the result is
    a zero or a positive finite float, and its value is [m1 * 2^E] for one
    of the two integers [m1] around [m / 2^(E - e)]. *)

Lemma bra_enclosure (m e : Z) (l : location) :
  (0 < m)%Z ->
  let E := fexp64 (Zdigits2 m + e) in
  (e <= E)%Z -> (Zdigits2 m + e <= 1023)%Z ->
  exists (v : R) (m1 : Z),
    SFreal (binary_round_aux prec emax false m e l) = Some v
    /\ v = IZR m1 * p2 E
    /\ (m / 2 ^ (E - e) <= m1 <= m / 2 ^ (E - e) + 1)%Z
    /\ valid_binary (binary_round_aux prec emax false m e l) = true.
Proof.
  intros Hm E HeE Hd.
  pose proof (Zdigits2_bounds m Hm) as [Hd1 Hd2].
  pose proof (Zdigits2_pos m Hm) as Hd0.
  assert (HE : E = Z.max (Zdigits2 m + e - 53) (-1074)) by reflexivity.
  assert (Hpow : forall k : Z, (0 <= k -> 0 < 2 ^ k)%Z).
  { intros k Hk. apply Z.pow_pos_nonneg; lia. }
  unfold binary_round_aux.
  pose proof (shr_fexp_m m e l ltac:(lia)) as Hs1. cbv zeta in Hs1.
  destruct Hs1 as [Hm1 He1]. fold E in Hm1, He1.
  destruct (shr_fexp prec emax m e l) as [mrs' e'] eqn:E1. cbn [fst snd] in Hm1, He1.
  set (q1 := (m / 2 ^ (E - e))%Z).
  assert (Hq1 : shr_m mrs' = q1).
  { rewrite Hm1. destruct (0 <? E - e)%Z eqn:C; [reflexivity|].
    apply Z.ltb_ge in C. unfold q1. replace (E - e)%Z with 0%Z by lia.
    rewrite Z.pow_0_r, Z.div_1_r. reflexivity. }
  assert (He' : e' = E).
  { rewrite He1. destruct (0 <? E - e)%Z eqn:C; [lia|]. apply Z.ltb_ge in C. lia. }
  clear Hm1 He1. subst e'.
  assert (Hq1_0 : (0 <= q1)%Z) by (apply Z.div_pos; [lia | apply Hpow; lia]).
  assert (Hq1_53 : (q1 < 2 ^ 53)%Z).
  { apply Z.div_lt_upper_bound; [apply Hpow; lia|].
    rewrite <- Z.pow_add_r by lia.
    assert (2 ^ Zdigits2 m <= 2 ^ (E - e + 53))%Z by (apply Z.pow_le_mono_r; lia).
    lia. }
  set (m1 := round_nearest_even (shr_m mrs') (loc_of_shr_record mrs')).
  pose proof (round_nearest_even_bounds (shr_m mrs') (loc_of_shr_record mrs')) as Hm1.
  fold m1 in Hm1. rewrite Hq1 in Hm1.
  pose proof (shr_fexp_m m1 E loc_Exact ltac:(lia)) as Hs2. cbv zeta in Hs2.
  destruct Hs2 as [Hm2 He2].
  destruct (shr_fexp prec emax m1 E loc_Exact) as [mrs'' e''] eqn:E2.
  cbn [fst snd] in Hm2, He2.
  destruct (Z.eq_dec m1 0%Z) as [Hz | Hnz].
  - (* the mantissa rounds to zero *)
    rewrite Hz in Hm2, He2. simpl Zdigits2 in Hm2, He2.
    replace (0 <? fexp64 (0 + E) - E)%Z with false in Hm2
      by (symmetry; apply Z.ltb_ge; rewrite fexp64_eq; lia).
    rewrite Hm2. exists 0, 0%Z. simpl. split; [reflexivity|].
    split; [lra | split; [lia | reflexivity]].
  - assert (Hm1pos : (0 < m1)%Z) by lia.
    pose proof (Zdigits2_bounds m1 Hm1pos) as [Hb1 Hb2].
    pose proof (Zdigits2_pos m1 Hm1pos) as Hb0.
    destruct (Z.eq_dec m1 (2 ^ 53)%Z) as [Htop | Hlow].
    + (* the mantissa rounds up to the next power of two *)
      rewrite Htop in Hm2, He2.
      replace (Zdigits2 (2 ^ 53)%Z) with 54%Z in Hm2, He2 by reflexivity.
      replace (fexp64 (54 + E) - E)%Z with 1%Z in Hm2, He2 by (rewrite fexp64_eq; lia).
      cbn [Z.ltb Z.compare] in Hm2, He2.
      rewrite Hm2, He2.
      replace (2 ^ 53 / 2 ^ 1)%Z with (Z.pos (2 ^ 52)) by reflexivity.
      cbn iota beta.
      replace (E + 1 <=? emax - prec)%Z with true
        by (symmetry; apply Z.leb_le; change (emax - prec)%Z with 971%Z; lia).
      exists (IZR m1 * p2 E), m1.
      split; [|split; [reflexivity | split; [fold q1; lia|]]].
      * simpl SFreal. f_equal. rewrite Htop, p2_succ.
        change (Z.pos (2 ^ 52)) with (2 ^ 52)%Z.
        replace (IZR (2 ^ 53)) with (2 * IZR (2 ^ 52)) by (rewrite <- mult_IZR; reflexivity).
        lra.
      * unfold SpecFloat.valid_binary, bounded, canonical_mantissa.
        apply andb_true_intro. split; [apply Z.eqb_eq | apply Z.leb_le].
        -- change (Z.pos (digits2_pos (2 ^ 52))) with 53%Z. rewrite fexp64_eq. lia.
        -- change (emax - prec)%Z with 971%Z. lia.
    + assert (Hd53 : (Zdigits2 m1 <= 53)%Z).
      { destruct (Z_le_gt_dec (Zdigits2 m1) 53%Z) as [H | H]; [exact H|].
        assert (2 ^ 53 <= 2 ^ (Zdigits2 m1 - 1))%Z by (apply Z.pow_le_mono_r; lia).
        lia. }
      replace (0 <? fexp64 (Zdigits2 m1 + E) - E)%Z with false in Hm2, He2
        by (symmetry; apply Z.ltb_ge; rewrite fexp64_eq; lia).
      rewrite Hm2, He2.
      destruct m1 as [|p|p]; try lia.
      replace (E <=? emax - prec)%Z with true
        by (symmetry; apply Z.leb_le; change (emax - prec)%Z with 971%Z; lia).
      exists (IZR (Z.pos p) * p2 E), (Z.pos p).
      split; [|split; [reflexivity | split; [fold q1; lia|]]].
      * simpl SFreal. f_equal. lra.
      * unfold SpecFloat.valid_binary, bounded, canonical_mantissa.
        apply andb_true_intro. split; [apply Z.eqb_eq | apply Z.leb_le].
        2:{ change (emax - prec)%Z with 971%Z. lia. }
        change (Z.pos (digits2_pos p)) with (Zdigits2 (Z.pos p)).
        rewrite fexp64_eq.
        destruct (Z.eq_dec E (-1074)%Z) as [HEmin | HEmin]; [lia|].
        assert (HEd : E = (Zdigits2 m + e - 53)%Z) by lia.
        assert (Hq52 : (2 ^ 52 <= q1)%Z).
        { unfold q1. apply Z.div_le_lower_bound; [apply Hpow; lia|].
          rewrite <- Z.pow_add_r by lia.
          replace (E - e + 52)%Z with (Zdigits2 m - 1)%Z by lia. exact Hd1. }
        assert (52 < Zdigits2 (Z.pos p))%Z.
        { apply (Z.pow_lt_mono_r_iff 2); lia. }
        lia.
Qed.

(** The two integers around [m / 2^n], against the real quotient. *)
Lemma floor_shift (m n : Z) :
  (0 <= m)%Z -> (0 <= n)%Z ->
  IZR (m / 2 ^ n) * p2 n <= IZR m < (IZR (m / 2 ^ n) + 1) * p2 n.
Proof.
  intros Hm Hn. rewrite p2_IZR by exact Hn.
  assert (H2 : (0 < 2 ^ n)%Z) by (apply Z.pow_pos_nonneg; lia).
  pose proof (Z.mul_div_le m (2 ^ n) H2) as H3.
  pose proof (Z.mul_succ_div_gt m (2 ^ n) H2) as H4.
  rewrite <- (plus_IZR _ 1), <- !mult_IZR.
  split; [apply IZR_le | apply IZR_lt]; lia.
Qed.

(** The enclosure in terms of the exact value [m * 2^e]: the result is
    within one unit in the last place, [2^E]. *)
Lemma bra_error (m e : Z) (l : location) :
  (0 < m)%Z ->
  let E := fexp64 (Zdigits2 m + e) in
  (e <= E)%Z -> (Zdigits2 m + e <= 1023)%Z ->
  exists v : R,
    SFreal (binary_round_aux prec emax false m e l) = Some v
    /\ 0 <= v
    /\ IZR m * p2 e - p2 E < v <= IZR m * p2 e + p2 E.
Proof.
  intros Hm E HeE Hd.
  destruct (bra_enclosure m e l Hm HeE Hd) as (v & m1 & Hv & Ev & Hm1 & _).
  fold E in Ev, Hm1.
  exists v. split; [exact Hv|].
  pose proof (floor_shift m (E - e) ltac:(lia) ltac:(lia)) as [F1 F2].
  pose proof (p2_pos E) as HE. pose proof (p2_pos e) as He.
  assert (HEe : p2 E = p2 (E - e) * p2 e).
  { rewrite <- p2_add. f_equal. lia. }
  assert (H0 : (0 <= m / 2 ^ (E - e))%Z).
  { apply Z.div_pos; [lia | apply Z.pow_pos_nonneg; lia]. }
  assert (Hlo : IZR (m / 2 ^ (E - e)) <= IZR m1) by (apply IZR_le; lia).
  assert (Hhi : IZR m1 <= IZR (m / 2 ^ (E - e)) + 1).
  { rewrite <- (plus_IZR _ 1). apply IZR_le. lia. }
  assert (H0' : 0 <= IZR (m / 2 ^ (E - e))) by (apply IZR_le; exact H0).
  pose proof (p2_pos (E - e)) as HEe'.
  subst v. rewrite HEe in *. split; [nra|]. split; nra.
Qed.


(** *** Floats that are not negative *)

Lemma nonneg_inv (f : spec_float) (x : R) :
  nonneg f x ->
  (exists s, f = S754_zero s /\ x = 0)
  \/ (exists m e, f = S754_finite false m e /\ x = IZR (Z.pos m) * p2 e /\ 0 < x
                  /\ fexp64 (Zdigits2 (Z.pos m) + e) = e /\ (e <= 971)%Z).
Proof.
  intros (Hv & Hx & Hval). destruct f as [s | s | | s m e]; simpl in Hv; try discriminate.
  - left. exists s. split; [reflexivity | congruence].
  - right. injection Hv as Hv.
    assert (Hpos : 0 < IZR (Z.pos m) * p2 e).
    { apply Rmult_lt_0_compat; [apply IZR_lt; lia | apply p2_pos]. }
    destruct s.
    + exfalso. subst x. lra.
    + exists m, e. split; [reflexivity|]. split; [subst x; lra|].
      split; [subst x; lra|].
      unfold SpecFloat.valid_binary, bounded, canonical_mantissa in Hval.
      apply andb_prop in Hval. destruct Hval as [H1 H2].
      apply Z.eqb_eq in H1. apply Z.leb_le in H2.
      split; [exact H1 | exact H2].
Qed.

(** A positive value lies between the powers of two its digits give. *)
Lemma value_digits (m e : Z) :
  (0 < m)%Z -> p2 (Zdigits2 m - 1 + e) <= IZR m * p2 e < p2 (Zdigits2 m + e).
Proof.
  intros Hm. pose proof (Zdigits2_bounds m Hm) as [H1 H2].
  pose proof (Zdigits2_pos m Hm) as H0.
  rewrite !p2_add, (p2_IZR (Zdigits2 m - 1)), (p2_IZR (Zdigits2 m)) by lia.
  pose proof (p2_pos e).
  apply IZR_le in H1. apply IZR_lt in H2. split; nra.
Qed.

(** One unit in the last place, against the value. *)
Lemma ulp_bound (m e : Z) :
  (0 < m)%Z -> p2 (fexp64 (Zdigits2 m + e)) <= IZR m * p2 e * eps + eta.
Proof.
  intros Hm. pose proof (value_digits m e Hm) as [H1 _].
  rewrite fexp64_eq. unfold eps, eta.
  pose proof (p2_pos (-1074)). pose proof (p2_pos (-52)).
  assert (0 < IZR m * p2 e).
  { apply Rmult_lt_0_compat; [apply IZR_lt; lia | apply p2_pos]. }
  destruct (Z.max_spec (Zdigits2 m + e - 53) (-1074)) as [[_ ->] | [_ ->]].
  - nra.
  - replace (Zdigits2 m + e - 53)%Z with (Zdigits2 m - 1 + e + -52)%Z by lia.
    rewrite p2_add. nra.
Qed.

Lemma no_overflow_digits (m e : Z) :
  (0 < m)%Z -> IZR m * p2 e < p2 1023 -> (Zdigits2 m + e <= 1023)%Z.
Proof.
  intros Hm H. pose proof (value_digits m e Hm) as [H1 _].
  destruct (Z_le_gt_dec (Zdigits2 m + e) 1023) as [Hle | Hgt]; [exact Hle|].
  assert (p2 1023 <= p2 (Zdigits2 m - 1 + e)) by (apply p2_le; lia). lra.
Qed.

(** The rounding step, on the value: the result is not negative and within
    a relative [eps] and an absolute [eta] of [m * 2^e]. *)
Lemma bra_nonneg (m e : Z) (l : location) :
  (0 < m)%Z -> (e <= fexp64 (Zdigits2 m + e))%Z ->
  IZR m * p2 e < p2 1023 ->
  exists v : R,
    nonneg (binary_round_aux prec emax false m e l) v
    /\ IZR m * p2 e * (1 - eps) - eta <= v <= IZR m * p2 e * (1 + eps) + eta.
Proof.
  intros Hm He Hov.
  pose proof (no_overflow_digits m e Hm Hov) as Hd.
  destruct (bra_error m e l Hm He Hd) as (v & Hv & H0 & Hlo & Hhi).
  destruct (bra_enclosure m e l Hm He Hd) as (_ & _ & _ & _ & _ & Hval).
  pose proof (ulp_bound m e Hm) as Hu.
  exists v. split; [split; [exact Hv | split; [exact H0 | exact Hval]]|].
  split; lra.
Qed.

(** When nothing has to be shifted out, the rounding step is exact. *)
Lemma bra_exact (m : positive) (e : Z) :
  fexp64 (Zdigits2 (Z.pos m) + e) = e -> (e <= 971)%Z ->
  binary_round_aux prec emax false (Z.pos m) e loc_Exact = S754_finite false m e.
Proof.
  intros Hc He. unfold binary_round_aux, shr_fexp.
  rewrite Hc, Z.sub_diag. cbn [shr shr_record_of_loc shr_m loc_of_shr_record round_nearest_even].
  rewrite Hc, Z.sub_diag. cbn [shr shr_record_of_loc shr_m].
  replace (e <=? emax - prec)%Z with true; [reflexivity|].
  symmetry. apply Z.leb_le. change (emax - prec)%Z with 971%Z. exact He.
Qed.

(** *** Alignment and [binary_round] *)

Lemma iter_xO (d m : positive) : Z.pos (Pos.iter xO m d) = (Z.pos m * 2 ^ Z.pos d)%Z.
Proof.
  induction d as [|d IH] using Pos.peano_ind.
  - simpl. lia.
  - rewrite Pos.iter_succ, Pos2Z.inj_xO, IH, Pos2Z.inj_succ, Z.pow_succ_r by lia. lia.
Qed.

(** [shl_align] to an exponent [e'] keeps the value; the exponent it
    returns is the smaller of the two. *)
Lemma shl_align_value (m : positive) (e e' : Z) :
  let r := shl_align m e e' in
  IZR (Z.pos (fst r)) * p2 (snd r) = IZR (Z.pos m) * p2 e
  /\ snd r = Z.min e e'
  /\ Z.pos (fst r) = (Z.pos m * 2 ^ (e - Z.min e e'))%Z.
Proof.
  unfold shl_align. destruct (e' - e)%Z as [|d|d] eqn:E; cbn [fst snd].
  - split; [reflexivity|]. split; [lia|].
    replace (e - Z.min e e')%Z with 0%Z by lia. lia.
  - split; [reflexivity|]. split; [lia|].
    replace (e - Z.min e e')%Z with 0%Z by lia. lia.
  - assert (He : e = (e' + Z.pos d)%Z) by lia.
    rewrite iter_xO. split; [|split; [lia|]].
    + rewrite mult_IZR, <- p2_IZR by lia. rewrite He, p2_add. lra.
    + f_equal. f_equal. lia.
Qed.

Lemma Zdigits2_shift (m k : Z) :
  (0 < m)%Z -> (0 <= k)%Z -> Zdigits2 (m * 2 ^ k) = (Zdigits2 m + k)%Z.
Proof.
  intros Hm Hk. pose proof (Zdigits2_bounds m Hm) as [H1 H2].
  pose proof (Zdigits2_pos m Hm) as H0.
  assert (Hp : (0 < 2 ^ k)%Z) by (apply Z.pow_pos_nonneg; lia).
  apply Zdigits2_unique; [nia | | lia].
  replace (Zdigits2 m + k - 1)%Z with (Zdigits2 m - 1 + k)%Z by lia.
  rewrite !Z.pow_add_r by lia. split; nia.
Qed.

(** [binary_round] on a positive mantissa: a float that is not negative,
    within a relative [eps] and an absolute [eta] of the value. *)
Lemma binary_round_nonneg (m : positive) (e : Z) :
  IZR (Z.pos m) * p2 e < p2 1023 ->
  exists v : R,
    nonneg (binary_round prec emax false m e) v
    /\ IZR (Z.pos m) * p2 e * (1 - eps) - eta <= v <= IZR (Z.pos m) * p2 e * (1 + eps) + eta.
Proof.
  intros Hov. unfold binary_round.
  pose proof (shl_align_value m e (fexp64 (Z.pos (digits2_pos m) + e))) as Hs.
  cbv zeta in Hs.
  destruct (shl_align m e (fexp64 (Z.pos (digits2_pos m) + e))) as [mz ez].
  cbn [fst snd] in Hs. destruct Hs as (Hval & Hez & Hmz).
  rewrite <- Hval in *.
  apply bra_nonneg; [lia | | exact Hov].
  rewrite Hmz, Zdigits2_shift by lia.
  change (Zdigits2 (Z.pos m)) with (Z.pos (digits2_pos m)).
  replace (Z.pos (digits2_pos m) + (e - Z.min e (fexp64 (Z.pos (digits2_pos m) + e))) + ez)%Z
    with (Z.pos (digits2_pos m) + e)%Z by lia.
  lia.
Qed.

(** [binary_round] is exact on a value that fits the format. *)
Lemma binary_round_exact (m : positive) (e : Z) :
  (fexp64 (Zdigits2 (Z.pos m) + e) <= e)%Z -> (Zdigits2 (Z.pos m) + e <= 1024)%Z ->
  exists v : R,
    nonneg (binary_round prec emax false m e) v /\ v = IZR (Z.pos m) * p2 e.
Proof.
  intros Hc Hd. unfold binary_round.
  pose proof (shl_align_value m e (fexp64 (Z.pos (digits2_pos m) + e))) as Hs.
  cbv zeta in Hs.
  destruct (shl_align m e (fexp64 (Z.pos (digits2_pos m) + e))) as [mz ez].
  cbn [fst snd] in Hs. destruct Hs as (Hval & Hez & Hmz).
  change (Zdigits2 (Z.pos m)) with (Z.pos (digits2_pos m)) in *.
  set (E := fexp64 (Z.pos (digits2_pos m) + e)) in *.
  assert (HezE : ez = E) by lia.
  assert (Hcan : fexp64 (Zdigits2 (Z.pos mz) + ez) = ez).
  { rewrite Hmz, Zdigits2_shift by lia.
    change (Zdigits2 (Z.pos m)) with (Z.pos (digits2_pos m)).
    replace (Z.pos (digits2_pos m) + (e - Z.min e E) + ez)%Z
      with (Z.pos (digits2_pos m) + e)%Z by lia.
    fold E. lia. }
  assert (Hez971 : (ez <= 971)%Z).
  { rewrite HezE. unfold E. rewrite fexp64_eq. lia. }
  rewrite (bra_exact mz ez Hcan Hez971).
  exists (1 * IZR (Z.pos mz) * p2 ez). split; [|rewrite <- Hval; lra].
  split; [reflexivity|]. split.
  - rewrite Rmult_1_l. apply Rmult_le_pos; [apply IZR_le; lia | left; apply p2_pos].
  - unfold SpecFloat.valid_binary, bounded, canonical_mantissa.
    apply andb_true_intro. split; [apply Z.eqb_eq; exact Hcan | apply Z.leb_le].
    change (emax - prec)%Z with 971%Z. exact Hez971.
Qed.


(** *** Multiplication, addition and subtraction *)

Lemma Zdigits2_mul_ge (a b : Z) :
  (0 < a)%Z -> (0 < b)%Z -> (Zdigits2 a + Zdigits2 b - 1 <= Zdigits2 (a * b))%Z.
Proof.
  intros Ha Hb.
  pose proof (Zdigits2_bounds a Ha) as [A1 _]. pose proof (Zdigits2_pos a Ha) as A0.
  pose proof (Zdigits2_bounds b Hb) as [B1 _]. pose proof (Zdigits2_pos b Hb) as B0.
  pose proof (Zdigits2_bounds (a * b) ltac:(nia)) as [_ C2].
  destruct (Z_le_gt_dec (Zdigits2 a + Zdigits2 b - 1) (Zdigits2 (a * b))) as [H | H];
    [exact H|].
  assert (2 ^ Zdigits2 (a * b) <= 2 ^ (Zdigits2 a - 1 + (Zdigits2 b - 1)))%Z
    by (apply Z.pow_le_mono_r; lia).
  rewrite Z.pow_add_r in H0 by lia.
  assert (0 < 2 ^ (Zdigits2 a - 1))%Z by (apply Z.pow_pos_nonneg; lia).
  assert (0 < 2 ^ (Zdigits2 b - 1))%Z by (apply Z.pow_pos_nonneg; lia).
  nia.
Qed.

Lemma nonneg_zero (s : bool) : nonneg (S754_zero s) 0.
Proof. split; [reflexivity|]. split; [lra | reflexivity]. Qed.

Lemma eps_eta_pos : 0 < eps /\ eps < 1 /\ 0 < eta.
Proof.
  unfold eps, eta. split; [apply p2_pos|]. split; [|apply p2_pos].
  rewrite <- p2_0. apply p2_lt. lia.
Qed.

(** The product of two floats that are not negative. *)
Lemma SFmul_nonneg (a b : spec_float) (x y : R) :
  nonneg a x -> nonneg b y -> x * y < p2 1023 ->
  exists z : R,
    nonneg (SFmul prec emax a b) z
    /\ x * y * (1 - eps) - eta <= z <= x * y * (1 + eps) + eta.
Proof.
  intros Ha Hb Hov. pose proof eps_eta_pos as (He1 & He2 & He3).
  destruct (nonneg_inv a x Ha) as [[sa [-> ->]] | (mx & ex & -> & -> & Hx & Hcx & Hex)];
    destruct (nonneg_inv b y Hb) as [[sb [-> ->]] | (my & ey & -> & -> & Hy & Hcy & Hey)];
    try (exists 0; split; [apply nonneg_zero | split; lra]).
  cbn [SFmul xorb].
  assert (Hval : IZR (Z.pos (mx * my)) * p2 (ex + ey)
                 = IZR (Z.pos mx) * p2 ex * (IZR (Z.pos my) * p2 ey)).
  { rewrite Pos2Z.inj_mul, mult_IZR, p2_add. lra. }
  rewrite <- Hval in *.
  apply bra_nonneg; [lia | | exact Hov].
  pose proof (Zdigits2_mul_ge (Z.pos mx) (Z.pos my) ltac:(lia) ltac:(lia)) as Hd.
  pose proof (Zdigits2_pos (Z.pos mx) ltac:(lia)).
  pose proof (Zdigits2_pos (Z.pos my) ltac:(lia)).
  rewrite Pos2Z.inj_mul. rewrite fexp64_eq in *. lia.
Qed.

(** The sum of two floats that are not negative. *)
Lemma SFadd_nonneg (a b : spec_float) (x y : R) :
  nonneg a x -> nonneg b y -> x + y < p2 1023 ->
  exists z : R,
    nonneg (SFadd prec emax a b) z
    /\ (x + y) * (1 - eps) - eta <= z <= (x + y) * (1 + eps) + eta.
Proof.
  intros Ha Hb Hov. pose proof eps_eta_pos as (He1 & He2 & He3).
  destruct (nonneg_inv a x Ha) as [[sa [-> ->]] | (mx & ex & -> & -> & Hx & Hcx & Hex)];
    destruct (nonneg_inv b y Hb) as [[sb [-> ->]] | (my & ey & -> & -> & Hy & Hcy & Hey)].
  - exists 0. split; [|split; lra].
    destruct sa, sb; apply nonneg_zero.
  - exists (IZR (Z.pos my) * p2 ey). split; [exact Hb | split; nra].
  - exists (IZR (Z.pos mx) * p2 ex). split; [exact Ha | split; nra].
  - cbn [SFadd cond_Zopp].
    pose proof (shl_align_value mx ex (Z.min ex ey)) as Sx.
    pose proof (shl_align_value my ey (Z.min ex ey)) as Sy.
    cbv zeta in Sx, Sy.
    destruct (shl_align mx ex (Z.min ex ey)) as [mx' ex'].
    destruct (shl_align my ey (Z.min ex ey)) as [my' ey'].
    cbn [fst snd] in *. destruct Sx as (Vx & Ex & _). destruct Sy as (Vy & Ey & _).
    replace (Z.min ex (Z.min ex ey)) with (Z.min ex ey) in Ex by lia.
    replace (Z.min ey (Z.min ex ey)) with (Z.min ex ey) in Ey by lia.
    subst ex' ey'.
    change (Z.pos mx' + Z.pos my')%Z with (Z.pos (mx' + my')).
    cbn [binary_normalize].
    assert (Hval : IZR (Z.pos (mx' + my')) * p2 (Z.min ex ey)
                   = IZR (Z.pos mx) * p2 ex + IZR (Z.pos my) * p2 ey).
    { rewrite Pos2Z.inj_add, plus_IZR. lra. }
    rewrite <- Hval in *.
    apply binary_round_nonneg. exact Hov.
Qed.

(** The difference of two floats that are not negative, the larger
    first. *)
Lemma SFsub_nonneg (a b : spec_float) (x y : R) :
  nonneg a x -> nonneg b y -> y <= x -> x < p2 1023 ->
  exists z : R,
    nonneg (SFsub prec emax a b) z
    /\ (x - y) * (1 - eps) - eta <= z <= (x - y) * (1 + eps) + eta.
Proof.
  intros Ha Hb Hle Hov. pose proof eps_eta_pos as (He1 & He2 & He3).
  destruct (nonneg_inv a x Ha) as [[sa [-> ->]] | (mx & ex & -> & -> & Hx & Hcx & Hex)];
    destruct (nonneg_inv b y Hb) as [[sb [-> ->]] | (my & ey & -> & -> & Hy & Hcy & Hey)].
  - exists 0. split; [|split; lra].
    destruct sa, sb; apply nonneg_zero.
  - lra.
  - exists (IZR (Z.pos mx) * p2 ex). split; [exact Ha | split; nra].
  - cbn [SFsub cond_Zopp].
    pose proof (shl_align_value mx ex (Z.min ex ey)) as Sx.
    pose proof (shl_align_value my ey (Z.min ex ey)) as Sy.
    cbv zeta in Sx, Sy.
    destruct (shl_align mx ex (Z.min ex ey)) as [mx' ex'].
    destruct (shl_align my ey (Z.min ex ey)) as [my' ey'].
    cbn [fst snd] in *. destruct Sx as (Vx & Ex & _). destruct Sy as (Vy & Ey & _).
    replace (Z.min ex (Z.min ex ey)) with (Z.min ex ey) in Ex by lia.
    replace (Z.min ey (Z.min ex ey)) with (Z.min ex ey) in Ey by lia.
    subst ex' ey'.
    pose proof (p2_pos (Z.min ex ey)) as Hp.
    assert (Hval : IZR (Z.pos mx' - Z.pos my') * p2 (Z.min ex ey)
                   = IZR (Z.pos mx) * p2 ex - IZR (Z.pos my) * p2 ey).
    { rewrite minus_IZR. lra. }
    destruct (Z.pos mx' - Z.pos my')%Z as [|p|p] eqn:E; cbn [binary_normalize].
    + exists 0. split; [apply nonneg_zero|]. rewrite <- Hval. simpl. split; lra.
    + rewrite <- Hval. apply binary_round_nonneg. rewrite Hval. lra.
    + exfalso. assert (IZR (Z.neg p) < 0) by (apply IZR_lt; lia). nra.
Qed.


(** *** Division *)

(** The integer quotient [SFdiv_core_binary] hands to the rounding step,
    for two positive mantissas whose real quotient [Q] is in the normal
    range: it has at least 53 digits and [q * 2^e' <= Q < (q + 1) * 2^e']. *)
Lemma div_core_nonneg (mx my : positive) (ex ey : Z) :
  let x := IZR (Z.pos mx) * p2 ex in
  let y := IZR (Z.pos my) * p2 ey in
  p2 (-1020) <= x / y ->
  exists (q e' : Z) (l : location),
    SFdiv_core_binary prec emax (Z.pos mx) ex (Z.pos my) ey = (q, e', l)
    /\ (2 ^ 52 <= q)%Z
    /\ IZR q * p2 e' <= x / y < (IZR q + 1) * p2 e'.
Proof.
  intros x y Hlo.
  pose proof (value_digits (Z.pos mx) ex ltac:(lia)) as [X1 X2].
  pose proof (value_digits (Z.pos my) ey ltac:(lia)) as [Y1 Y2].
  fold x in X1, X2. fold y in Y1, Y2.
  set (d1 := Zdigits2 (Z.pos mx)) in *. set (d2 := Zdigits2 (Z.pos my)) in *.
  set (D := (d1 + ex - (d2 + ey))%Z).
  assert (Hy : 0 < y) by (pose proof (p2_pos (d2 - 1 + ey)); lra).
  assert (Hx : 0 < x) by (pose proof (p2_pos (d1 - 1 + ex)); lra).
  (* the quotient against powers of two *)
  assert (HQhi : x / y < p2 (D + 1)).
  { apply (Rmult_lt_reg_r y); [exact Hy|].
    unfold Rdiv. rewrite Rmult_assoc, Rinv_l, Rmult_1_r by lra.
    assert (p2 (d1 + ex) = p2 (D + 1) * p2 (d2 - 1 + ey)).
    { rewrite <- p2_add. f_equal. unfold D. lia. }
    pose proof (p2_pos (D + 1)). nra. }
  assert (HQlo : p2 (D - 1) < x / y).
  { apply (Rmult_lt_reg_r y); [exact Hy|].
    unfold Rdiv. rewrite Rmult_assoc, Rinv_l, Rmult_1_r by lra.
    assert (p2 (d1 - 1 + ex) = p2 (D - 1) * p2 (d2 + ey)).
    { rewrite <- p2_add. f_equal. unfold D. lia. }
    pose proof (p2_pos (D - 1)). nra. }
  assert (HD : (-1020 <= D)%Z).
  { destruct (Z_le_gt_dec (-1020) D) as [H | H]; [exact H|].
    assert (p2 (D + 1) <= p2 (-1020)) by (apply p2_le; lia). lra. }
  unfold SFdiv_core_binary. fold d1 d2 D.
  set (e' := Z.min (fexp64 D) (ex - ey)).
  assert (He' : (e' <= D - 53)%Z) by (unfold e'; rewrite fexp64_eq; lia).
  assert (Hs : (0 <= ex - ey - e')%Z) by (unfold e'; lia).
  set (m' := match (ex - ey - e')%Z with
             | Z0 => Z.pos mx
             | Z.pos _ => Z.shiftl (Z.pos mx) (ex - ey - e')
             | Z.neg _ => 0%Z
             end).
  assert (Hm' : m' = (Z.pos mx * 2 ^ (ex - ey - e'))%Z).
  { unfold m'. destruct (ex - ey - e')%Z as [|p|p] eqn:E.
    - rewrite Z.pow_0_r. lia.
    - apply Z.shiftl_mul_pow2. lia.
    - lia. }
  destruct (Z.div_eucl m' (Z.pos my)) as [q r] eqn:Ediv.
  assert (Hq : q = (m' / Z.pos my)%Z) by (unfold Z.div; rewrite Ediv; reflexivity).
  exists q, e', (new_location (Z.pos my) r). split; [reflexivity|].
  (* the real quotient, scaled *)
  assert (HQ : x / y * IZR (Z.pos my) = IZR m' * p2 e').
  { rewrite Hm', mult_IZR, <- p2_IZR by lia.
    assert (p2 ex = p2 (ex - ey - e') * p2 e' * p2 ey).
    { rewrite <- !p2_add. f_equal. lia. }
    unfold x, y. rewrite H. field.
    split; [pose proof (p2_pos ey); lra | apply not_0_IZR; lia]. }
  assert (Hmy : 0 < IZR (Z.pos my)) by (apply IZR_lt; lia).
  pose proof (Z.mul_div_le m' (Z.pos my) ltac:(lia)) as Hq1.
  pose proof (Z.mul_succ_div_gt m' (Z.pos my) ltac:(lia)) as Hq2.
  rewrite <- Hq in Hq1, Hq2.
  apply IZR_le in Hq1. apply IZR_lt in Hq2.
  rewrite mult_IZR in Hq1, Hq2. rewrite succ_IZR in Hq2.
  pose proof (p2_pos e') as Hpe'.
  assert (Hencl : IZR q * p2 e' <= x / y < (IZR q + 1) * p2 e').
  { split.
    - apply (Rmult_le_reg_r (IZR (Z.pos my))); [exact Hmy|]. rewrite HQ. nra.
    - apply (Rmult_lt_reg_r (IZR (Z.pos my))); [exact Hmy|]. rewrite HQ. nra. }
  split; [|exact Hencl].
  (* q has 53 digits at least *)
  assert (H52 : p2 52 * p2 e' <= p2 (D - 1)).
  { rewrite <- p2_add. apply p2_le. lia. }
  assert (Hq52 : IZR (2 ^ 52) < IZR q + 1).
  { rewrite <- p2_IZR by lia. destruct Hencl as [_ Hu]. nra. }
  rewrite <- (plus_IZR q 1) in Hq52. apply lt_IZR in Hq52. lia.
Qed.

(** The quotient of two positive floats, in the normal range. *)
Lemma SFdiv_nonneg (a b : spec_float) (x y : R) :
  nonneg a x -> nonneg b y -> 0 < x -> 0 < y ->
  p2 (-1020) <= x / y -> x / y < p2 1022 ->
  exists z : R,
    nonneg (SFdiv prec emax a b) z
    /\ x / y * (1 - 3 * eps) <= z <= x / y * (1 + 2 * eps).
Proof.
  intros Ha Hb Hx Hy Hlo Hhi. pose proof eps_eta_pos as (He1 & He2 & He3).
  destruct (nonneg_inv a x Ha) as [[sa [-> ->]] | (mx & ex & -> & -> & _ & Hcx & Hex)];
    [lra|].
  destruct (nonneg_inv b y Hb) as [[sb [-> ->]] | (my & ey & -> & -> & _ & Hcy & Hey)];
    [lra|].
  cbn [SFdiv xorb].
  destruct (div_core_nonneg mx my ex ey Hlo) as (q & e' & l & -> & Hq & Hq1 & Hq2).
  set (Q := IZR (Z.pos mx) * p2 ex / (IZR (Z.pos my) * p2 ey)) in *.
  assert (Hqpos : (0 < q)%Z) by lia.
  pose proof (Zdigits2_bounds q Hqpos) as [_ Hdq].
  assert (Hdq53 : (53 <= Zdigits2 q)%Z).
  { destruct (Z_le_gt_dec 53 (Zdigits2 q)) as [H | H]; [exact H|].
    assert (2 ^ Zdigits2 q <= 2 ^ 52)%Z by (apply Z.pow_le_mono_r; lia). lia. }
  pose proof (p2_pos e') as Hpe'.
  assert (Hq0 : 0 < IZR q) by (apply IZR_lt; exact Hqpos).
  assert (HX : IZR q * p2 e' < p2 1023).
  { assert (p2 1022 < p2 1023) by (apply p2_lt; lia). lra. }
  destruct (bra_nonneg q e' l Hqpos ltac:(rewrite fexp64_eq; lia) HX)
    as (v & Hv & Hv1 & Hv2).
  exists v. split; [exact Hv|].
  (* X = q * 2^e' against Q *)
  assert (Hulp : p2 e' <= IZR q * p2 e' * eps).
  { assert (IZR (2 ^ 52) <= IZR q) by (apply IZR_le; exact Hq).
    rewrite <- p2_IZR in H by lia.
    assert (p2 52 * eps = 1) by (unfold eps; rewrite <- p2_add; reflexivity).
    assert (1 <= IZR q * eps) by nra.
    replace (IZR q * p2 e' * eps) with (p2 e' * (IZR q * eps)) by ring.
    nra. }
  assert (Heta : eta <= Q * (eps / 4)).
  { assert (eta = p2 (-1020) * (eps / 4)).
    { unfold eta, eps. replace (p2 (-52) / 4) with (p2 (-52) * p2 (-2)).
      - rewrite <- !p2_add. reflexivity.
      - unfold p2 at 2. simpl. lra. }
    rewrite H. apply Rmult_le_compat_r; lra. }
  assert (HQpos : 0 < Q) by (pose proof (p2_pos (-1020)); lra).
  split; nra.
Qed.

(** A zero divided by a positive float is a zero. *)
Lemma SFdiv_zero (a b : spec_float) (y : R) :
  nonneg a 0 -> nonneg b y -> 0 < y -> nonneg (SFdiv prec emax a b) 0.
Proof.
  intros Ha Hb Hy.
  destruct (nonneg_inv a 0 Ha) as [[sa [-> _]] | (mx & ex & _ & _ & H & _)]; [|lra].
  destruct (nonneg_inv b y Hb) as [[sb [-> ->]] | (my & ey & -> & _)]; [lra|].
  apply nonneg_zero.
Qed.


(** *** Exact cases: products with 0 and 1, sums with 0 *)

Lemma shr_1_even (a : Z) :
  (0 <= a)%Z ->
  shr_1 {| shr_m := 2 * a; shr_r := false; shr_s := false |}
  = {| shr_m := a; shr_r := false; shr_s := false |}.
Proof. destruct a as [|p|p]; [reflexivity | reflexivity | lia]. Qed.

Lemma iter_shr_exact (n : positive) :
  forall a : Z,
    (0 <= a)%Z ->
    SpecFloat.iter_pos shr_1 n {| shr_m := a * 2 ^ Z.pos n; shr_r := false; shr_s := false |}
    = {| shr_m := a; shr_r := false; shr_s := false |}.
Proof.
  assert (Hpow : forall k : Z, (0 <= k -> 0 < 2 ^ k)%Z).
  { intros k Hk. apply Z.pow_pos_nonneg; lia. }
  induction n as [n IH | n IH |]; intros a Ha; cbn [SpecFloat.iter_pos].
  - rewrite (Pos2Z.inj_xI n).
    replace (a * 2 ^ (2 * Z.pos n + 1))%Z with (2 * (a * 2 ^ Z.pos n * 2 ^ Z.pos n))%Z.
    + rewrite shr_1_even by (pose proof (Hpow (Z.pos n)); nia).
      rewrite IH by (pose proof (Hpow (Z.pos n)); nia).
      apply IH. exact Ha.
    + replace (2 * Z.pos n + 1)%Z with (1 + Z.pos n + Z.pos n)%Z by lia.
      rewrite !Z.pow_add_r by lia. rewrite Z.pow_1_r. lia.
  - rewrite (Pos2Z.inj_xO n).
    replace (a * 2 ^ (2 * Z.pos n))%Z with (a * 2 ^ Z.pos n * 2 ^ Z.pos n)%Z.
    + rewrite IH by (pose proof (Hpow (Z.pos n)); nia).
      apply IH. exact Ha.
    + replace (2 * Z.pos n)%Z with (Z.pos n + Z.pos n)%Z by lia.
      rewrite Z.pow_add_r by lia. lia.
  - rewrite Z.pow_1_r. replace (a * 2)%Z with (2 * a)%Z by lia.
    apply shr_1_even. exact Ha.
Qed.

(** The rounding step gives back a canonical value that was only shifted
    to the left. *)
Lemma bra_exact_shift (m : positive) (e k : Z) :
  fexp64 (Zdigits2 (Z.pos m) + e) = e -> (e <= 971)%Z -> (0 <= k)%Z ->
  binary_round_aux prec emax false (Z.pos m * 2 ^ k) (e - k) loc_Exact
  = S754_finite false m e.
Proof.
  intros Hc He Hk.
  destruct k as [|p|p]; [| |lia].
  - rewrite Z.pow_0_r, Z.mul_1_r, Z.sub_0_r. apply bra_exact; assumption.
  - pose proof (bra_exact m e Hc He) as Hex.
    unfold binary_round_aux in *. unfold shr_fexp at 1.
    rewrite Zdigits2_shift by lia.
    replace (Zdigits2 (Z.pos m) + Z.pos p + (e - Z.pos p))%Z
      with (Zdigits2 (Z.pos m) + e)%Z by lia.
    rewrite Hc.
    replace (e - (e - Z.pos p))%Z with (Z.pos p) by lia.
    cbn [shr shr_record_of_loc].
    rewrite iter_shr_exact by lia.
    cbn [shr_m loc_of_shr_record round_nearest_even].
    replace (e - Z.pos p + Z.pos p)%Z with e by lia.
    unfold shr_fexp at 1 in Hex. rewrite Hc, Z.sub_diag in Hex.
    cbn [shr shr_record_of_loc shr_m loc_of_shr_record round_nearest_even] in Hex.
    exact Hex.
Qed.

Definition SFone : spec_float := S754_finite false 4503599627370496 (-52).

Lemma SFmul_one_r (a : spec_float) (x : R) :
  nonneg a x -> nonneg (SFmul prec emax a SFone) x.
Proof.
  intros Ha.
  destruct (nonneg_inv a x Ha) as [[sa [-> ->]] | (m & e & -> & -> & Hx & Hc & He)].
  - apply nonneg_zero.
  - cbn [SFmul SFone xorb].
    rewrite Pos2Z.inj_mul. change (Z.pos 4503599627370496) with (2 ^ 52)%Z.
    replace (e + -52)%Z with (e - 52)%Z by lia.
    rewrite bra_exact_shift by (assumption || lia). exact Ha.
Qed.

Lemma SFmul_zero_r (a : spec_float) (x : R) (s : bool) :
  nonneg a x -> nonneg (SFmul prec emax a (S754_zero s)) 0.
Proof.
  intros Ha.
  destruct (nonneg_inv a x Ha) as [[sa [-> ->]] | (m & e & -> & _)];
    apply nonneg_zero.
Qed.

Lemma SFadd_zero_l (a b : spec_float) (y : R) :
  nonneg a 0 -> nonneg b y -> nonneg (SFadd prec emax a b) y.
Proof.
  intros Ha Hb.
  destruct (nonneg_inv a 0 Ha) as [[sa [-> _]] | (m & e & _ & _ & H & _)]; [|lra].
  destruct (nonneg_inv b y Hb) as [[sb [-> ->]] | (my & ey & -> & _)].
  - destruct sa, sb; apply nonneg_zero.
  - exact Hb.
Qed.

(** *** Comparisons *)

Lemma canonical_digits (m : positive) (e : Z) :
  fexp64 (Zdigits2 (Z.pos m) + e) = e ->
  (Zdigits2 (Z.pos m) <= 53)%Z /\ (-1074 <= e)%Z
  /\ (e = (-1074)%Z \/ Zdigits2 (Z.pos m) = 53%Z).
Proof. rewrite fexp64_eq. lia. Qed.

(** Of two canonical positive floats, the one with the smaller exponent is
    the smaller. *)
Lemma canonical_lt (m1 m2 : positive) (e1 e2 : Z) :
  fexp64 (Zdigits2 (Z.pos m1) + e1) = e1 ->
  fexp64 (Zdigits2 (Z.pos m2) + e2) = e2 ->
  (e1 < e2)%Z ->
  IZR (Z.pos m1) * p2 e1 < IZR (Z.pos m2) * p2 e2.
Proof.
  intros H1 H2 He.
  destruct (canonical_digits m1 e1 H1) as (D1 & E1 & _).
  destruct (canonical_digits m2 e2 H2) as (D2 & E2 & [F2 | F2]); [lia|].
  pose proof (value_digits (Z.pos m1) e1 ltac:(lia)) as [_ V1].
  pose proof (value_digits (Z.pos m2) e2 ltac:(lia)) as [V2 _].
  assert (p2 (Zdigits2 (Z.pos m1) + e1) <= p2 (Zdigits2 (Z.pos m2) - 1 + e2))
    by (apply p2_le; lia).
  lra.
Qed.

Lemma SFcompare_nonneg (a b : spec_float) (x y : R) :
  nonneg a x -> nonneg b y ->
  (x < y /\ SFcompare a b = Some Lt)
  \/ (x = y /\ SFcompare a b = Some Eq)
  \/ (y < x /\ SFcompare a b = Some Gt).
Proof.
  intros Ha Hb.
  destruct (nonneg_inv a x Ha) as [[sa [-> ->]] | (mx & ex & -> & -> & Hx & Hcx & Hex)];
    destruct (nonneg_inv b y Hb) as [[sb [-> ->]] | (my & ey & -> & -> & Hy & Hcy & Hey)];
    cbn [SFcompare]; try tauto.
  pose proof (p2_pos ex) as Hpx.
  destruct (Z.compare_spec ex ey) as [E | E | E].
  - subst ey. change (Pos.compare_cont Eq mx my) with (mx ?= my)%positive.
    destruct (Pos.compare_spec mx my) as [F | F | F].
    + subst my. tauto.
    + left. split; [|reflexivity].
      assert (IZR (Z.pos mx) < IZR (Z.pos my)) by (apply IZR_lt; lia). nra.
    + right. right. split; [|reflexivity].
      assert (IZR (Z.pos my) < IZR (Z.pos mx)) by (apply IZR_lt; lia). nra.
  - left. split; [|reflexivity]. apply canonical_lt; assumption.
  - right. right. split; [|reflexivity]. apply canonical_lt; assumption.
Qed.

Lemma SFltb_nonneg (a b : spec_float) (x y : R) :
  nonneg a x -> nonneg b y -> (SFltb a b = true <-> x < y).
Proof.
  intros Ha Hb. unfold SFltb.
  destruct (SFcompare_nonneg a b x y Ha Hb) as [[H ->] | [[H ->] | [H ->]]];
    split; intros; try reflexivity; try discriminate; lra.
Qed.

Lemma SFleb_nonneg (a b : spec_float) (x y : R) :
  nonneg a x -> nonneg b y -> (SFleb a b = true <-> x <= y).
Proof.
  intros Ha Hb. unfold SFleb.
  destruct (SFcompare_nonneg a b x y Ha Hb) as [[H ->] | [[H ->] | [H ->]]];
    split; intros; try reflexivity; try discriminate; lra.
Qed.

(** *** The primitive operations *)

Lemma fnonneg_intro (f : float) (x : R) :
  real f = Some x -> 0 <= x -> fnonneg f x.
Proof.
  intros H Hx. split; [exact H|]. split; [exact Hx | apply Prim2SF_valid].
Qed.

Lemma mul_nonneg (a b : float) (x y : R) :
  fnonneg a x -> fnonneg b y -> x * y < p2 1023 ->
  exists z : R,
    fnonneg (a * b)%float z /\ x * y * (1 - eps) - eta <= z <= x * y * (1 + eps) + eta.
Proof. unfold fnonneg. rewrite mul_spec. apply SFmul_nonneg. Qed.

Lemma add_nonneg (a b : float) (x y : R) :
  fnonneg a x -> fnonneg b y -> x + y < p2 1023 ->
  exists z : R,
    fnonneg (a + b)%float z
    /\ (x + y) * (1 - eps) - eta <= z <= (x + y) * (1 + eps) + eta.
Proof. unfold fnonneg. rewrite add_spec. apply SFadd_nonneg. Qed.

Lemma sub_nonneg (a b : float) (x y : R) :
  fnonneg a x -> fnonneg b y -> y <= x -> x < p2 1023 ->
  exists z : R,
    fnonneg (a - b)%float z
    /\ (x - y) * (1 - eps) - eta <= z <= (x - y) * (1 + eps) + eta.
Proof. unfold fnonneg. rewrite sub_spec. apply SFsub_nonneg. Qed.

Lemma div_nonneg (a b : float) (x y : R) :
  fnonneg a x -> fnonneg b y -> 0 < x -> 0 < y ->
  p2 (-1020) <= x / y -> x / y < p2 1022 ->
  exists z : R,
    fnonneg (a / b)%float z /\ x / y * (1 - 3 * eps) <= z <= x / y * (1 + 2 * eps).
Proof. unfold fnonneg. rewrite div_spec. apply SFdiv_nonneg. Qed.

Lemma div_zero (a b : float) (y : R) :
  fnonneg a 0 -> fnonneg b y -> 0 < y -> fnonneg (a / b)%float 0.
Proof. unfold fnonneg. rewrite div_spec. apply SFdiv_zero. Qed.

Lemma ltb_nonneg (a b : float) (x y : R) :
  fnonneg a x -> fnonneg b y -> ((a <? b)%float = true <-> x < y).
Proof. unfold fnonneg. rewrite ltb_spec. apply SFltb_nonneg. Qed.

Lemma leb_nonneg (a b : float) (x y : R) :
  fnonneg a x -> fnonneg b y -> ((a <=? b)%float = true <-> x <= y).
Proof. unfold fnonneg. rewrite leb_spec. apply SFleb_nonneg. Qed.

Lemma fnonneg_one : fnonneg 1%float 1.
Proof.
  apply fnonneg_intro; [|lra]. unfold real.
  replace (Prim2SF 1%float) with (S754_finite false 4503599627370496 (-52))
    by (vm_compute; reflexivity).
  cbn [SFreal]. f_equal.
  change (Z.pos 4503599627370496) with (2 ^ 52)%Z.
  rewrite <- p2_IZR by lia. rewrite Rmult_1_l, <- p2_add. reflexivity.
Qed.

Lemma fnonneg_zero : fnonneg 0%float 0.
Proof.
  apply fnonneg_intro; [|lra]. unfold real.
  replace (Prim2SF 0%float) with (S754_zero false) by (vm_compute; reflexivity).
  reflexivity.
Qed.

(** A float between [0] and [1], in the order of floats, is a zero or a
    positive finite float of value at most 1. *)
Lemma unit_interval (w : float) :
  (0 <=? w)%float = true -> (w <=? 1)%float = true ->
  exists x : R, fnonneg w x /\ x <= 1.
Proof.
  intros H0 H1. rewrite leb_spec in H0, H1.
  replace (Prim2SF 0%float) with (S754_zero false) in H0 by (vm_compute; reflexivity).
  pose proof (Prim2SF_valid w) as Hval.
  destruct (Prim2SF w) as [s | s | | s m e] eqn:E.
  - exists 0. split; [|lra]. unfold fnonneg. rewrite E. apply nonneg_zero.
  - destruct s; [discriminate H0|].
    replace (Prim2SF 1%float) with (S754_finite false 4503599627370496 (-52)) in H1
      by (vm_compute; reflexivity).
    discriminate H1.
  - discriminate H0.
  - destruct s; [discriminate H0|].
    assert (Hw : fnonneg w (IZR (Z.pos m) * p2 e)).
    { unfold fnonneg. rewrite E. split; [simpl; f_equal; lra|].
      split; [|exact Hval].
      apply Rmult_le_pos; [apply IZR_le; lia | left; apply p2_pos]. }
    exists (IZR (Z.pos m) * p2 e). split; [exact Hw|].
    apply (SFleb_nonneg _ _ _ _ Hw fnonneg_one). rewrite E. exact H1.
Qed.


(** *** Conversions between integers and floats *)

Lemma Prim2SF_of_nonneg (sf : spec_float) (v : R) :
  nonneg sf v -> fnonneg (SF2Prim sf) v.
Proof.
  intros H. unfold fnonneg. rewrite Prim2SF_SF2Prim; [exact H|]. apply H.
Qed.

(** [float64(z)] is exact below [2^53]. *)
Lemma of_Z_exact (z : Z) : (0 <= z < 2 ^ 53)%Z -> fnonneg (of_Z z) (IZR z).
Proof.
  intros [H0 H53]. unfold of_Z. apply Prim2SF_of_nonneg.
  destruct z as [|p|p]; [apply nonneg_zero | | lia].
  cbn [binary_normalize].
  pose proof (Zdigits2_bounds (Z.pos p) ltac:(lia)) as [B1 _].
  pose proof (Zdigits2_pos (Z.pos p) ltac:(lia)) as B0.
  assert (Hd : (Zdigits2 (Z.pos p) <= 53)%Z).
  { destruct (Z_le_gt_dec (Zdigits2 (Z.pos p)) 53%Z) as [H | H]; [exact H|].
    assert (2 ^ 53 <= 2 ^ (Zdigits2 (Z.pos p) - 1))%Z by (apply Z.pow_le_mono_r; lia).
    lia. }
  destruct (binary_round_exact p 0) as (v & Hv & ->).
  - rewrite fexp64_eq. lia.
  - lia.
  - rewrite p2_0, Rmult_1_r in Hv. exact Hv.
Qed.

(** [float64(z)] for a positive integer below [2^1023]. *)
Lemma of_Z_nonneg (z : Z) :
  (0 < z)%Z -> IZR z < p2 1023 ->
  exists v : R,
    fnonneg (of_Z z) v /\ IZR z * (1 - eps) - eta <= v <= IZR z * (1 + eps) + eta.
Proof.
  intros H0 Hov. unfold of_Z.
  destruct z as [|p|p]; try lia. cbn [binary_normalize].
  destruct (binary_round_nonneg p 0) as (v & Hv & Hb).
  - rewrite p2_0, Rmult_1_r. exact Hov.
  - exists v. split; [apply Prim2SF_of_nonneg; exact Hv|].
    rewrite p2_0, Rmult_1_r in Hb. exact Hb.
Qed.

(** The integer part of a float that is not negative. *)
Lemma trunc_nonneg (f : float) (x : R) :
  fnonneg f x ->
  exists t : Z, trunc f = Some t /\ (0 <= t)%Z /\ IZR t <= x < IZR t + 1.
Proof.
  intros H. unfold trunc.
  destruct (nonneg_inv _ _ H) as [[s [-> ->]] | (m & e & -> & -> & Hx & _)].
  - exists 0%Z. split; [reflexivity|]. split; [lia | simpl; lra].
  - destruct e as [|p|p].
    + exists (Z.pos m * 2 ^ 0)%Z. split; [reflexivity|].
      rewrite Z.pow_0_r, Z.mul_1_r, p2_0. split; [lia | lra].
    + exists (Z.pos m * 2 ^ Z.pos p)%Z. split; [reflexivity|].
      assert (0 < 2 ^ Z.pos p)%Z by (apply Z.pow_pos_nonneg; lia).
      split; [nia|]. rewrite mult_IZR, <- p2_IZR by lia. lra.
    + exists (Z.pos m / 2 ^ Z.pos p)%Z. split; [reflexivity|].
      assert (0 < 2 ^ Z.pos p)%Z by (apply Z.pow_pos_nonneg; lia).
      split; [apply Z.div_pos; lia|].
      pose proof (floor_shift (Z.pos m) (Z.pos p) ltac:(lia) ltac:(lia)) as [F1 F2].
      change (Z.neg p) with (- Z.pos p)%Z. rewrite p2_opp.
      pose proof (p2_pos (Z.pos p)) as Hp.
      split.
      * apply (Rmult_le_reg_r (p2 (Z.pos p))); [exact Hp|].
        rewrite Rmult_assoc, Rinv_l, Rmult_1_r by lra. exact F1.
      * apply (Rmult_lt_reg_r (p2 (Z.pos p))); [exact Hp|].
        rewrite Rmult_assoc, Rinv_l, Rmult_1_r by lra. exact F2.
Qed.

(** [uint64(f)] and [int64(f)] of a float that is not negative and fits. *)
Lemma to_u64_nonneg (f : float) (x : R) :
  fnonneg f x -> x < IZR (2 ^ 64) ->
  (0 <= to_u64 f)%Z /\ IZR (to_u64 f) <= x < IZR (to_u64 f) + 1.
Proof.
  intros H Hx. destruct (trunc_nonneg f x H) as (t & Ht & H0 & H1 & H2).
  unfold to_u64. rewrite Ht.
  assert (t < 2 ^ 64)%Z by (apply lt_IZR; lra).
  replace ((0 <=? t)%Z && (t <? 2 ^ 64)%Z) with true; [tauto|].
  symmetry. apply andb_true_intro. split; [apply Z.leb_le | apply Z.ltb_lt]; lia.
Qed.

Lemma to_i64_nonneg (f : float) (x : R) :
  fnonneg f x -> x < IZR (2 ^ 63) ->
  (0 <= to_i64 f)%Z /\ IZR (to_i64 f) <= x < IZR (to_i64 f) + 1.
Proof.
  intros H Hx. destruct (trunc_nonneg f x H) as (t & Ht & H0 & H1 & H2).
  unfold to_i64. rewrite Ht.
  assert (t < 2 ^ 63)%Z by (apply lt_IZR; lra).
  replace ((Int.min_i64 <=? t)%Z && (t <=? Int.max_i64)%Z) with true; [tauto|].
  symmetry. apply andb_true_intro. unfold Int.min_i64, Int.max_i64.
  split; apply Z.leb_le; lia.
Qed.

(** Numbers for the constants. *)
Lemma eps_small : 0 < eps <= / 1000000000000000.
Proof.
  pose proof eps_eta_pos as (H & _). split; [exact H|].
  assert (E : eps * IZR (2 ^ 52) = 1).
  { unfold eps. rewrite <- p2_IZR by lia. rewrite <- p2_add. reflexivity. }
  change (2 ^ 52)%Z with 4503599627370496%Z in E. lra.
Qed.

Lemma eps_val : eps * 4503599627370496 = 1.
Proof.
  change 4503599627370496 with (IZR (2 ^ 52)).
  unfold eps. rewrite <- p2_IZR by lia. rewrite <- p2_add. reflexivity.
Qed.

Lemma eta_small : 0 < eta <= eps.
Proof.
  pose proof eps_eta_pos as (_ & _ & H). split; [exact H|].
  unfold eta, eps. apply p2_le. lia.
Qed.

Lemma p2_1023_large : IZR (2 ^ 64) < p2 1022 /\ p2 1022 < p2 1023.
Proof.
  split; [|apply p2_lt; lia]. rewrite <- p2_IZR by lia. apply p2_lt. lia.
Qed.

Lemma eqb_nonneg (a b : float) (x y : R) :
  fnonneg a x -> fnonneg b y -> ((a =? b)%float = true <-> x = y).
Proof.
  unfold fnonneg. rewrite FloatAxioms.eqb_spec. intros Ha Hb. unfold SFeqb.
  destruct (SFcompare_nonneg _ _ x y Ha Hb) as [[H ->] | [[H ->] | [H ->]]];
    split; intros; try reflexivity; try discriminate; lra.
Qed.

End FloatFacts.

(** ** The EWMA node: in-flight bookkeeping *)

Module InflightFacts.
Import Ewma.

Lemma i64_small (z : Z) : Int.min_i64 <= z <= Int.max_i64 -> Int.i64 z = z.
Proof.
  unfold Int.i64, Int.min_i64, Int.max_i64. intros H.
  rewrite Z.mod_small; lia.
Qed.

Lemma i64_add_l (a b : Z) : Int.i64 (Int.i64 a + b) = Int.i64 (a + b).
Proof.
  unfold Int.i64.
  replace ((a + 2 ^ 63) mod 2 ^ 64 - 2 ^ 63 + b + 2 ^ 63)
    with ((a + 2 ^ 63) mod 2 ^ 64 + b) by lia.
  rewrite Zplus_mod_idemp_l. f_equal. f_equal. lia.
Qed.

(** [i] is not among the closures already invoked. *)
Definition pending (finished : list nat) (i : nat) : bool :=
  negb (existsb (Nat.eqb i) finished).

Lemma filter_ext_eq {A} (f g : A -> bool) (l : list A) :
  (forall x, f x = g x) -> List.filter f l = List.filter g l.
Proof.
  intros H. induction l as [|x l IH]; simpl; [reflexivity|].
  rewrite H, IH. reflexivity.
Qed.

Lemma filter_filter {A} (f g : A -> bool) (l : list A) :
  List.filter f (List.filter g l) = List.filter (fun x => f x && g x) l.
Proof.
  induction l as [|x l IH]; simpl; [reflexivity|].
  destruct (g x); simpl; destruct (f x); simpl; rewrite ?IH; reflexivity.
Qed.

Lemma map_list_Remove (e : Element) (l : list Element) :
  List.map el_id (list_Remove e l)
  = List.filter (fun i => negb (Nat.eqb i (el_id e))) (List.map el_id l).
Proof.
  unfold list_Remove. induction l as [|x l IH]; simpl; [reflexivity|].
  destruct (Nat.eqb (el_id x) (el_id e)); simpl; rewrite IH; reflexivity.
Qed.

Lemma pending_cons (k : nat) (f : list nat) (i : nat) :
  pending (k :: f) i = negb (Nat.eqb i k) && pending f i.
Proof. unfold pending. simpl. rewrite negb_orb. reflexivity. Qed.

Lemma pending_true (f : list nat) (i : nat) :
  pending f i = true <-> ~ In i f.
Proof.
  unfold pending. rewrite negb_true_iff. split.
  - intros H Hin. assert (existsb (Nat.eqb i) f = true); [|congruence].
    apply existsb_exists. exists i. split; [assumption | apply Nat.eqb_refl].
  - intros H. destruct (existsb (Nat.eqb i) f) eqn:E; [|reflexivity].
    apply existsb_exists in E. destruct E as [x [Hx Hix]].
    apply Nat.eqb_eq in Hix. subst x. contradiction.
Qed.

(** Dropping a value that occurs in a duplicate-free list shortens it by one. *)
Lemma length_filter_neq (k : nat) (l : list nat) :
  List.NoDup l -> In k l ->
  S (length (List.filter (fun i => negb (Nat.eqb i k)) l)) = length l.
Proof.
  induction 1 as [|x l Hx Hnd IH]; simpl; [contradiction|].
  intros [-> | Hin].
  - rewrite Nat.eqb_refl. simpl. f_equal.
    assert (E : List.filter (fun i => negb (Nat.eqb i k)) l = l); [|rewrite E; reflexivity].
    clear IH Hnd. induction l as [|y l IH]; simpl; [reflexivity|].
    destruct (Nat.eqb_spec y k) as [->|Hne]; simpl.
    + exfalso. apply Hx. left. reflexivity.
    + f_equal. apply IH. intros H. apply Hx. right. exact H.
  - destruct (Nat.eqb_spec x k) as [->|Hne]; simpl; [contradiction|].
    f_equal. apply IH. exact Hin.
Qed.

Lemma NoDup_filter_bool (f : nat -> bool) (l : list nat) :
  List.NoDup l -> List.NoDup (List.filter f l).
Proof.
  induction 1 as [|x l Hx Hnd IH]; simpl; [constructor|].
  destruct (f x); [|exact IH].
  constructor; [|exact IH].
  intros H. apply List.filter_In in H. tauto.
Qed.

(** The closures not yet invoked, counted. *)
Lemma length_pending (f l : list nat) :
  List.NoDup l -> List.NoDup f -> (forall k, In k f -> In k l) ->
  (length (List.filter (pending f) l) + length f = length l)%nat.
Proof.
  intros Hl. induction f as [|k f IH]; intros Hf Hin.
  - simpl. rewrite Nat.add_0_r. f_equal.
    clear Hl Hin. induction l as [|x l IHl]; simpl; [reflexivity | f_equal; exact IHl].
  - inversion Hf as [|k' f' Hk Hf']; subst.
    rewrite (filter_ext_eq _ _ _ (pending_cons k f)), <- filter_filter.
    assert (Hk' : In k (List.filter (pending f) l)).
    { apply List.filter_In. split; [apply Hin; left; reflexivity|].
      apply pending_true. exact Hk. }
    pose proof (length_filter_neq k _ (NoDup_filter_bool (pending f) l Hl) Hk') as E.
    specialize (IH Hf' (fun j Hj => Hin j (or_intror Hj))).
    simpl. lia.
Qed.

Section Invariant.
Context {RawNode error : Type}.
Variable math_Exp : float -> float.
Variable errs : ErrPredicates error.

Abbreviation client' := (@client RawNode error).

(** What holds of a node after [p] picks of which those of [f] are done. *)
Record inv (c : client') (p : nat) (f : list nat) : Prop := {
  inv_closures : length (closures c) = p;
  inv_ids : forall k e, closures c !! k = Some e -> el_id e = k;
  inv_next : next_elem (node c) = p;
  inv_inflights : List.map el_id (inflights (node c)) = List.filter (pending f) (seq 0 p);
  inv_inflight : inflight (node c) = Int.i64 (1 + Z.of_nat p - Z.of_nat (length f));
  inv_nodup : List.NoDup f;
  inv_bound : forall k, In k f -> (k < p)%nat
}.

Lemma inv_init (h : option (error -> bool)) (r : RawNode) :
  inv {| node := Build h r; closures := [] |} 0 [].
Proof.
  constructor; simpl; try reflexivity; try constructor.
  - intros k e H. rewrite lookup_nil in H. discriminate.
  - intros k [].
Qed.

Lemma refresh_predict_fields (n : @Node RawNode error) (now : Z) :
  let n' := refresh_predict n now in
  inflight n' = inflight n /\ inflights n' = inflights n /\ next_elem n' = next_elem n
  /\ lag n' = lag n /\ success n' = success n.
Proof.
  unfold refresh_predict.
  destruct (Int.i64 (now - predictTs n) >? clamp_interval (lag n)); [|tauto].
  destruct (scan now (lag n) (inflights n) 0 0). simpl. tauto.
Qed.

Lemma load_fields (n : @Node RawNode error) (now : Z) :
  snd (load n now) = refresh_predict n now.
Proof. unfold load. destruct (lag n =? 0); reflexivity. Qed.

Lemma Weight_fields (n : @Node RawNode error) (now : Z) :
  snd (Weight n now) = refresh_predict n now.
Proof.
  unfold Weight. pose proof (load_fields n now) as H.
  destruct (load n now). exact H.
Qed.

Lemma inv_step (c : client') (p : nat) (f : list nat) (o : op) (ops : list op) :
  inv c p f -> paired p f (o :: ops) = true ->
  exists p' f',
    inv (step math_Exp errs c o) p' f' /\ paired p' f' ops = true
    /\ Z.of_nat p' = Z.of_nat p + (if is_pick o then 1 else 0)
    /\ Z.of_nat (length f') = Z.of_nat (length f) + (if is_done o then 1 else 0).
Proof.
  intros [Hc Hi Hn Hl Hf Hnd Hb] Hp. destruct o as [now | k now di | now]; simpl in Hp.
  - exists (S p), f. split; [|split; [exact Hp | simpl; lia]].
    constructor; unfold step, Pick; cbn [node closures inflights inflight next_elem el_id].
    + rewrite length_app. simpl. lia.
    + intros k e H. apply lookup_app_Some in H. destruct H as [H | [Hk H]].
      * eauto.
      * rewrite Hc in *. destruct (k - p)%nat eqn:E; simpl in H; [|rewrite lookup_nil in H; discriminate].
        inversion H; subst e. simpl. lia.
    + congruence.
    + rewrite List.map_app, Hl, List.seq_S, List.filter_app. simpl. rewrite Hn.
      replace (pending f p) with true; [reflexivity|].
      symmetry. apply pending_true. intros H. apply Hb in H. lia.
    + rewrite Hf, i64_add_l. f_equal. lia.
    + exact Hnd.
    + intros k H. apply Hb in H. lia.
  - apply andb_true_iff in Hp. destruct Hp as [Hp Hp3].
    apply andb_true_iff in Hp. destruct Hp as [Hp1 Hp2].
    apply Nat.ltb_lt in Hp1.
    assert (Hk : ~ In k f) by (apply pending_true; exact Hp2).
    destruct (closures c !! k) as [e|] eqn:E.
    2:{ apply lookup_ge_None in E. lia. }
    exists p, (k :: f). split; [|split; [exact Hp3 | simpl length; simpl; lia]].
    simpl. rewrite E. pose proof (Hi k e E) as Hid.
    constructor; simpl; try assumption.
    + rewrite map_list_Remove, Hl, filter_filter, Hid.
      apply filter_ext_eq. intros i. rewrite pending_cons. reflexivity.
    + rewrite Hf. replace (Int.i64 (1 + Z.of_nat p - Z.of_nat (length f)) - 1)
        with (Int.i64 (1 + Z.of_nat p - Z.of_nat (length f)) + (-1)) by lia.
      rewrite i64_add_l. f_equal. lia.
    + constructor; assumption.
    + intros j [<- | H]; [lia | apply Hb; exact H].
  - exists p, f. split; [|split; [exact Hp | simpl; lia]].
    pose proof (refresh_predict_fields (node c) now) as (H1 & H2 & H3 & _).
    constructor; simpl; rewrite ?Weight_fields; try assumption; congruence.
Qed.

Lemma inv_run (ops : list op) :
  forall (c : client') (p : nat) (f : list nat),
    inv c p f -> paired p f ops = true ->
    exists p' f',
      inv (run math_Exp errs c ops) p' f'
      /\ Z.of_nat p' = Z.of_nat p + picks ops
      /\ Z.of_nat (length f') = Z.of_nat (length f) + dones ops.
Proof.
  induction ops as [|o ops IH]; intros c p f Hinv Hp.
  - exists p, f. unfold picks, dones. simpl. split; [exact Hinv | lia].
  - destruct (inv_step c p f o ops Hinv Hp) as (p1 & f1 & Hinv1 & Hp1 & Ep & Ef).
    destruct (IH _ _ _ Hinv1 Hp1) as (p2 & f2 & Hinv2 & Ep2 & Ef2).
    exists p2, f2. split; [exact Hinv2|].
    unfold picks, dones in *. simpl.
    destruct o; simpl in *; lia.
Qed.

Lemma inv_length (c : client') (p : nat) (f : list nat) :
  inv c p f -> (length (inflights (node c)) + length f = p)%nat.
Proof.
  intros [Hc Hi Hn Hl Hf Hnd Hb].
  rewrite <- (List.length_map el_id), Hl.
  transitivity (length (seq 0 p)); [|apply List.length_seq].
  apply length_pending; [apply List.seq_NoDup | exact Hnd |].
  intros k Hk. apply List.in_seq. apply Hb in Hk. lia.
Qed.

Lemma picks_dones_le (ops : list (@op error)) :
  0 <= picks ops /\ 0 <= dones ops /\ picks ops + dones ops <= Z.of_nat (length ops).
Proof.
  unfold picks, dones. induction ops as [|o ops IH]; simpl; [lia|].
  destruct o; simpl; lia.
Qed.

End Invariant.

End InflightFacts.

(** C6. On a node fresh from [Builder.Build], after any sequence of calls
    to [Pick], to the closures they returned (each at most once, and only
    once returned) and to [Weight], the counter [inflight] is
    [1 + (picks - dones)] and the list [inflights] holds [inflight - 1]
    elements.  The sequence is shorter than [2^63 - 1] calls, so that the
    [int64] counter cannot wrap. *)
Theorem C6_inflight_conservation :
  forall (RawNode error : Type) (math_Exp : float -> float)
         (errs : Ewma.ErrPredicates error)
         (ErrHandler : option (error -> bool)) (r : RawNode)
         (ops : list (@Ewma.op error)),
    Ewma.paired 0 [] ops = true ->
    Z.of_nat (length ops) < 2 ^ 63 - 1 ->
    let n := Ewma.node (Ewma.run math_Exp errs
                          {| Ewma.node := Ewma.Build ErrHandler r; Ewma.closures := [] |} ops) in
    Ewma.inflight n = 1 + (Ewma.picks ops - Ewma.dones ops)
    /\ Z.of_nat (length (Ewma.inflights n)) = Ewma.inflight n - 1.
Proof.
  intros RawNode error math_Exp errs h r ops Hp Hlen n.
  destruct (InflightFacts.inv_run math_Exp errs ops _ 0%nat []
              (InflightFacts.inv_init h r) Hp) as (p & f & Hinv & Ep & Ef).
  pose proof (InflightFacts.inv_length _ _ _ Hinv) as Hl.
  pose proof (InflightFacts.inv_inflight _ _ _ Hinv) as Hi.
  pose proof (InflightFacts.picks_dones_le ops) as (H1 & H2 & H3).
  fold n in Hl, Hi. simpl in Ep, Ef.
  rewrite InflightFacts.i64_small in Hi.
  - split; lia.
  - unfold Int.min_i64, Int.max_i64. lia.
Qed.

(** ** The resolver's [update] *)

Module ResolverFacts.
Import Registry Resolver.

Section Facts.
Context {Node error : Type}.
Variable Scheme : string -> bool -> string.
Variable ParseEndpoint : list string -> string -> string * option error.
Variable Subset : string -> list ServiceInstance -> Z -> list ServiceInstance.
Variable NewNode : string -> string -> ServiceInstance -> Node.

Abbreviation update' := (update Scheme ParseEndpoint Subset NewNode).
Abbreviation reduced' := (reduced Scheme ParseEndpoint Subset).
Abbreviation effective' := (effective_nodes Scheme ParseEndpoint Subset NewNode).

Lemma reduced_calls (r : resolver) (services : list ServiceInstance) :
  List.filter (@is_Apply Node) (snd (reduced' r services)) = [].
Proof.
  unfold reduced. destruct (negb (subsetSize r =? 0)); reflexivity.
Qed.

Lemma update_unfold (r : resolver) (services : list ServiceInstance) :
  update' r services =
    match effective' r services with
    | [] => (false, snd (reduced' r services))
    | nodes => (true, snd (reduced' r services) ++ [Call_Apply nodes])
    end.
Proof.
  unfold update, effective_nodes.
  destruct (reduced' r services) as [f calls]. cbn [fst snd].
  destruct (List.map _ f); reflexivity.
Qed.

Lemma replay_no_Apply {R : Type} (Apply : R -> list Node -> R) (calls : list call) (s : R) :
  List.filter (@is_Apply Node) calls = [] -> replay Apply calls s = s.
Proof.
  unfold replay. revert s. induction calls as [|c calls IH]; intros s H; [reflexivity|].
  destruct c; simpl in *; [apply IH; exact H | discriminate].
Qed.

Lemma replay_app {R : Type} (Apply : R -> list Node -> R) (c1 c2 : list call) (s : R) :
  replay Apply (c1 ++ c2) s = replay Apply c2 (replay Apply c1 s).
Proof. unfold replay. apply fold_left_app. Qed.

Lemma filtered_all_discarded (r : resolver) (services : list ServiceInstance) :
  Forall (fun ins => keep Scheme ParseEndpoint r ins = false) services ->
  filtered Scheme ParseEndpoint r services = [].
Proof.
  unfold filtered. induction 1 as [|ins l H _ IH]; simpl; [reflexivity|].
  rewrite H. exact IH.
Qed.

End Facts.

End ResolverFacts.

(** C8. Take the instances of the snapshot whose endpoints parse, for the
    resolver's scheme, without error to a non-empty address; take what
    [Subset] returns on them when [subsetSize] is not zero; and make a node
    of each with [NewNode], scheme [http] and that address.  When this
    node set is empty [resolver.update] makes no call to
    [Rebalancer.Apply] (whatever the rebalancer's state was, it still is)
    and returns [false]; otherwise it calls [Apply] exactly once, with
    that node set, and returns [true].  The node set is empty exactly
    when no instance is left to make nodes of: without subsetting, exactly
    when every instance of the snapshot is discarded for lack of a matching
    endpoint, the empty snapshot included; with subsetting also then, as
    [Subset] returns no instance when it is given none. *)
Theorem C8_update_empty_apply_rejection :
  forall (Node error : Type)
         (Scheme : string -> bool -> string)
         (ParseEndpoint : list string -> string -> string * option error)
         (Subset : string -> list Registry.ServiceInstance -> Z -> list Registry.ServiceInstance)
         (NewNode : string -> string -> Registry.ServiceInstance -> Node)
         (r : Resolver.resolver) (services : list Registry.ServiceInstance),
    let scheme := Scheme "http"%string (negb (Resolver.insecure r)) in
    let usable := fun ins : Registry.ServiceInstance =>
      match ParseEndpoint (Registry.Endpoints ins) scheme with
      | (ept, None) => negb (String.eqb ept EmptyString)
      | (_, Some _) => false
      end in
    let discarded := fun ins : Registry.ServiceInstance =>
      forall ept, ParseEndpoint (Registry.Endpoints ins) scheme = (ept, None) ->
                  ept = EmptyString in
    let kept := List.filter usable services in
    let chosen :=
      if Resolver.subsetSize r =? 0 then kept
      else Subset (Resolver.selecterKey r) kept (Resolver.subsetSize r) in
    let nodes :=
      List.map (fun ins => NewNode "http"%string
                             (fst (ParseEndpoint (Registry.Endpoints ins) scheme)) ins)
               chosen in
    let result := Resolver.update Scheme ParseEndpoint Subset NewNode r services in
    (nodes = [] ->
       fst result = false
       /\ List.filter Resolver.is_Apply (snd result) = []
       /\ forall (R : Type) (Apply : R -> list Node -> R) (s : R),
            Resolver.replay Apply (snd result) s = s)
    /\ (nodes <> [] ->
       fst result = true
       /\ List.filter Resolver.is_Apply (snd result) = [Resolver.Call_Apply nodes]
       /\ forall (R : Type) (Apply : R -> list Node -> R) (s : R),
            Resolver.replay Apply (snd result) s = Apply s nodes)
    /\ (nodes = [] <-> chosen = [])
    /\ (kept = [] <-> Forall discarded services)
    /\ (Resolver.subsetSize r = 0 -> (nodes = [] <-> Forall discarded services))
    /\ ((forall key num, Subset key [] num = []) ->
        Forall discarded services -> nodes = []).
Proof.
  intros Node error Scheme ParseEndpoint Subset NewNode r services scheme usable discarded
         kept chosen nodes result.
  assert (Hkept : kept = Resolver.filtered Scheme ParseEndpoint r services) by reflexivity.
  assert (Hnodes : nodes = Resolver.effective_nodes Scheme ParseEndpoint Subset NewNode
                             r services).
  { subst nodes chosen. unfold Resolver.effective_nodes, Resolver.reduced.
    rewrite <- Hkept. destruct (Resolver.subsetSize r =? 0); reflexivity. }
  assert (Hdisc : forall ins, usable ins = false <-> discarded ins).
  { intros ins. subst usable discarded. cbv beta.
    destruct (ParseEndpoint (Registry.Endpoints ins) scheme) as [ept [e|]].
    - split; [intros _ ept' H; discriminate | reflexivity].
    - destruct (String.eqb_spec ept EmptyString) as [-> | Hne]; cbn [negb].
      + split; [intros _ ept' H; injection H as <-; reflexivity | reflexivity].
      + split; [discriminate | intros H; exfalso; apply Hne, H; reflexivity]. }
  assert (Hk : kept = [] <-> Forall discarded services).
  { subst kept. clear - Hdisc. induction services as [|ins l IH]; cbn [List.filter].
    - split; [constructor | reflexivity].
    - destruct (usable ins) eqn:E.
      + split; [discriminate|]. intros H. inversion H as [|? ? Hd _]; subst.
        apply Hdisc in Hd. congruence.
      + rewrite IH. split.
        * intros H. constructor; [apply Hdisc; exact E | exact H].
        * intros H. inversion H; assumption. }
  assert (Hmap : nodes = [] <-> chosen = []).
  { subst nodes. destruct chosen; cbn; split; congruence. }
  subst result. rewrite ResolverFacts.update_unfold. rewrite <- Hnodes.
  pose proof (ResolverFacts.reduced_calls (Node := Node) Scheme ParseEndpoint Subset r services) as Hc.
  split; [|split; [|split; [exact Hmap | split; [exact Hk | split]]]].
  - intros H. rewrite H. cbn [fst snd]. split; [reflexivity|]. split; [exact Hc|].
    intros R Apply s. apply ResolverFacts.replay_no_Apply. exact Hc.
  - intros H. destruct nodes as [|n ns] eqn:E; [congruence|]. cbn [fst snd].
    split; [reflexivity|]. split.
    + rewrite List.filter_app, Hc. reflexivity.
    + intros R Apply s. rewrite ResolverFacts.replay_app.
      rewrite (ResolverFacts.replay_no_Apply Apply _ s Hc). reflexivity.
  - intros H0. rewrite Hmap, <- Hk. subst chosen. rewrite H0. reflexivity.
  - intros HS Hall. apply Hmap. subst chosen. apply Hk in Hall. rewrite Hall.
    destruct (Resolver.subsetSize r =? 0); [reflexivity | apply HS].
Qed.

(** Witness of C8: a snapshot of two instances without an http endpoint,
    which is refused, and one with an instance that has an http endpoint,
    whose node is applied. *)
Lemma C8_witness :
  let r := {| Resolver.selecterKey := "k"; Resolver.subsetSize := 0; Resolver.insecure := true |} in
  let refused := [Resolver.sample_instance "a" ["grpc://h1:9000"];
                  Resolver.sample_instance "b" []] in
  let accepted := [Resolver.sample_instance "a" ["grpc://h1:9000"];
                   Resolver.sample_instance "b" ["grpc://h2:9000"; "http://h2:80"]] in
  (fst (Resolver.sample_update r refused) = false
   /\ List.filter Resolver.is_Apply (snd (Resolver.sample_update r refused)) = [])
  /\ (fst (Resolver.sample_update r accepted) = true
      /\ List.filter Resolver.is_Apply (snd (Resolver.sample_update r accepted))
         = [Resolver.Call_Apply [("http"%string, "h2:80"%string, "b"%string)]]).
Proof.
  intros r refused accepted. split.
  - destruct (C8_update_empty_apply_rejection _ _ Resolver.sample_Scheme
                Resolver.sample_ParseEndpoint Resolver.sample_Subset Resolver.sample_NewNode
                r refused) as [H _].
    destruct (H ltac:(vm_compute; reflexivity)) as (H1 & H2 & _).
    split; [exact H1 | exact H2].
  - destruct (C8_update_empty_apply_rejection _ _ Resolver.sample_Scheme
                Resolver.sample_ParseEndpoint Resolver.sample_Subset Resolver.sample_NewNode
                r accepted) as (_ & H & _).
    destruct (H ltac:(vm_compute; discriminate)) as (H1 & H2 & _).
    split; [exact H1 | exact H2].
Defined.




(** ** [ServiceInstance.Equal] *)

Module RegistryFacts.
Import Registry.

Lemma sort_Strings_Sorted (l : list string) : Sorted String.le (sort_Strings l).
Proof. apply Sorted_merge_sort. apply _. Qed.

Lemma sort_Strings_Permutation (l : list string) : sort_Strings l ≡ₚ l.
Proof. apply merge_sort_Permutation. Qed.

(** A slice that is in order already is left as it is. *)
Lemma sort_Strings_sorted_id (l : list string) :
  Sorted String.le l -> sort_Strings l = l.
Proof.
  intros H. apply (Sorted_unique String.le); [apply sort_Strings_Sorted | exact H |].
  apply sort_Strings_Permutation.
Qed.

Lemma sort_Strings_idem (l : list string) :
  sort_Strings (sort_Strings l) = sort_Strings l.
Proof. apply sort_Strings_sorted_id, sort_Strings_Sorted. Qed.

(** The instance [s] with its endpoints sorted. *)
Definition sorted_instance (s : ServiceInstance) : ServiceInstance :=
  set_Endpoints s (sort_Strings (Endpoints s)).

Lemma sorted_instance_idem (s : ServiceInstance) :
  sorted_instance (sorted_instance s) = sorted_instance s.
Proof.
  unfold sorted_instance, set_Endpoints. simpl. rewrite sort_Strings_idem. reflexivity.
Qed.

Lemma sort_in_place_lookup (h : heap) (p : nat) (s : ServiceInstance) :
  h !! p = Some s ->
  sort_in_place h p !! p = Some (sorted_instance s)
  /\ forall q, q <> p -> sort_in_place h p !! q = h !! q.
Proof.
  intros H. unfold sort_in_place. rewrite H. split.
  - apply list_lookup_insert_eq. apply lookup_lt_is_Some. eauto.
  - intros q Hq. apply list_lookup_insert_ne. congruence.
Qed.

(** The heap after the two [sort.Strings] of [Equal]. *)
Lemma sort_both (h : heap) (pi pt : nat) (si st : ServiceInstance) :
  h !! pi = Some si -> h !! pt = Some st ->
  let h2 := sort_in_place (sort_in_place h pi) pt in
  h2 !! pi = Some (sorted_instance si)
  /\ h2 !! pt = Some (sorted_instance st)
  /\ forall q, q <> pi -> q <> pt -> h2 !! q = h !! q.
Proof.
  intros Hi Ht h2.
  destruct (sort_in_place_lookup h pi si Hi) as [H1 H1'].
  destruct (Nat.eq_dec pt pi) as [-> | Hne].
  - assert (st = si) by congruence. subst st.
    destruct (sort_in_place_lookup _ pi _ H1) as [H2 H2'].
    subst h2. rewrite sorted_instance_idem in H2.
    repeat split; try assumption.
    intros q Hq _. rewrite H2' by assumption. apply H1'. assumption.
  - assert (Ht1 : sort_in_place h pi !! pt = Some st) by (rewrite H1'; assumption).
    destruct (sort_in_place_lookup _ pt _ Ht1) as [H2 H2'].
    subst h2. repeat split.
    + rewrite H2' by congruence. exact H1.
    + exact H2.
    + intros q Hqi Hqt. rewrite H2' by assumption. apply H1'. assumption.
Qed.

End RegistryFacts.

(** C10. For two non-nil instances with as many endpoints each, [Equal]
    returns (it does not panic) and leaves both instances with their
    [Endpoints] sorted in place: each is then in ascending order of the
    strings and a rearrangement of what it was, every other field and every
    other instance is as before, and an [Endpoints] that was not in
    ascending order has changed, so the registered order is gone.  When
    the numbers of endpoints differ, [Equal] returns [false] and changes
    nothing. *)
Theorem C10_equal_sorts_endpoints_in_place :
  forall (h : list Registry.ServiceInstance) (pi pt : nat)
         (si st : Registry.ServiceInstance),
    h !! pi = Some si -> h !! pt = Some st ->
    (length (Registry.Endpoints si) = length (Registry.Endpoints st) ->
     exists (b : bool) (h' : list Registry.ServiceInstance),
       Registry.Equal h (Some pi) (Registry.I_instance (Some pt)) = Registry.Returned (b, h')
       /\ h' !! pi = Some (Registry.set_Endpoints si (Registry.sort_Strings (Registry.Endpoints si)))
       /\ h' !! pt = Some (Registry.set_Endpoints st (Registry.sort_Strings (Registry.Endpoints st)))
       /\ (forall q, q <> pi -> q <> pt -> h' !! q = h !! q)
       /\ Sorted String.le (Registry.sort_Strings (Registry.Endpoints si))
       /\ Sorted String.le (Registry.sort_Strings (Registry.Endpoints st))
       /\ Registry.sort_Strings (Registry.Endpoints si) ≡ₚ Registry.Endpoints si
       /\ Registry.sort_Strings (Registry.Endpoints st) ≡ₚ Registry.Endpoints st
       /\ (~ Sorted String.le (Registry.Endpoints si) ->
           Registry.sort_Strings (Registry.Endpoints si) <> Registry.Endpoints si)
       /\ (~ Sorted String.le (Registry.Endpoints st) ->
           Registry.sort_Strings (Registry.Endpoints st) <> Registry.Endpoints st))
    /\ (length (Registry.Endpoints si) <> length (Registry.Endpoints st) ->
        Registry.Equal h (Some pi) (Registry.I_instance (Some pt)) = Registry.Returned (false, h)).
Proof.
  intros h pi pt si st Hi Ht. split.
  - intros Hlen.
    destruct (RegistryFacts.sort_both h pi pt si st Hi Ht) as (H1 & H2 & H3).
    unfold Registry.Equal. rewrite Hi, Ht, Hlen, Nat.eqb_refl. cbn [negb].
    rewrite H1, H2.
    set (h2 := Registry.sort_in_place (Registry.sort_in_place h pi) pt) in *.
    assert (Hex : forall b, exists (b0 : bool) (h' : list Registry.ServiceInstance),
               Registry.Returned (b, h2) = Registry.Returned (b0, h')
               /\ h' !! pi = Some (RegistryFacts.sorted_instance si)
               /\ h' !! pt = Some (RegistryFacts.sorted_instance st)
               /\ (forall q, q <> pi -> q <> pt -> h' !! q = h !! q)).
    { intros b. exists b, h2. auto. }
    assert (Hrest :
              Sorted String.le (Registry.sort_Strings (Registry.Endpoints si))
              /\ Sorted String.le (Registry.sort_Strings (Registry.Endpoints st))
              /\ Registry.sort_Strings (Registry.Endpoints si) ≡ₚ Registry.Endpoints si
              /\ Registry.sort_Strings (Registry.Endpoints st) ≡ₚ Registry.Endpoints st
              /\ (~ Sorted String.le (Registry.Endpoints si) ->
                  Registry.sort_Strings (Registry.Endpoints si) <> Registry.Endpoints si)
              /\ (~ Sorted String.le (Registry.Endpoints st) ->
                  Registry.sort_Strings (Registry.Endpoints st) <> Registry.Endpoints st)).
    { repeat split; try apply RegistryFacts.sort_Strings_Sorted;
        try apply RegistryFacts.sort_Strings_Permutation.
      - intros Hn E. apply Hn. rewrite <- E. apply RegistryFacts.sort_Strings_Sorted.
      - intros Hn E. apply Hn. rewrite <- E. apply RegistryFacts.sort_Strings_Sorted. }
    match goal with
    | |- exists b h', ?X = _ /\ _ =>
        assert (Hb : exists b, X = Registry.Returned (b, h2))
    end.
    { repeat match goal with
             | |- context [if ?c then _ else _] => destruct c
             end; eauto. }
    destruct Hb as [b ->].
    destruct (Hex b) as (b0 & h' & E & Ha & Hb & Hc).
    exists b0, h'. unfold RegistryFacts.sorted_instance in Ha, Hb. tauto.
  - intros Hlen. unfold Registry.Equal. rewrite Hi, Ht.
    apply Nat.eqb_neq in Hlen. rewrite Hlen. reflexivity.
Qed.

(** Witness of C10: two instances whose endpoints are registered in
    different orders. *)
Lemma C10_witness :
  let a := Resolver.sample_instance "a" ["http://h:80"; "grpc://h:90"] in
  let b := Resolver.sample_instance "a" ["grpc://h:90"; "http://h:80"] in
  Registry.Equal [a; b] (Some 0%nat) (Registry.I_instance (Some 1%nat))
  = Registry.Returned
      (true, [Resolver.sample_instance "a" ["grpc://h:90"; "http://h:80"]; b])
  /\ exists b0 h',
       Registry.Equal [a; b] (Some 0%nat) (Registry.I_instance (Some 1%nat))
       = Registry.Returned (b0, h')
       /\ h' !! 0%nat = Some (Registry.set_Endpoints a (Registry.sort_Strings (Registry.Endpoints a))).
Proof.
  intros a b. split; [vm_compute; reflexivity|].
  destruct (C10_equal_sorts_endpoints_in_place [a; b] 0%nat 1%nat a b eq_refl eq_refl)
    as [H _].
  destruct (H eq_refl) as (b0 & h' & E & Ha & _).
  exists b0, h'. split; [exact E | exact Ha].
Defined.

(** ** The EWMA node: the moving averages *)

Module EwmaFacts.
Import F64 FloatFacts Ewma.

Local Open Scope R_scope.

(** The moving average of two integers of at most [2^49] under a ratio
    between 0 and 1: float arithmetic keeps it within 3/4 of the exact
    average. *)
Lemma ewma_enclosure (old sample : Z) (w : float) (x : R) :
  (0 <= old <= 2 ^ 49)%Z -> (0 <= sample <= 2 ^ 49)%Z ->
  fnonneg w x -> x <= 1 ->
  exists v : R,
    fnonneg (@ewma old sample w) v
    /\ IZR old * x + IZR sample * (1 - x) - 3 / 4 <= v
       <= IZR old * x + IZR sample * (1 - x) + 3 / 4.
Proof.
  intros Ho Hs Hw Hx1. unfold ewma.
  pose proof eps_small as [E0 E1]. pose proof eta_small as [T0 T1].
  pose proof eps_val as EV.
  pose proof p2_1023_large as [L1 L2].
  assert (H64 : IZR (2 ^ 64) = 18446744073709551616) by reflexivity.
  assert (H49 : IZR (2 ^ 49) = 562949953421312) by reflexivity.
  assert (Hx0 : 0 <= x) by apply Hw.
  pose proof (of_Z_exact old ltac:(lia)) as Fo.
  pose proof (of_Z_exact sample ltac:(lia)) as Fs.
  assert (Ho' : 0 <= IZR old <= 562949953421312).
  { rewrite <- H49. split; apply IZR_le; lia. }
  assert (Hs' : 0 <= IZR sample <= 562949953421312).
  { rewrite <- H49. split; apply IZR_le; lia. }
  set (M := 562949953421312) in *.
  assert (HMe : M * eps <= 1 / 8) by (unfold M; lra).
  (* old * x *)
  assert (Hox : 0 <= IZR old * x <= M).
  { split; [apply Rmult_le_pos; lra|].
    replace M with (M * 1) by ring. apply Rmult_le_compat; lra. }
  destruct (mul_nonneg _ _ _ _ Fo Hw) as (a & Fa & A1 & A2); [unfold M in *; lra|].
  assert (Hoxe : IZR old * x * eps <= M * eps) by (apply Rmult_le_compat_r; lra).
  assert (Ea : IZR old * x - 1 / 8 - eps <= a <= IZR old * x + 1 / 8 + eps) by lra.
  (* 1 - x *)
  destruct (sub_nonneg _ _ _ _ fnonneg_one Hw) as (b & Fb & B1 & B2); [lra | lra|].
  assert (Hxe : 0 <= (1 - x) * eps <= eps).
  { split; [apply Rmult_le_pos; lra|].
    replace eps with (1 * eps) at 2 by ring. apply Rmult_le_compat_r; lra. }
  assert (Eb : (1 - x) - 2 * eps <= b <= (1 - x) + 2 * eps) by lra.
  assert (Hb0 : 0 <= b) by apply Fb.
  (* sample * (1 - x) *)
  assert (Hsx : 0 <= IZR sample * (1 - x) <= M).
  { split; [apply Rmult_le_pos; lra|].
    replace M with (M * 1) by ring. apply Rmult_le_compat; lra. }
  assert (Hse : IZR sample * (2 * eps) <= M * (2 * eps))
    by (apply Rmult_le_compat_r; lra).
  assert (Hsb1 : IZR sample * b <= IZR sample * ((1 - x) + 2 * eps))
    by (apply Rmult_le_compat_l; lra).
  assert (Hsb2 : IZR sample * ((1 - x) - 2 * eps) <= IZR sample * b)
    by (apply Rmult_le_compat_l; lra).
  assert (Esb : IZR sample * (1 - x) - 1 / 4 <= IZR sample * b
                <= IZR sample * (1 - x) + 1 / 4) by lra.
  assert (Hsb0 : 0 <= IZR sample * b) by (apply Rmult_le_pos; lra).
  destruct (mul_nonneg _ _ _ _ Fs Fb) as (c & Fc & C1 & C2); [unfold M in *; lra|].
  assert (Hsbe : IZR sample * b * eps <= (M + 1 / 4) * eps)
    by (apply Rmult_le_compat_r; lra).
  assert (Ec : IZR sample * b - 1 / 8 - 2 * eps <= c <= IZR sample * b + 1 / 8 + 2 * eps)
    by lra.
  (* the sum *)
  assert (Ha : 0 <= a) by apply Fa. assert (Hc : 0 <= c) by apply Fc.
  assert (Hsum : IZR old * x + IZR sample * (1 - x) <= M).
  { replace M with (M * x + M * (1 - x)) by ring.
    apply Rplus_le_compat; apply Rmult_le_compat_r; lra. }
  destruct (add_nonneg _ _ _ _ Fa Fc) as (r & Fr & R1 & R2); [unfold M in *; lra|].
  assert (Hace : (a + c) * eps <= (M + 1) * eps) by (apply Rmult_le_compat_r; lra).
  exists r. split; [exact Fr|]. split; lra.
Qed.

Section Sample.
Context {RawNode error : Type}.
Variable errs : ErrPredicates error.

Lemma done_sample_spec (n : @Node RawNode error) (di : DoneInfo error) :
  done_sample errs n di
  = match Err di with
    | Some err => if is_failure errs n err then 0%Z else 1000%Z
    | None => 1000%Z
    end.
Proof.
  unfold done_sample, is_failure. destruct (Err di) as [err|]; [|reflexivity].
  destruct (errHandler n) as [h|]; [destruct (h err)|];
    destruct (is_DeadlineExceeded errs err), (is_Canceled errs err),
      (IsServiceUnavailable errs err), (IsGatewayTimeout errs err),
      (As_netError errs err); reflexivity.
Qed.

Lemma done_sample_cases (n : @Node RawNode error) (di : DoneInfo error) :
  done_sample errs n di = 0%Z \/ done_sample errs n di = 1000%Z.
Proof.
  rewrite done_sample_spec. destruct (Err di) as [err|]; [|tauto].
  destruct (is_failure errs n err); tauto.
Qed.

End Sample.

(** The moving average of two values of [0..1000] is stored as a value of
    [0..1000]. *)
Lemma ewma_success_range (old sample : Z) (w : float) :
  (0 <= old <= 1000)%Z -> (0 <= sample <= 1000)%Z ->
  (0 <=? w)%float = true -> (w <=? 1)%float = true ->
  (0 <= to_u64 (@ewma old sample w) <= 1000)%Z.
Proof.
  intros Ho Hs H0 H1.
  destruct (unit_interval w H0 H1) as (x & Hw & Hx1).
  assert (Hx0 : 0 <= x) by apply Hw.
  destruct (ewma_enclosure old sample w x ltac:(lia) ltac:(lia) Hw Hx1)
    as (v & Fv & V1 & V2).
  assert (Ho' : 0 <= IZR old <= 1000) by (split; apply IZR_le; lia).
  assert (Hs' : 0 <= IZR sample <= 1000) by (split; apply IZR_le; lia).
  assert (Hox : IZR old * x <= 1000 * x) by (apply Rmult_le_compat_r; lra).
  assert (Hsx : IZR sample * (1 - x) <= 1000 * (1 - x))
    by (apply Rmult_le_compat_r; lra).
  assert (Hv : v < 1001) by lra.
  assert (H64 : IZR (2 ^ 64) = 18446744073709551616) by reflexivity.
  destruct (to_u64_nonneg _ _ Fv ltac:(lra)) as (T0 & T1 & T2).
  split; [exact T0|].
  assert (IZR (to_u64 (@ewma old sample w)) < IZR 1001) by lra.
  apply lt_IZR in H. lia.
Qed.

(** With the ratio 0 the moving average is the sample itself. *)
Lemma ewma_zero_ratio (old sample : Z) :
  (0 <= old < 2 ^ 53)%Z -> (0 <= sample < 2 ^ 53)%Z ->
  fnonneg (@ewma old sample 0%float) (IZR sample).
Proof.
  intros Ho Hs. unfold ewma.
  change (1 - 0)%float with 1%float.
  unfold fnonneg. rewrite add_spec, !mul_spec.
  replace (Prim2SF 0%float) with (S754_zero false) by (vm_compute; reflexivity).
  replace (Prim2SF 1%float) with SFone by (vm_compute; reflexivity).
  apply SFadd_zero_l.
  - apply (SFmul_zero_r _ (IZR old)). apply (of_Z_exact old Ho).
  - apply SFmul_one_r. apply (of_Z_exact sample Hs).
Qed.

Lemma to_i64_exact (f : float) (z : Z) :
  fnonneg f (IZR z) -> (z < 2 ^ 63)%Z -> to_i64 f = z.
Proof.
  intros Hf Hz.
  destruct (to_i64_nonneg f (IZR z) Hf ltac:(apply IZR_lt; exact Hz)) as (T0 & T1 & T2).
  apply le_IZR in T1. rewrite <- (plus_IZR _ 1) in T2. apply lt_IZR in T2. lia.
Qed.

Lemma to_u64_exact (f : float) (z : Z) :
  fnonneg f (IZR z) -> (z < 2 ^ 64)%Z -> to_u64 f = z.
Proof.
  intros Hf Hz.
  destruct (to_u64_nonneg f (IZR z) Hf ltac:(apply IZR_lt; exact Hz)) as (T0 & T1 & T2).
  apply le_IZR in T1. rewrite <- (plus_IZR _ 1) in T2. apply lt_IZR in T2. lia.
Qed.

(** *** The weight *)

Lemma u64_small (z : Z) : (0 <= z < 2 ^ 64)%Z -> Int.u64 z = z.
Proof. intros H. unfold Int.u64. apply Z.mod_small. exact H. Qed.

(** The float of a load, and bounds on it. *)
Lemma load_float (l : Z) :
  (0 < l < 2 ^ 64)%Z ->
  exists d : R,
    fnonneg (of_Z l) d /\ / 2 <= d <= 2 * IZR (2 ^ 64)
    /\ ((l < 2 ^ 53)%Z -> d = IZR l).
Proof.
  intros [H0 H64].
  pose proof eps_small as [E0 E1]. pose proof eta_small as [T0 T1].
  pose proof p2_1023_large as [L1 L2].
  assert (Hl : 1 <= IZR l < IZR (2 ^ 64)) by (split; [apply IZR_le | apply IZR_lt]; lia).
  assert (V64 : IZR (2 ^ 64) = 18446744073709551616) by reflexivity.
  destruct (Z_lt_ge_dec l (2 ^ 53)) as [Hs | Hb].
  - exists (IZR l). split; [apply of_Z_exact; lia|]. split; [lra | reflexivity].
  - destruct (of_Z_nonneg l H0 ltac:(lra)) as (d & Fd & D1 & D2).
    exists d. split; [exact Fd|]. split; [nra | lia].
Qed.

(** The weight of a positive success value over a positive load: the
    float quotient is within a few [eps] of the exact one. *)
Lemma weight_enclosure (s l : Z) (d : R) :
  (0 < s <= 1000)%Z -> fnonneg (of_Z l) d -> / 2 <= d <= 2 * IZR (2 ^ 64) ->
  exists z : R,
    fnonneg (@weight_of s l) z
    /\ IZR (s * second) / d * (1 - 3 * eps) <= z <= IZR (s * second) / d * (1 + 2 * eps).
Proof.
  intros Hs Hd Hdb. unfold weight_of.
  assert (Hss : (0 < s * second <= 1000000000000)%Z) by (unfold second; lia).
  rewrite u64_small by lia.
  pose proof (of_Z_exact (s * second) ltac:(lia)) as Fa.
  assert (Ha : 1000000000 <= IZR (s * second) <= 1000000000000).
  { split; apply IZR_le; unfold second; lia. }
  assert (V64 : IZR (2 ^ 64) = 18446744073709551616) by reflexivity.
  assert (Hk : 0 < / d) by (apply Rinv_0_lt_compat; lra).
  assert (Hkd : / d * d = 1) by (apply Rinv_l; lra).
  assert (Hk2 : / d <= 2) by nra.
  assert (Hk3 : / (2 * IZR (2 ^ 64)) <= / d).
  { apply Rinv_le_contravar; lra. }
  apply div_nonneg; try assumption; try lra.
  - assert (p2 (-1020) <= p2 (-64)) by (apply p2_le; lia).
    assert (p2 (-64) = / IZR (2 ^ 64)).
    { change (-64)%Z with (- (64))%Z. rewrite p2_opp, p2_IZR by lia. reflexivity. }
    assert (/ (2 * IZR (2 ^ 64)) = / IZR (2 ^ 64) * / 2) by (rewrite V64; field).
    assert (0 < / IZR (2 ^ 64)) by (apply Rinv_0_lt_compat; lra).
    unfold Rdiv. nra.
  - pose proof p2_1023_large as [L1 L2]. unfold Rdiv. nra.
Qed.

Lemma weight_zero (l : Z) :
  (0 < l < 2 ^ 64)%Z -> fnonneg (@weight_of 0 l) 0.
Proof.
  intros Hl. destruct (load_float l Hl) as (d & Fd & Hd & _).
  unfold weight_of. simpl (0 * second)%Z.
  apply (div_zero _ _ d); [|exact Fd | lra].
  apply (of_Z_exact 0). lia.
Qed.

(** For a fixed load, a higher success value gives a higher weight. *)
Lemma weight_success_mono (s1 s2 l : Z) :
  (0 <= s1 < s2)%Z -> (s2 <= 1000)%Z -> (0 < l < 2 ^ 64)%Z ->
  (@weight_of s1 l <? @weight_of s2 l)%float = true.
Proof.
  intros Hs1 Hs2 Hl.
  pose proof eps_small as [E0 E1].
  destruct (load_float l Hl) as (d & Fd & Hd & _).
  destruct (weight_enclosure s2 l d ltac:(lia) Fd Hd) as (z2 & F2 & Z1 & Z2).
  assert (Hk : 0 < / d) by (apply Rinv_0_lt_compat; lra).
  assert (A2 : IZR (s2 * second) = IZR s2 * 1000000000)
    by (unfold second; rewrite mult_IZR; reflexivity).
  assert (B2 : 1 <= IZR s2 <= 1000) by (split; apply IZR_le; lia).
  unfold Rdiv in *.
  destruct (Z.eq_dec s1 0%Z) as [-> | Hnz].
  - apply (ltb_nonneg _ _ 0 z2 (weight_zero l Hl) F2).
    assert (0 < IZR (s2 * second) * / d) by nra. nra.
  - destruct (weight_enclosure s1 l d ltac:(lia) Fd Hd) as (z1 & F1 & Y1 & Y2).
    apply (ltb_nonneg _ _ z1 z2 F1 F2).
    assert (A1 : IZR (s1 * second) = IZR s1 * 1000000000)
      by (unfold second; rewrite mult_IZR; reflexivity).
    assert (B1 : 1 <= IZR s1 <= 1000) by (split; apply IZR_le; lia).
    assert (B12 : IZR s1 + 1 <= IZR s2).
    { rewrite <- (plus_IZR _ 1). apply IZR_le. lia. }
    unfold Rdiv in *. rewrite A1 in *. rewrite A2 in *.
    assert (IZR s1 * 1000000000 * (1 + 2 * eps) < IZR s2 * 1000000000 * (1 - 3 * eps))
      by nra.
    assert (IZR s1 * 1000000000 * / d * (1 + 2 * eps)
            < IZR s2 * 1000000000 * / d * (1 - 3 * eps)).
    { replace (IZR s1 * 1000000000 * / d * (1 + 2 * eps))
        with (IZR s1 * 1000000000 * (1 + 2 * eps) * / d) by ring.
      replace (IZR s2 * 1000000000 * / d * (1 - 3 * eps))
        with (IZR s2 * 1000000000 * (1 - 3 * eps) * / d) by ring.
      apply Rmult_lt_compat_r; assumption. }
    lra.
Qed.

(** For a fixed positive success value, a higher load gives a lower
    weight, for loads below [2^49]. *)
Lemma weight_load_mono (s l1 l2 : Z) :
  (0 < s <= 1000)%Z -> (0 < l1 < l2)%Z -> (l2 < 2 ^ 49)%Z ->
  (@weight_of s l2 <? @weight_of s l1)%float = true.
Proof.
  intros Hs Hl1 Hl2.
  pose proof eps_small as [E0 E1].
  assert (V49 : IZR (2 ^ 49) = 562949953421312) by reflexivity.
  assert (V64 : IZR (2 ^ 64) = 18446744073709551616) by reflexivity.
  pose proof (of_Z_exact l1 ltac:(lia)) as F1.
  pose proof (of_Z_exact l2 ltac:(lia)) as F2.
  assert (B1 : 1 <= IZR l1) by (apply IZR_le; lia).
  assert (B2 : IZR l2 <= 562949953421312) by (rewrite <- V49; apply IZR_le; lia).
  assert (B12 : IZR l1 + 1 <= IZR l2).
  { rewrite <- (plus_IZR _ 1). apply IZR_le. lia. }
  destruct (weight_enclosure s l1 (IZR l1) Hs F1 ltac:(lra)) as (z1 & G1 & Y1 & Y2).
  destruct (weight_enclosure s l2 (IZR l2) Hs F2 ltac:(lra)) as (z2 & G2 & Z1 & Z2).
  apply (ltb_nonneg _ _ z2 z1 G2 G1).
  assert (Ha : 1000000000 <= IZR (s * second)).
  { apply IZR_le. unfold second. lia. }
  set (a := IZR (s * second)) in *.
  assert (K1 : 0 < / IZR l1) by (apply Rinv_0_lt_compat; lra).
  assert (K2 : 0 < / IZR l2) by (apply Rinv_0_lt_compat; lra).
  assert (KK1 : / IZR l1 * IZR l1 = 1) by (apply Rinv_l; lra).
  assert (KK2 : / IZR l2 * IZR l2 = 1) by (apply Rinv_l; lra).
  unfold Rdiv in *.
  (* (1 + 2 eps) / l2 < (1 - 3 eps) / l1 *)
  assert (Hcore : / IZR l2 * (1 + 2 * eps) < / IZR l1 * (1 - 3 * eps)).
  { pose proof eps_val as EV.
    assert (IZR l1 * eps <= 562949953421312 * eps) by (apply Rmult_le_compat_r; lra).
    assert (IZR l2 * eps <= 562949953421312 * eps) by (apply Rmult_le_compat_r; lra).
    assert (IZR l1 * (1 + 2 * eps) < IZR l2 * (1 - 3 * eps)) by lra.
    apply (Rmult_lt_reg_r (IZR l1 * IZR l2)); [apply Rmult_lt_0_compat; lra|].
    replace (/ IZR l2 * (1 + 2 * eps) * (IZR l1 * IZR l2))
      with ((/ IZR l2 * IZR l2) * (IZR l1 * (1 + 2 * eps))) by ring.
    replace (/ IZR l1 * (1 - 3 * eps) * (IZR l1 * IZR l2))
      with ((/ IZR l1 * IZR l1) * (IZR l2 * (1 - 3 * eps))) by ring.
    rewrite KK1, KK2. lra. }
  assert (a * (/ IZR l2 * (1 + 2 * eps)) < a * (/ IZR l1 * (1 - 3 * eps)))
    by (apply Rmult_lt_compat_l; lra).
  lra.
Qed.

End EwmaFacts.

(** C7. The success value of an EWMA node stays in [0, 1000]: [Build] sets
    it to 1000, and a completion that finds it in [0, 1000] stores a value
    of [0, 1000] again, whatever the error of the completion and whatever
    smoothing factor between 0 and 1 it computed. *)
Theorem C7_success_in_range :
  forall (RawNode error : Type) (math_Exp : float -> float)
         (errs : Ewma.ErrPredicates error),
    (forall (ErrHandler : option (error -> bool)) (r : RawNode),
        Ewma.success (Ewma.Build ErrHandler r) = 1000)
    /\ (forall (n : Ewma.Node RawNode error) (e : Ewma.Element) (now : Z)
               (di : Ewma.DoneInfo error),
          0 <= Ewma.success n <= 1000 ->
          (0 <=? Ewma.done_w math_Exp n now)%float = true ->
          (Ewma.done_w math_Exp n now <=? 1)%float = true ->
          0 <= Ewma.success (Ewma.DoneFunc math_Exp errs n e now di) <= 1000)
    /\ (forall (old sample : Z) (w : float),
          0 <= old <= 1000 -> sample = 0 \/ sample = 1000 ->
          (0 <=? w)%float = true -> (w <=? 1)%float = true ->
          0 <= F64.to_u64 (Ewma.ewma old sample w) <= 1000).
Proof.
  intros RawNode error math_Exp errs. split; [reflexivity|]. split.
  - intros n e now di Hs H0 H1. cbn [Ewma.DoneFunc Ewma.success].
    apply EwmaFacts.ewma_success_range; try assumption.
    destruct (EwmaFacts.done_sample_cases errs n di) as [-> | ->]; lia.
  - intros old sample w Ho Hs H0 H1.
    apply EwmaFacts.ewma_success_range; try assumption. lia.
Qed.

(** ** The EWMA node: load, weight and the completion closure *)

Module NodeFacts.
Import F64 FloatFacts EwmaFacts Ewma.

Lemma i64_opp_small (z : Z) :
  0 <= z <= Int.max_i64 -> Int.i64 (- z) = - z.
Proof.
  intros H. apply InflightFacts.i64_small.
  unfold Int.min_i64, Int.max_i64 in *. lia.
Qed.

Lemma i64_range (z : Z) : Int.min_i64 <= Int.i64 z <= Int.max_i64.
Proof.
  unfold Int.i64, Int.min_i64, Int.max_i64.
  pose proof (Z.mod_pos_bound (z + 2 ^ 63) (2 ^ 64) ltac:(lia)). lia.
Qed.

Section Node.
Context {RawNode error : Type}.
Variable math_Exp : float -> float.
Variable errs : ErrPredicates error.

Abbreviation Node' := (Node RawNode error).

Lemma done_td_max (n : Node') (now : Z) :
  done_td n now = Z.max 0 (Int.i64 (now - stamp n))
  /\ 0 <= done_td n now <= Int.max_i64.
Proof.
  unfold done_td. pose proof (i64_range (now - stamp n)) as H.
  destruct (Z.ltb_spec (Int.i64 (now - stamp n)) 0); unfold Int.max_i64 in *; lia.
Qed.

Lemma done_lag_max (e : Element) (now : Z) :
  done_lag e now = Z.max 0 (Int.i64 (now - el_value e))
  /\ 0 <= done_lag e now <= Int.max_i64.
Proof.
  unfold done_lag. pose proof (i64_range (now - el_value e)) as H.
  destruct (Z.ltb_spec (Int.i64 (now - el_value e)) 0); unfold Int.max_i64 in *; lia.
Qed.

(** The ratio of a completion, with the negation of [td] written without
    its wrap-around. *)
Lemma done_w_spec (n : Node') (now : Z) :
  done_w math_Exp n now
  = if lag n =? 0 then 0%float
    else math_Exp (of_Z (- Z.max 0 (Int.i64 (now - stamp n))) / of_Z tau)%float.
Proof.
  unfold done_w. destruct (done_td_max n now) as [E H].
  rewrite i64_opp_small by exact H. rewrite E. reflexivity.
Qed.

(** A moving average of two integers of at most [2^49], cut to an integer:
    it is not above the larger of the two and at most one below the
    smaller. *)
Lemma ewma_bracket (old sample : Z) (w : float) :
  0 <= old <= 2 ^ 49 -> 0 <= sample <= 2 ^ 49 ->
  (0 <=? w)%float = true -> (w <=? 1)%float = true ->
  Z.min old sample - 1 <= to_i64 (ewma old sample w) <= Z.max old sample.
Proof.
  intros Ho Hs H0 H1.
  destruct (unit_interval w H0 H1) as (x & Hw & Hx1).
  assert (Hx0 : (0 <= x)%R) by apply Hw.
  destruct (ewma_enclosure old sample w x Ho Hs Hw Hx1) as (v & Fv & V1 & V2).
  assert (V49 : IZR (2 ^ 49) = 562949953421312%R) by reflexivity.
  assert (V63 : IZR (2 ^ 63) = 9223372036854775808%R) by reflexivity.
  assert (Hmax : (IZR old * x + IZR sample * (1 - x) <= IZR (Z.max old sample))%R).
  { assert (IZR old <= IZR (Z.max old sample))%R by (apply IZR_le; lia).
    assert (IZR sample <= IZR (Z.max old sample))%R by (apply IZR_le; lia).
    nra. }
  assert (Hmin : (IZR (Z.min old sample) <= IZR old * x + IZR sample * (1 - x))%R).
  { assert (IZR (Z.min old sample) <= IZR old)%R by (apply IZR_le; lia).
    assert (IZR (Z.min old sample) <= IZR sample)%R by (apply IZR_le; lia).
    nra. }
  assert (Hmx : (IZR (Z.max old sample) <= 562949953421312)%R).
  { rewrite <- V49. apply IZR_le. lia. }
  destruct (to_i64_nonneg _ _ Fv ltac:(lra)) as (T0 & T1 & T2).
  split.
  - assert (IZR (Z.min old sample) - 1 - 1 < IZR (to_i64 (ewma old sample w)))%R by lra.
    rewrite <- !(minus_IZR _ 1) in H. apply lt_IZR in H. lia.
  - assert (IZR (to_i64 (ewma old sample w)) < IZR (Z.max old sample) + 1)%R by lra.
    rewrite <- (plus_IZR _ 1) in H. apply lt_IZR in H. lia.
Qed.

Lemma load_spec (n : Node') (now : Z) :
  let n' := refresh_predict n now in
  load n now
  = (if lag n =? 0 then Int.u64 (penalty * Int.u64 (inflight n))
     else Int.u64 (Int.u64 (Z.max (lag n) (predict n')) * Int.u64 (inflight n)),
     n').
Proof.
  intros n'. unfold load. fold n'.
  pose proof (InflightFacts.refresh_predict_fields n now) as (Hi & _).
  fold n' in Hi. rewrite Hi.
  destruct (lag n =? 0); [reflexivity|].
  destruct (Z.gtb_spec (predict n') (lag n)).
  - rewrite Z.max_r by lia. reflexivity.
  - rewrite Z.max_l by lia. reflexivity.
Qed.

End Node.

End NodeFacts.

(** Counterexample to C1 as stated.  A node whose first request failed has
    success 0; with one request in flight more its load is higher
    (2000000 against 1000000), and the weight is 0 in both cases: the higher
    load does not give a lower weight. *)
Lemma C1_counterexample : ~ Stated.C1_higher_load_lower_weight.
Proof.
  intros H.
  specialize (H (Ewma.node (Ewma.sample_run Ewma.fresh Ewma.first_failed))
                (Ewma.node (Ewma.sample_run Ewma.fresh
                              (Ewma.first_failed ++ [Ewma.OpPick 1001500000])))
                1002000000).
  assert (E : false = true); [|discriminate E].
  apply H; vm_compute; reflexivity.
Qed.

(** C1, amended.  [load()] is [penalty * inflight] (10 s in nanoseconds
    times the in-flight count) when the stored lag is 0, and
    [max(lag, predict) * inflight] otherwise, [predict] being the stored
    prediction after the refresh [load] itself may do; both products are
    [uint64] products, and are the exact ones while they fit.  [Weight()] is
    the [float64] quotient of [success * 1e9] by that load.  For a fixed
    load a higher success (up to 1000) gives a strictly higher weight.  For
    a fixed success from 1 to 1000 a higher load gives a strictly lower
    weight, for loads below [2^49]; with success 0 the weight is 0 whatever
    the load. *)
Theorem C1_load_and_weight :
  forall (RawNode error : Type) (n : Ewma.Node RawNode error) (now : Z),
    let n' := Ewma.refresh_predict n now in
    let l := fst (Ewma.load n now) in
    (Ewma.lag n = 0 ->
       l = Int.u64 (Ewma.penalty * Int.u64 (Ewma.inflight n))
       /\ (0 <= Ewma.inflight n -> Ewma.penalty * Ewma.inflight n < 2 ^ 64 ->
           l = 10000000000 * Ewma.inflight n))
    /\ (Ewma.lag n <> 0 ->
       l = Int.u64 (Int.u64 (Z.max (Ewma.lag n) (Ewma.predict n')) * Int.u64 (Ewma.inflight n))
       /\ (0 <= Z.max (Ewma.lag n) (Ewma.predict n') -> 0 <= Ewma.inflight n ->
           Z.max (Ewma.lag n) (Ewma.predict n') * Ewma.inflight n < 2 ^ 64 ->
           l = Z.max (Ewma.lag n) (Ewma.predict n') * Ewma.inflight n))
    /\ Ewma.Weight n now
       = ((F64.of_Z (Int.u64 (Ewma.success n * 1000000000)) / F64.of_Z l)%float, n')
    /\ (forall s1 s2 l0 : Z,
          0 <= s1 < s2 -> s2 <= 1000 -> 0 < l0 < 2 ^ 64 ->
          (Ewma.weight_of s1 l0 <? Ewma.weight_of s2 l0)%float = true)
    /\ (forall s l1 l2 : Z,
          0 < s <= 1000 -> 0 < l1 < l2 -> l2 < 2 ^ 49 ->
          (Ewma.weight_of s l2 <? Ewma.weight_of s l1)%float = true)
    /\ (forall l0 : Z, 0 < l0 < 2 ^ 64 -> (Ewma.weight_of 0 l0 =? 0)%float = true).
Proof.
  intros RawNode error n now n' l.
  pose proof (NodeFacts.load_spec n now) as Hl. cbv zeta in Hl. fold n' in Hl.
  assert (Hu : forall a b : Z, 0 <= a -> 0 <= b -> a * b < 2 ^ 64 ->
                                Int.u64 (Int.u64 a * Int.u64 b) = a * b).
  { intros a b Ha Hb Hab.
    destruct (Z.eq_dec a 0) as [-> | Hna]; [reflexivity|].
    destruct (Z.eq_dec b 0) as [-> | Hnb].
    - change (Int.u64 0) with 0. rewrite !Z.mul_0_r. reflexivity.
    - assert (a < 2 ^ 64) by nia. assert (b < 2 ^ 64) by nia.
      rewrite (EwmaFacts.u64_small a), (EwmaFacts.u64_small b) by lia.
      apply EwmaFacts.u64_small. lia. }
  repeat split.
  - subst l. rewrite Hl. apply Z.eqb_eq in H. rewrite H. reflexivity.
  - intros H0 H1. subst l. rewrite Hl. apply Z.eqb_eq in H. rewrite H. cbn [fst].
    rewrite <- (EwmaFacts.u64_small Ewma.penalty) at 1 by (unfold Ewma.penalty; lia).
    apply Hu; unfold Ewma.penalty in *; lia.
  - subst l. rewrite Hl. apply Z.eqb_neq in H. rewrite H. reflexivity.
  - intros H0 H1 H2. subst l. rewrite Hl. apply Z.eqb_neq in H. rewrite H. cbn [fst].
    apply Hu; assumption.
  - unfold Ewma.Weight. subst l. rewrite Hl. reflexivity.
  - intros s1 s2 l0 H1 H2 H3. apply EwmaFacts.weight_success_mono; assumption.
  - intros s l1 l2 H1 H2 H3. apply EwmaFacts.weight_load_mono; assumption.
  - intros l0 H. apply (FloatFacts.eqb_nonneg _ _ 0%R 0%R);
      [apply EwmaFacts.weight_zero; exact H | apply FloatFacts.fnonneg_zero | reflexivity].
Qed.

(** Witness of C1: a cold node with three requests in flight, and the
    weights of two success values over its load. *)
Lemma C1_witness :
  let n := Ewma.node (Ewma.sample_run Ewma.fresh
                        [Ewma.OpPick 1000000000; Ewma.OpPick 1000000500]) in
  Ewma.lag n = 0
  /\ fst (Ewma.load n 1000001000) = 10000000000 * 3
  /\ (Ewma.weight_of 999 30000000000 <? Ewma.weight_of 1000 30000000000)%float = true.
Proof.
  intros n.
  destruct (C1_load_and_weight unit Ewma.sample_error n 1000001000)
    as (H1 & _ & _ & H4 & _).
  assert (E : Ewma.lag n = 0) by (vm_compute; reflexivity).
  split; [exact E|]. split.
  - destruct (H1 E) as [_ H]. rewrite H; [reflexivity | vm_compute; discriminate |
                                          vm_compute; reflexivity].
  - apply H4; lia.
Defined.

(** Counterexample to C2 as stated.  A request of 1 ms, then a request of
    2 ms that completes 600 ms after the first: the closure stores the lag
    1632120, the value 1632120.55... cut to an integer; rounding would
    give 1632121. *)
Lemma C2_counterexample : ~ Stated.C2_lag_is_rounded.
Proof.
  intros H.
  specialize (H (Ewma.node (Ewma.sample_run Ewma.fresh (Ewma.first_ok ++ Ewma.second_pick)))
                Ewma.second_elem 1601000000 Ewma.ok).
  vm_compute in H. discriminate H.
Qed.

(** C2, amended.  At a completion at time [now], with
    [td = max(0, now - stamp)], [w = math.Exp(-td / tau)] for
    [tau = 600 ms], [w] forced to 0 when the stored lag is 0, and
    [raw_lag = max(0, now - start)], the closure stores as the new lag the
    [float64] value [old_lag * w + raw_lag * (1 - w)] converted to [int64],
    that is cut toward zero, not rounded.  The first sample is taken raw:
    when the stored lag is 0 the new lag is [raw_lag] (below [2^53]).  For
    [w] between 0 and 1 and values up to [2^49], the new lag is at most the
    larger of the old lag and the sample, and at most one below the
    smaller. *)
Theorem C2_lag_update :
  forall (RawNode error : Type) (math_Exp : float -> float)
         (errs : Ewma.ErrPredicates error)
         (n : Ewma.Node RawNode error) (e : Ewma.Element) (now : Z)
         (di : Ewma.DoneInfo error),
    let td := Z.max 0 (Int.i64 (now - Ewma.stamp n)) in
    let w := if Ewma.lag n =? 0 then 0%float
             else math_Exp (F64.of_Z (- td) / F64.of_Z 600000000)%float in
    let raw_lag := Z.max 0 (Int.i64 (now - Ewma.el_value e)) in
    let n' := Ewma.DoneFunc math_Exp errs n e now di in
    Ewma.lag n'
    = F64.to_i64 (F64.of_Z (Ewma.lag n) * w + F64.of_Z raw_lag * (1 - w))%float
    /\ Ewma.stamp n' = now
    /\ (Ewma.lag n = 0 -> raw_lag < 2 ^ 53 -> Ewma.lag n' = raw_lag)
    /\ (0 <= Ewma.lag n <= 2 ^ 49 -> raw_lag <= 2 ^ 49 ->
        (0 <=? w)%float = true -> (w <=? 1)%float = true ->
        Z.min (Ewma.lag n) raw_lag - 1 <= Ewma.lag n' <= Z.max (Ewma.lag n) raw_lag).
Proof.
  intros RawNode error math_Exp errs n e now di td w raw_lag n'.
  assert (Hw : Ewma.done_w math_Exp n now = w).
  { rewrite NodeFacts.done_w_spec. reflexivity. }
  destruct (NodeFacts.done_lag_max e now) as [Hr Hr'].
  assert (Hlag : Ewma.lag n' = F64.to_i64 (Ewma.ewma (Ewma.lag n) raw_lag w)).
  { subst n'. cbn [Ewma.DoneFunc Ewma.lag]. rewrite Hw, Hr. reflexivity. }
  split; [exact Hlag|]. split; [reflexivity|]. split.
  - intros H0 H53. rewrite Hlag. subst w. rewrite H0. cbn [Z.eqb].
    apply EwmaFacts.to_i64_exact; [|lia].
    apply EwmaFacts.ewma_zero_ratio; lia.
  - intros Ho Hs H0 H1. rewrite Hlag.
    apply NodeFacts.ewma_bracket; try assumption. lia.
Qed.

(** Witness of C2: the second completion of the example. *)
Lemma C2_witness :
  let n := Ewma.node (Ewma.sample_run Ewma.fresh (Ewma.first_ok ++ Ewma.second_pick)) in
  let n' := Ewma.DoneFunc Ewma.exp_model Ewma.sample_errs n Ewma.second_elem 1601000000 Ewma.ok in
  Ewma.lag n = 1000000
  /\ 1000000 - 1 <= Ewma.lag n' <= 2000000.
Proof.
  intros n n'. split; [vm_compute; reflexivity|].
  destruct (C2_lag_update unit Ewma.sample_error Ewma.exp_model Ewma.sample_errs
              n Ewma.second_elem 1601000000 Ewma.ok) as (_ & _ & _ & H).
  apply H; [vm_compute; split; discriminate | vm_compute; discriminate
           | vm_compute; reflexivity | vm_compute; reflexivity].
Defined.

(** Counterexample to C3 as stated.  In the same run with the second
    request failing on a network error, the closure stores the success
    367, the value 367.87... cut to an integer; rounding would give 368. *)
Lemma C3_counterexample : ~ Stated.C3_success_is_rounded.
Proof.
  intros H.
  specialize (H (Ewma.node (Ewma.sample_run Ewma.fresh (Ewma.first_ok ++ Ewma.second_pick)))
                Ewma.second_elem 1601000000 (Ewma.failed Ewma.ErrNet)).
  vm_compute in H. discriminate H.
Qed.

(** C3, amended.  The success sample of a completion is 1000, and 0
    exactly when the completion has an error for which the node's error
    handler (if there is one) returns true, or which is the
    deadline-exceeded or the cancellation error, a service-unavailable or
    gateway-timeout error, or a network error.  The closure then stores as
    the new success the [float64] value [old_success * w + sample * (1 - w)]
    converted to [uint64], that is cut toward zero, not rounded, with the
    [w] of the lag update; with the stored lag at 0, where [w] is 0, the new
    success is the sample itself. *)
Theorem C3_success_update :
  forall (RawNode error : Type) (math_Exp : float -> float)
         (errs : Ewma.ErrPredicates error)
         (n : Ewma.Node RawNode error) (e : Ewma.Element) (now : Z)
         (di : Ewma.DoneInfo error),
    let sample := Ewma.done_sample errs n di in
    let w := Ewma.done_w math_Exp n now in
    let n' := Ewma.DoneFunc math_Exp errs n e now di in
    (sample = 0 \/ sample = 1000)
    /\ (sample = 0 <->
        exists err, Ewma.Err di = Some err
          /\ (match Ewma.errHandler n with Some h => h err | None => false end
              || Ewma.is_DeadlineExceeded errs err || Ewma.is_Canceled errs err
              || Ewma.IsServiceUnavailable errs err || Ewma.IsGatewayTimeout errs err
              || Ewma.As_netError errs err = true))
    /\ Ewma.success n'
       = F64.to_u64 (F64.of_Z (Ewma.success n) * w + F64.of_Z sample * (1 - w))%float
    /\ Ewma.lag n'
       = F64.to_i64 (F64.of_Z (Ewma.lag n) * w + F64.of_Z (Ewma.done_lag e now) * (1 - w))%float
    /\ (Ewma.lag n = 0 -> 0 <= Ewma.success n < 2 ^ 53 -> Ewma.success n' = sample).
Proof.
  intros RawNode error math_Exp errs n e now di sample w n'.
  pose proof (EwmaFacts.done_sample_cases errs n di) as Hc. fold sample in Hc.
  split; [exact Hc|]. split; [|split; [reflexivity | split; [reflexivity|]]].
  - subst sample. rewrite EwmaFacts.done_sample_spec. unfold Ewma.is_failure.
    destruct (Ewma.Err di) as [err|].
    + split.
      * intros H. exists err. split; [reflexivity|].
        destruct (_ || _ || _ || _ || _ || _); [reflexivity | discriminate].
      * intros (err' & E & H). injection E as <-. rewrite H. reflexivity.
    + split; [discriminate | intros (err' & E & _); discriminate].
  - intros H0 Hs. subst n'. cbn [Ewma.DoneFunc Ewma.success].
    unfold Ewma.done_w. rewrite H0. cbn [Z.eqb].
    apply EwmaFacts.to_u64_exact; [|fold sample; lia].
    apply EwmaFacts.ewma_zero_ratio; fold sample; lia.
Qed.

(** Witness of C3: the first completion of a fresh node, failing on a
    network error, stores the sample 0. *)
Lemma C3_witness :
  let n := Ewma.node (Ewma.sample_run Ewma.fresh [Ewma.OpPick 1000000000]) in
  let e := {| Ewma.el_id := 0; Ewma.el_value := 1000000000 |} in
  Ewma.lag n = 0
  /\ Ewma.success (Ewma.DoneFunc Ewma.exp_model Ewma.sample_errs n e 1001000000
                     (Ewma.failed Ewma.ErrNet)) = 0.
Proof.
  intros n e. split; [vm_compute; reflexivity|].
  destruct (C3_success_update unit Ewma.sample_error Ewma.exp_model Ewma.sample_errs
              n e 1001000000 (Ewma.failed Ewma.ErrNet)) as (_ & _ & _ & _ & H).
  rewrite H; [reflexivity | vm_compute; reflexivity | vm_compute; split; [discriminate | reflexivity]].
Defined.


(** Witness of C6: two requests, of which the first has completed. *)
Lemma C6_witness :
  let ops := Ewma.first_ok ++ Ewma.second_pick ++ [Ewma.OpWeight 1600000000] in
  let n := Ewma.node (Ewma.sample_run Ewma.fresh ops) in
  Ewma.paired 0 [] ops = true
  /\ Ewma.inflight n = 1 + (2 - 1)
  /\ Z.of_nat (length (Ewma.inflights n)) = Ewma.inflight n - 1.
Proof.
  intros ops n.
  assert (Hp : Ewma.paired 0 [] ops = true) by reflexivity.
  split; [exact Hp|].
  exact (C6_inflight_conservation unit Ewma.sample_error Ewma.exp_model Ewma.sample_errs
           None tt ops Hp ltac:(vm_compute; reflexivity)).
Defined.

(** Witness of C7: the failing second completion of the example. *)
Lemma C7_witness :
  let n := Ewma.node (Ewma.sample_run Ewma.fresh (Ewma.first_ok ++ Ewma.second_pick)) in
  0 <= Ewma.success n <= 1000
  /\ 0 <= Ewma.success (Ewma.DoneFunc Ewma.exp_model Ewma.sample_errs n Ewma.second_elem
                          1601000000 (Ewma.failed Ewma.ErrNet)) <= 1000.
Proof.
  intros n.
  assert (Hs : 0 <= Ewma.success n <= 1000) by (vm_compute; split; discriminate).
  split; [exact Hs|].
  destruct (C7_success_in_range unit Ewma.sample_error Ewma.exp_model Ewma.sample_errs)
    as (_ & H & _).
  apply H; [exact Hs | vm_compute; reflexivity | vm_compute; reflexivity].
Defined.

(** * Further properties of the code *)

(** ** The EWMA node over whole runs *)

Module RunFacts.
Import F64 FloatFacts EwmaFacts Ewma EwmaChecks.

(** A moving average cut to [int64] is never negative and never above the
    larger of its two inputs. *)
Lemma ewma_i64_range (old sample : Z) (w : float) :
  0 <= old <= 2 ^ 49 -> 0 <= sample <= 2 ^ 49 ->
  (0 <=? w)%float = true -> (w <=? 1)%float = true ->
  0 <= to_i64 (ewma old sample w) <= Z.max old sample.
Proof.
  intros Ho Hs H0 H1.
  split; [|apply NodeFacts.ewma_bracket; assumption].
  destruct (unit_interval w H0 H1) as (x & Hw & Hx1).
  destruct (ewma_enclosure old sample w x Ho Hs Hw Hx1) as (v & Fv & V1 & V2).
  assert (V49 : IZR (2 ^ 49) = 562949953421312%R) by reflexivity.
  assert (V63 : IZR (2 ^ 63) = 9223372036854775808%R) by reflexivity.
  assert (Hx0 : (0 <= x)%R) by apply Hw.
  assert (Hmax : (IZR old * x + IZR sample * (1 - x) <= 562949953421312)%R).
  { assert (IZR old <= 562949953421312)%R by (rewrite <- V49; apply IZR_le; lia).
    assert (IZR sample <= 562949953421312)%R by (rewrite <- V49; apply IZR_le; lia).
    assert (IZR old * x <= 562949953421312 * x)%R by (apply Rmult_le_compat_r; lra).
    assert (IZR sample * (1 - x) <= 562949953421312 * (1 - x))%R
      by (apply Rmult_le_compat_r; lra).
    lra. }
  destruct (to_i64_nonneg _ _ Fv ltac:(lra)) as (T0 & _). exact T0.
Qed.

Section Runs.
Context {RawNode error : Type}.
Variable math_Exp : float -> float.
Variable errs : ErrPredicates error.
Variable T : Z.
Hypothesis T_nonneg : 0 <= T.
Hypothesis T_fits : T + 2 ^ 49 <= Int.max_i64.

Abbreviation client' := (@client RawNode error).

(** What every run inside the window keeps. *)
Record bounded (c : client') : Prop := {
  b_success : 0 <= success (node c) <= 1000;
  b_lag : 0 <= lag (node c) <= 2 ^ 49;
  b_closures : forall k e, closures c !! k = Some e -> T <= el_value e <= T + 2 ^ 49
}.

Lemma done_lag_window (e : Element) (now : Z) :
  T <= el_value e <= T + 2 ^ 49 -> T <= now <= T + 2 ^ 49 ->
  0 <= done_lag e now <= 2 ^ 49.
Proof using T_nonneg T_fits.
  intros He Hn. destruct (NodeFacts.done_lag_max e now) as [-> _].
  rewrite InflightFacts.i64_small; unfold Int.min_i64, Int.max_i64 in *; lia.
Qed.

Lemma bounded_step (c : client') (o : op) (ops : list op) :
  bounded c -> in_window T (o :: ops) = true ->
  ratios_ok math_Exp errs c (o :: ops) = true ->
  bounded (step math_Exp errs c o)
  /\ in_window T ops = true
  /\ ratios_ok math_Exp errs (step math_Exp errs c o) ops = true.
Proof using T_nonneg T_fits.
  intros [Hs Hl Hc] Hw Hr.
  unfold in_window in Hw. cbn [forallb] in Hw.
  apply andb_prop in Hw. destruct Hw as [Hw1 Hw2].
  apply andb_prop in Hw1. destruct Hw1 as [Hw1 Hw1'].
  apply Z.leb_le in Hw1, Hw1'.
  cbn [ratios_ok] in Hr. apply andb_prop in Hr. destruct Hr as [Hr1 Hr2].
  split; [|split; [exact Hw2 | exact Hr2]].
  destruct o as [now | k now di | now]; cbn [op_now] in *.
  - unfold step, Pick. constructor; cbn [node closures success lag]; try assumption.
    intros k e H. apply lookup_app_Some in H. destruct H as [H | [_ H]]; [eauto|].
    destruct (k - length (closures c))%nat; cbn in H; [|discriminate].
    injection H as <-. cbn. lia.
  - cbn [step]. destruct (closures c !! k) as [e|] eqn:E; [|constructor; assumption].
    apply andb_prop in Hr1. destruct Hr1 as [R0 R1].
    pose proof (done_lag_window e now (Hc k e E) ltac:(lia)) as Hraw.
    constructor; cbn [node closures DoneFunc success lag]; [| |exact Hc].
    + apply ewma_success_range; try assumption.
      destruct (done_sample_cases errs (node c) di) as [-> | ->]; lia.
    + pose proof (ewma_i64_range (lag (node c)) (done_lag e now)
                    (done_w math_Exp (node c) now) Hl Hraw R0 R1).
      lia.
  - cbn [step node closures].
    pose proof (InflightFacts.refresh_predict_fields (node c) now) as (_ & _ & _ & H1 & H2).
    constructor; cbn [node closures]; rewrite ?InflightFacts.Weight_fields;
      try assumption; congruence.
Qed.

Lemma bounded_run (ops : list op) :
  forall c : client',
    bounded c -> in_window T ops = true -> ratios_ok math_Exp errs c ops = true ->
    bounded (run math_Exp errs c ops).
Proof using T_nonneg T_fits.
  induction ops as [|o ops IH]; intros c Hb Hw Hr; [exact Hb|].
  destruct (bounded_step c o ops Hb Hw Hr) as (Hb' & Hw' & Hr').
  apply (IH _ Hb' Hw' Hr').
Qed.

End Runs.

End RunFacts.

(** X1. On a node fresh from [Build], after any sequence of [Pick],
    closure and [Weight] calls whose clock readings lie in a window of
    [2^49] ns and whose completions compute a ratio between 0 and 1, the
    stored success is in [0, 1000] and the stored lag in [0, 2^49]. *)
Theorem X1_run_keeps_success_and_lag_in_range :
  forall (RawNode error : Type) (math_Exp : float -> float)
         (errs : Ewma.ErrPredicates error)
         (ErrHandler : option (error -> bool)) (r : RawNode)
         (T : Z) (ops : list (@Ewma.op error)),
    0 <= T -> T + 2 ^ 49 <= Int.max_i64 ->
    EwmaChecks.in_window T ops = true ->
    EwmaChecks.ratios_ok math_Exp errs
      {| Ewma.node := Ewma.Build ErrHandler r; Ewma.closures := [] |} ops = true ->
    let n := Ewma.node (Ewma.run math_Exp errs
                          {| Ewma.node := Ewma.Build ErrHandler r; Ewma.closures := [] |} ops) in
    0 <= Ewma.success n <= 1000 /\ 0 <= Ewma.lag n <= 2 ^ 49.
Proof.
  intros RawNode error math_Exp errs h r T ops HT HT' Hw Hr n.
  assert (Hb : RunFacts.bounded T {| Ewma.node := Ewma.Build h r; Ewma.closures := [] |}).
  { constructor; cbn; try lia. intros k e H. rewrite lookup_nil in H. discriminate. }
  destruct (RunFacts.bounded_run math_Exp errs T HT HT' ops _ Hb Hw Hr) as [H1 H2 _].
  split; assumption.
Qed.

(** Witness of X1: the run of the examples, within a window that starts at
    1 s. *)
Lemma X1_witness :
  let ops := Ewma.first_ok ++ Ewma.second_pick
             ++ [Ewma.OpDone 1 1601000000 (Ewma.failed Ewma.ErrNet); Ewma.OpWeight 1700000000] in
  let n := Ewma.node (Ewma.sample_run Ewma.fresh ops) in
  0 <= Ewma.success n <= 1000 /\ 0 <= Ewma.lag n <= 2 ^ 49.
Proof.
  intros ops n.
  apply (X1_run_keeps_success_and_lag_in_range unit Ewma.sample_error Ewma.exp_model
           Ewma.sample_errs None tt 1000000000 ops);
    vm_compute; try reflexivity; discriminate.
Defined.

(** ** The EWMA node: the prediction refresh, [Weight], misuse *)

Module PredictFacts.
Import Ewma.

Lemma clamp_interval_bounds (avgLag : Z) :
  5000000 <= clamp_interval avgLag <= 200000000.
Proof.
  unfold clamp_interval.
  destruct (Z.ltb_spec (Z.quot avgLag 5) 5000000);
    [destruct (Z.gtb_spec 5000000 200000000) | destruct (Z.gtb_spec (Z.quot avgLag 5) 200000000)];
    lia.
Qed.

(** The counter of the scan never gains more than the entries it reads. *)
Lemma scan_count (now avgLag : Z) (l : list Element) :
  forall total count : Z,
    0 <= count -> count + Z.of_nat (length l) <= Int.max_i64 ->
    count <= snd (scan now avgLag l total count) <= count + Z.of_nat (length l).
Proof.
  induction l as [|e l IH]; intros total count H0 Hb; cbn [scan length] in *.
  - cbn. lia.
  - rewrite Nat2Z.inj_succ in *.
    destruct (Int.i64 (now - el_value e) >? avgLag).
    + rewrite (InflightFacts.i64_small (count + 1))
        by (unfold Int.min_i64, Int.max_i64 in *; lia).
      specialize (IH (Int.i64 (total + Int.i64 (now - el_value e))) (count + 1)
                    ltac:(lia) ltac:(lia)).
      lia.
    + specialize (IH total count H0 ltac:(lia)). lia.
Qed.

Section Node.
Context {RawNode error : Type}.

Abbreviation Node' := (Node RawNode error).

Lemma refresh_skipped (n : Node') (now : Z) :
  Int.i64 (now - predictTs n) <= clamp_interval (lag n) -> refresh_predict n now = n.
Proof.
  intros H. unfold refresh_predict.
  destruct (Z.gtb_spec (Int.i64 (now - predictTs n)) (clamp_interval (lag n))); [lia|].
  reflexivity.
Qed.

Lemma refresh_frame (n : Node') (now : Z) :
  let n' := refresh_predict n now in
  raw n' = raw n /\ lag n' = lag n /\ success n' = success n
  /\ inflight n' = inflight n /\ inflights n' = inflights n /\ stamp n' = stamp n
  /\ reqs n' = reqs n /\ lastPick n' = lastPick n /\ errHandler n' = errHandler n
  /\ next_elem n' = next_elem n
  /\ (predictTs n' = predictTs n \/ predictTs n' = now).
Proof.
  unfold refresh_predict.
  destruct (Int.i64 (now - predictTs n) >? clamp_interval (lag n)); [|tauto].
  destruct (scan now (lag n) (inflights n) 0 0). cbn. tauto.
Qed.

Lemma refresh_ran (n : Node') (now : Z) :
  Int.i64 (now - predictTs n) > clamp_interval (lag n) ->
  let '(total, count) := scan now (lag n) (inflights n) 0 0 in
  predictTs (refresh_predict n now) = now
  /\ predict (refresh_predict n now)
     = if count >? Z.quot (Z.of_nat (length (inflights n))) 2 + 1
       then Z.quot total count else 0.
Proof.
  intros H. unfold refresh_predict.
  destruct (Z.gtb_spec (Int.i64 (now - predictTs n)) (clamp_interval (lag n))); [|lia].
  destruct (scan now (lag n) (inflights n) 0 0). cbn. tauto.
Qed.

End Node.

End PredictFacts.

(** X2. The refresh of the prediction inside [load] is rate limited and
    needs three requests in flight: a call less than 5 ms (at most the
    clamped interval) after the last refresh leaves the node as it is; a
    refresh that runs stamps [predictTs] with the time of the call, and
    with fewer than three requests in flight it sets [predict] to 0; a
    second call at the same clock reading changes nothing more. *)
Theorem X2_predict_refresh_rate_and_threshold :
  forall (RawNode error : Type) (n : Ewma.Node RawNode error) (now : Z),
    (Int.i64 (now - Ewma.predictTs n) <= 5000000 -> snd (Ewma.load n now) = n)
    /\ (Int.i64 (now - Ewma.predictTs n) > 200000000 ->
        Ewma.predictTs (snd (Ewma.load n now)) = now
        /\ ((length (Ewma.inflights n) < 3)%nat -> Ewma.predict (snd (Ewma.load n now)) = 0))
    /\ snd (Ewma.load (snd (Ewma.load n now)) now) = snd (Ewma.load n now).
Proof.
  intros RawNode error n now. rewrite !InflightFacts.load_fields.
  pose proof (PredictFacts.clamp_interval_bounds (Ewma.lag n)) as Hc.
  split; [|split].
  - intros H. apply PredictFacts.refresh_skipped. lia.
  - intros H. pose proof (PredictFacts.refresh_ran n now ltac:(lia)) as Hr.
    pose proof (PredictFacts.scan_count now (Ewma.lag n) (Ewma.inflights n) 0 0
                  ltac:(lia)) as Hs.
    destruct (Ewma.scan now (Ewma.lag n) (Ewma.inflights n) 0 0) as [total count].
    destruct Hr as [Hr1 Hr2]. split; [exact Hr1|].
    intros Hlen. rewrite Hr2. cbn [snd] in Hs.
    specialize (Hs ltac:(unfold Int.max_i64; lia)).
    assert (Hq : Z.quot (Z.of_nat (length (Ewma.inflights n))) 2 + 1 >= count).
    { rewrite Z.quot_div_nonneg by lia.
      assert (Z.of_nat (length (Ewma.inflights n)) <= 2) by lia.
      pose proof (Z.div_pos (Z.of_nat (length (Ewma.inflights n))) 2 ltac:(lia) ltac:(lia)).
      assert (Z.of_nat (length (Ewma.inflights n)) = 2 ->
              Z.of_nat (length (Ewma.inflights n)) / 2 = 1) by (intros ->; reflexivity).
      lia. }
    destruct (Z.gtb_spec count (Z.quot (Z.of_nat (length (Ewma.inflights n))) 2 + 1));
      [lia | reflexivity].
  - destruct (Z_le_gt_dec (Int.i64 (now - Ewma.predictTs n))
                (Ewma.clamp_interval (Ewma.lag n))) as [H | H].
    + rewrite (PredictFacts.refresh_skipped n now H).
      apply PredictFacts.refresh_skipped. exact H.
    + pose proof (PredictFacts.refresh_ran n now H) as Hr.
      destruct (Ewma.scan now (Ewma.lag n) (Ewma.inflights n) 0 0) as [total count].
      destruct Hr as [Hr1 _].
      apply PredictFacts.refresh_skipped. rewrite Hr1, Z.sub_diag.
      pose proof (PredictFacts.clamp_interval_bounds
                    (Ewma.lag (Ewma.refresh_predict n now))).
      change (Int.i64 0) with 0. lia.
Qed.

(** Witness of X2: two requests in flight, both far older than the
    average lag of 1 ms. *)
Lemma X2_witness :
  let n := Ewma.node (Ewma.sample_run Ewma.fresh
                        (Ewma.first_ok ++ [Ewma.OpPick 1002000000; Ewma.OpPick 1003000000])) in
  Int.i64 (5000000000 - Ewma.predictTs n) > 200000000
  /\ (length (Ewma.inflights n) < 3)%nat
  /\ Ewma.predict (snd (Ewma.load n 5000000000)) = 0.
Proof.
  intros n.
  assert (H1 : Int.i64 (5000000000 - Ewma.predictTs n) > 200000000) by (vm_compute; reflexivity).
  assert (H2 : (length (Ewma.inflights n) < 3)%nat) by (vm_compute; lia).
  split; [exact H1|]. split; [exact H2|].
  destruct (X2_predict_refresh_rate_and_threshold unit Ewma.sample_error n 5000000000)
    as (_ & H & _).
  destruct (H H1) as [_ H3]. exact (H3 H2).
Defined.

(** X3. [Weight()] (and [load()]) writes two fields only: [predict] and
    [predictTs], the latter staying or becoming the time of the call.  The
    lag, the success, the in-flight counter and list, the stamp, the
    request counter and the last pick are as before. *)
Theorem X3_weight_frame :
  forall (RawNode error : Type) (n : Ewma.Node RawNode error) (now : Z),
    let n' := snd (Ewma.Weight n now) in
    Ewma.raw n' = Ewma.raw n /\ Ewma.lag n' = Ewma.lag n
    /\ Ewma.success n' = Ewma.success n
    /\ Ewma.inflight n' = Ewma.inflight n /\ Ewma.inflights n' = Ewma.inflights n
    /\ Ewma.stamp n' = Ewma.stamp n /\ Ewma.reqs n' = Ewma.reqs n
    /\ Ewma.lastPick n' = Ewma.lastPick n
    /\ (Ewma.predictTs n' = Ewma.predictTs n \/ Ewma.predictTs n' = now)
    /\ snd (Ewma.load n now) = n'.
Proof.
  intros RawNode error n now n'. subst n'.
  rewrite InflightFacts.Weight_fields, InflightFacts.load_fields.
  pose proof (PredictFacts.refresh_frame n now) as H. cbv zeta in H. tauto.
Qed.

(** X4. Calling a closure a second time takes nothing more off the list
    (the element is gone) but decrements [inflight] again: on a node where
    [inflights] held [inflight - 1] elements, the element of the closure
    among them, the list then holds as many elements as [inflight] says,
    one too many for the bookkeeping. *)
Theorem X4_double_done_breaks_bookkeeping :
  forall (RawNode error : Type) (math_Exp : float -> float)
         (errs : Ewma.ErrPredicates error)
         (n : Ewma.Node RawNode error) (e : Ewma.Element)
         (now1 now2 : Z) (di1 di2 : Ewma.DoneInfo error),
    let n1 := Ewma.DoneFunc math_Exp errs n e now1 di1 in
    let n2 := Ewma.DoneFunc math_Exp errs n1 e now2 di2 in
    Ewma.inflights n2 = Ewma.inflights n1
    /\ Ewma.inflight n2 = Int.i64 (Ewma.inflight n - 2)
    /\ (List.NoDup (List.map Ewma.el_id (Ewma.inflights n)) ->
        In (Ewma.el_id e) (List.map Ewma.el_id (Ewma.inflights n)) ->
        Z.of_nat (length (Ewma.inflights n)) = Ewma.inflight n - 1 ->
        Ewma.inflight n <= Int.max_i64 ->
        Z.of_nat (length (Ewma.inflights n1)) = Ewma.inflight n1 - 1
        /\ Z.of_nat (length (Ewma.inflights n2)) = Ewma.inflight n2).
Proof.
  intros RawNode error math_Exp errs n e now1 now2 di1 di2 n1 n2.
  subst n1 n2. cbn [Ewma.DoneFunc Ewma.inflights Ewma.inflight].
  assert (Hidem : Ewma.list_Remove e (Ewma.list_Remove e (Ewma.inflights n))
                  = Ewma.list_Remove e (Ewma.inflights n)).
  { unfold Ewma.list_Remove. rewrite InflightFacts.filter_filter.
    apply InflightFacts.filter_ext_eq. intros x. apply andb_diag. }
  split; [exact Hidem | split].
  - replace (Int.i64 (Ewma.inflight n - 1) - 1)
      with (Int.i64 (Ewma.inflight n + -1) + -1) by (f_equal; lia).
    rewrite InflightFacts.i64_add_l. f_equal. lia.
  - intros Hnd Hin Hlen Hfit.
    pose proof (InflightFacts.length_filter_neq (Ewma.el_id e) _ Hnd Hin) as Hl.
    rewrite <- InflightFacts.map_list_Remove, !List.length_map in Hl.
    rewrite Hidem.
    rewrite !InflightFacts.i64_small by (unfold Int.min_i64, Int.max_i64 in *; lia).
    lia.
Qed.

(** Witness of X4: the closure of the first pick of a fresh node, called
    twice. *)
Lemma X4_witness :
  let n := Ewma.node (Ewma.sample_run Ewma.fresh [Ewma.OpPick 1000000000]) in
  let e := {| Ewma.el_id := 0; Ewma.el_value := 1000000000 |} in
  let n1 := Ewma.DoneFunc Ewma.exp_model Ewma.sample_errs n e 1001000000 Ewma.ok in
  let n2 := Ewma.DoneFunc Ewma.exp_model Ewma.sample_errs n1 e 1002000000 Ewma.ok in
  Z.of_nat (length (Ewma.inflights n1)) = Ewma.inflight n1 - 1
  /\ Z.of_nat (length (Ewma.inflights n2)) = Ewma.inflight n2.
Proof.
  intros n e n1 n2.
  destruct (X4_double_done_breaks_bookkeeping unit Ewma.sample_error
              Ewma.exp_model Ewma.sample_errs n e 1001000000 1002000000 Ewma.ok Ewma.ok)
    as (_ & _ & H).
  apply H.
  - vm_compute. repeat constructor. intros [].
  - vm_compute. left. reflexivity.
  - vm_compute. reflexivity.
  - vm_compute. discriminate.
Defined.

(** ** The EWMA node before its first response, and [PickElapsed] *)

Module ColdFacts.
Import Ewma.

Section Node.
Context {RawNode error : Type}.
Variable math_Exp : float -> float.
Variable errs : ErrPredicates error.

Abbreviation client' := (@client RawNode error).

Lemma picks_cons (o : @op error) (ops : list op) :
  picks (o :: ops) = (if is_pick o then 1 else 0) + picks ops.
Proof.
  unfold picks. cbn [List.filter]. destruct (is_pick o); cbn [length]; lia.
Qed.

Lemma picks_nonneg (ops : list (@op error)) : 0 <= picks ops.
Proof. unfold picks. lia. Qed.

Lemma cold_run (ops : list op) :
  forall c : client',
    lag (node c) = 0 -> success (node c) = 1000 -> 1 <= inflight (node c) ->
    inflight (node c) + picks ops <= Int.max_i64 ->
    EwmaRuns.no_done ops = true ->
    let c' := run math_Exp errs c ops in
    lag (node c') = 0 /\ success (node c') = 1000
    /\ inflight (node c') = inflight (node c) + picks ops.
Proof.
  induction ops as [|o ops IH]; intros c Hl Hs Hi Hb Hn.
  - cbn. unfold picks. cbn. lia.
  - cbn [EwmaRuns.no_done forallb] in Hn. apply andb_prop in Hn as [Ho Hn].
    rewrite picks_cons in *. pose proof (picks_nonneg ops) as Hp.
    unfold run in *. cbn [fold_left].
    destruct o as [now | k now di | now]; cbn [is_pick] in *.
    + cbn [step Pick].
      rewrite (InflightFacts.i64_small (inflight (node c) + 1))
        by (unfold Int.min_i64, Int.max_i64 in *; lia).
      match goal with |- context [fold_left _ ops ?c0] => specialize (IH c0) end.
      cbn [node lag success inflight] in IH.
      specialize (IH Hl Hs ltac:(lia) ltac:(lia) Hn). cbv zeta in IH.
      destruct IH as (A & B & C). cbv zeta. rewrite A, B, C. lia.
    + discriminate.
    + cbn [step].
      pose proof (InflightFacts.refresh_predict_fields (node c) now)
        as (Fi & _ & _ & Fl & Fs).
      specialize (IH {| node := snd (Weight (node c) now); closures := closures c |}).
      cbn [node] in IH. rewrite InflightFacts.Weight_fields in *.
      rewrite Fi, Fl, Fs in IH.
      specialize (IH Hl Hs Hi ltac:(lia) Hn). cbv zeta in IH.
      destruct IH as (A & B & C). cbv zeta. rewrite A, B, C. lia.
Qed.

Lemma run_app (c : client') (a b : list op) :
  run math_Exp errs c (a ++ b) = run math_Exp errs (run math_Exp errs c a) b.
Proof. unfold run. apply fold_left_app. Qed.

Lemma lastPick_kept (ops : list op) :
  forall c : client',
    EwmaRuns.no_pick ops = true ->
    lastPick (node (run math_Exp errs c ops)) = lastPick (node c).
Proof.
  induction ops as [|o ops IH]; intros c Hn; [reflexivity|].
  cbn [EwmaRuns.no_pick forallb] in Hn. apply andb_prop in Hn as [Ho Hn].
  unfold run in *. cbn [fold_left]. rewrite (IH _ Hn).
  destruct o as [now | k now di | now]; [discriminate | |].
  - cbn [step]. destruct (closures c !! k); reflexivity.
  - cbn [step node]. rewrite InflightFacts.Weight_fields.
    pose proof (PredictFacts.refresh_frame (node c) now) as H. cbv zeta in H. tauto.
Qed.

End Node.

Section DirectNode.
Context {RawNode : Type}.
Variable InitialWeight : RawNode -> option Z.

Lemma direct_raw_kept (ops : list Direct.op) :
  forall n : Direct.Node RawNode,
    Direct.raw (Direct.run n ops) = Direct.raw n.
Proof.
  induction ops as [|o ops IH]; intros n; [reflexivity|].
  unfold Direct.run in *. cbn [fold_left]. rewrite IH. destruct o; reflexivity.
Qed.

Lemma direct_lastPick_kept (ops : list Direct.op) :
  forall n : Direct.Node RawNode,
    forallb EwmaRuns.direct_not_pick ops = true ->
    Direct.lastPick (Direct.run n ops) = Direct.lastPick n.
Proof.
  induction ops as [|o ops IH]; intros n Hn; [reflexivity|].
  cbn [forallb] in Hn. apply andb_prop in Hn as [Ho Hn].
  unfold Direct.run in *. cbn [fold_left]. rewrite (IH _ Hn). destruct o; [discriminate | reflexivity].
Qed.

End DirectNode.

End ColdFacts.

(** X5. Until the first closure is invoked the weight of an EWMA node does
    not depend on the clock: with [k] picks made (and any number of
    [Weight] calls) it is the binary64 quotient of 10^12 by
    10^10 * (1 + k).  For a node just built this is 100, the weight of a
    direct node that has no initial weight. *)
Theorem X5_weight_before_first_response :
  forall (RawNode error : Type) (math_Exp : float -> float)
         (errs : Ewma.ErrPredicates error)
         (ErrHandler : option (error -> bool)) (r : RawNode)
         (ops : list (@Ewma.op error)) (now : Z),
    EwmaRuns.no_done ops = true ->
    Ewma.picks ops < 1000000000 ->
    let n := Ewma.node (Ewma.run math_Exp errs
                          {| Ewma.node := Ewma.Build ErrHandler r; Ewma.closures := [] |} ops) in
    fst (Ewma.Weight n now)
    = (F64.of_Z 1000000000000 / F64.of_Z (10000000000 * (1 + Ewma.picks ops)))%float
    /\ fst (Ewma.Weight (Ewma.Build ErrHandler r) now)
       = Direct.Weight (fun _ : RawNode => None) (Direct.Build r).
Proof.
  intros RawNode error math_Exp errs ErrHandler r ops now Hn Hp n.
  assert (Hcold : forall (m : Ewma.Node RawNode error) (k : Z),
             Ewma.lag m = 0 -> Ewma.success m = 1000 -> Ewma.inflight m = 1 + k ->
             0 <= k < 1000000000 ->
             fst (Ewma.Weight m now)
             = (F64.of_Z 1000000000000 / F64.of_Z (10000000000 * (1 + k)))%float).
  { intros m k Hl Hs Hi Hk. unfold Ewma.Weight.
    pose proof (NodeFacts.load_spec m now) as H. cbv zeta in H. rewrite H.
    cbn [fst]. rewrite Hl. cbn [Z.eqb]. unfold Ewma.weight_of, Ewma.health.
    rewrite Hs, Hi. unfold Ewma.penalty, Ewma.second.
    rewrite (EwmaFacts.u64_small (1 + k)) by lia.
    rewrite (EwmaFacts.u64_small (10000000000 * (1 + k))) by lia.
    reflexivity. }
  split.
  - pose proof (ColdFacts.cold_run math_Exp errs ops
                  {| Ewma.node := Ewma.Build ErrHandler r; Ewma.closures := [] |}
                  eq_refl eq_refl) as H.
    cbn [Ewma.node Ewma.Build Ewma.inflight] in H.
    pose proof (ColdFacts.picks_nonneg ops) as H0.
    specialize (H ltac:(lia) ltac:(unfold Int.max_i64; lia) Hn). cbv zeta in H.
    destruct H as (A & B & C).
    apply Hcold; [exact A | exact B | exact C | lia].
  - rewrite (Hcold (Ewma.Build ErrHandler r) 0 eq_refl eq_refl eq_refl ltac:(lia)).
    vm_compute. reflexivity.
Qed.

(** Witness of X5: three picks, the weight is 25. *)
Lemma X5_witness :
  fst (Ewma.Weight
         (Ewma.node (Ewma.sample_run Ewma.fresh
                       [Ewma.OpPick 5; Ewma.OpPick 700000000; Ewma.OpWeight 800000000;
                        Ewma.OpPick 900000000])) 12345678901234)
  = 25%float.
Proof.
  destruct (X5_weight_before_first_response unit Ewma.sample_error
              Ewma.exp_model Ewma.sample_errs None tt
              [Ewma.OpPick 5; Ewma.OpPick 700000000; Ewma.OpWeight 800000000;
               Ewma.OpPick 900000000] 12345678901234 eq_refl eq_refl) as [H _].
  etransitivity; [exact H|]. vm_compute. reflexivity.
Defined.

(** X6. [PickElapsed] measures the time since the last [Pick]: closures
    and [Weight] calls made after that pick do not reset it.  A node that
    was never picked reports the clock reading itself. *)
Theorem X6_pick_elapsed_since_last_pick :
  forall (RawNode error : Type) (math_Exp : float -> float)
         (errs : Ewma.ErrPredicates error)
         (c : @Ewma.client RawNode error)
         (before after : list (@Ewma.op error)) (t0 t1 : Z),
    EwmaRuns.no_pick after = true ->
    Ewma.PickElapsed
      (Ewma.node (Ewma.run math_Exp errs c (before ++ Ewma.OpPick t0 :: after))) t1
    = Int.i64 (t1 - t0)
    /\ (EwmaRuns.no_pick before = true -> Ewma.lastPick (Ewma.node c) = 0 ->
        Ewma.PickElapsed (Ewma.node (Ewma.run math_Exp errs c before)) t1 = Int.i64 t1).
Proof.
  intros RawNode error math_Exp errs c before after t0 t1 Ha. split.
  - rewrite ColdFacts.run_app. unfold Ewma.PickElapsed.
    change (Ewma.OpPick t0 :: after) with ([Ewma.OpPick t0] ++ after).
    rewrite ColdFacts.run_app, (ColdFacts.lastPick_kept _ _ _ _ Ha). reflexivity.
  - intros Hb H0. unfold Ewma.PickElapsed.
    rewrite (ColdFacts.lastPick_kept _ _ _ _ Hb), H0, Z.sub_0_r. reflexivity.
Qed.

(** Witness of X6. *)
Lemma X6_witness :
  Ewma.PickElapsed
    (Ewma.node (Ewma.sample_run Ewma.fresh
                  (Ewma.first_ok ++ Ewma.OpPick 1599000000
                     :: [Ewma.OpDone 1 1600000000 Ewma.ok; Ewma.OpWeight 1700000000])))
    1800000000
  = 201000000.
Proof.
  destruct (X6_pick_elapsed_since_last_pick unit Ewma.sample_error
              Ewma.exp_model Ewma.sample_errs Ewma.fresh Ewma.first_ok
              [Ewma.OpDone 1 1600000000 Ewma.ok; Ewma.OpWeight 1700000000]
              1599000000 1800000000 eq_refl) as [H _].
  exact H.
Defined.

(** X7. A direct node never changes its weight or its raw node: after any
    sequence of picks and closures [Weight] is what it was for the node
    just built, the initial weight of the raw node, or 100 when it has
    none; below 2^53 that weight is carried exactly by the float.
    [PickElapsed] is the time since the last pick. *)
Theorem X7_direct_weight_constant :
  forall (RawNode : Type) (InitialWeight : RawNode -> option Z) (r : RawNode)
         (ops after : list Direct.op) (t0 t1 : Z),
    let n := Direct.run (Direct.Build r) ops in
    Direct.Raw n = r
    /\ Direct.Weight InitialWeight n
       = F64.of_Z (match InitialWeight r with Some w => w | None => 100 end)
    /\ (forall w, InitialWeight r = Some w -> 0 <= w < 2 ^ 53 ->
        F64.to_i64 (Direct.Weight InitialWeight n) = w)
    /\ (forallb EwmaRuns.direct_not_pick after = true ->
        Direct.PickElapsed (Direct.run n (Direct.OpPick t0 :: after)) t1 = Int.i64 (t1 - t0)).
Proof.
  intros RawNode InitialWeight r ops after t0 t1 n. subst n.
  unfold Direct.Raw, Direct.Weight. rewrite ColdFacts.direct_raw_kept.
  cbn [Direct.Build Direct.raw].
  split; [reflexivity|]. split; [destruct (InitialWeight r); reflexivity|]. split.
  - intros w -> Hw. apply EwmaFacts.to_i64_exact.
    + apply FloatFacts.of_Z_exact. exact Hw.
    + lia.
  - intros Ha. unfold Direct.PickElapsed.
    change (Direct.run (Direct.run (Direct.Build r) ops) (Direct.OpPick t0 :: after))
      with (Direct.run (Direct.Pick (Direct.run (Direct.Build r) ops) t0) after).
    rewrite (ColdFacts.direct_lastPick_kept _ _ Ha). reflexivity.
Qed.

(** Witness of X7: a raw node of initial weight 7, picked at 10 and asked
    at 25. *)
Lemma X7_witness :
  let n := Direct.run (Direct.Build tt) [Direct.OpPick 3; Direct.OpDone] in
  F64.to_i64 (Direct.Weight (fun _ : unit => Some 7) n) = 7
  /\ Direct.PickElapsed (Direct.run n [Direct.OpPick 10; Direct.OpDone]) 25 = 15.
Proof.
  intros n.
  destruct (X7_direct_weight_constant unit (fun _ => Some 7) tt
              [Direct.OpPick 3; Direct.OpDone] [Direct.OpDone] 10 25)
    as (_ & _ & H1 & H2).
  split.
  - apply (H1 7 eq_refl). lia.
  - apply (H2 eq_refl).
Defined.

(** ** The default selector: results, filters, [Apply] *)

Module SelectFacts.
Import Selector.

Section Facts.
Context {RawNode WeightedNode DoneFunc error Ctx World : Type}.

Abbreviation NodeI' := (@NodeI RawNode WeightedNode).

Lemma assert_weighted_map (cs : list WeightedNode) :
  assert_weighted (List.map (@Weighted RawNode WeightedNode) cs) = Some cs.
Proof. induction cs as [|c cs IH]; cbn; [reflexivity | rewrite IH; reflexivity]. Qed.

Lemma assert_weighted_Some (l : list NodeI') (cs : list WeightedNode) :
  assert_weighted l = Some cs -> l = List.map Weighted cs.
Proof.
  revert cs. induction l as [|[w|r] l IH]; intros cs H; cbn in H.
  - injection H as <-. reflexivity.
  - destruct (assert_weighted l) as [cs'|]; [|discriminate].
    injection H as <-. cbn. rewrite (IH cs' eq_refl). reflexivity.
  - discriminate.
Qed.

Lemma assert_weighted_Plain (l : list NodeI') (r : RawNode) :
  Plain r ∈ l -> assert_weighted l = None.
Proof.
  induction l as [|[w|r'] l IH]; intros H.
  - inversion H.
  - cbn. rewrite IH; [reflexivity|]. inversion H; subst; assumption.
  - reflexivity.
Qed.

Lemma run_filters_narrowing (ctx : Ctx) (fs : list (@NodeFilter RawNode WeightedNode Ctx)) :
  Forall (SelectorBuild.narrowing ctx) fs ->
  forall l, run_filters ctx fs l ⊆ l.
Proof.
  induction 1 as [|f fs Hf _ IH]; intros l; cbn; [reflexivity|].
  unfold run_filters in IH. etransitivity; [apply IH | apply Hf].
Qed.

Lemma all_weighted (l : list NodeI') (ns : list WeightedNode) :
  l ⊆ List.map Weighted ns ->
  exists cs, l = List.map Weighted cs /\ cs ⊆ ns.
Proof.
  induction l as [|x l IH]; intros H.
  - exists []. split; [reflexivity | apply list_subseteq_nil].
  - destruct IH as (cs & -> & Hcs).
    { intros y Hy. apply H. right. exact Hy. }
    assert (Hx : x ∈ List.map Weighted ns) by (apply H; left).
    apply list_elem_of_fmap in Hx as (w & -> & Hw).
    exists (w :: cs). split; [reflexivity|].
    intros y Hy. inversion Hy; subst; [exact Hw | apply Hcs; assumption].
Qed.

End Facts.

End SelectFacts.

(** X8. Whatever [Select] returns keeps the contract of the interface for
    the node: the error is nil exactly when a node is returned.  With an
    error there is no [DoneFunc] either and the peer of the context is not
    written; without one the [DoneFunc] is the balancer's, and the peer,
    when the context carries one, receives the selected node. *)
Theorem X8_select_result_contract :
  forall (RawNode WeightedNode DoneFunc error Ctx World : Type)
         (ErrNoAvailable : error) (Raw : WeightedNode -> RawNode) (has_peer : Ctx -> bool)
         (d : @Selector.Default RawNode WeightedNode DoneFunc error Ctx World)
         (ctx : Ctx) (opts : list Selector.SelectOption) (s s' : World)
         (r : Selector.SelectResult),
    Selector.Select ErrNoAvailable Raw has_peer d ctx opts s = (Selector.Returned r, s') ->
    (Selector.err r = None <-> Selector.selected r <> None)
    /\ (Selector.err r <> None ->
        Selector.done r = None /\ Selector.peer_Node r = None)
    /\ Selector.peer_Node r
       = (if has_peer ctx then Selector.selected r else None).
Proof.
  intros RawNode WeightedNode DoneFunc error Ctx World ErrNoAvailable Raw has_peer
         d ctx opts s s' r H.
  unfold Selector.Select in H.
  assert (Hna : forall r0 : @Selector.SelectResult RawNode DoneFunc error,
             r0 = Selector.no_available ErrNoAvailable ->
             (Selector.err r0 = None <-> Selector.selected r0 <> None)
             /\ (Selector.err r0 <> None ->
                 Selector.done r0 = None /\ Selector.peer_Node r0 = None)
             /\ Selector.peer_Node r0
                = (if has_peer ctx then Selector.selected r0 else None)).
  { intros r0 ->. cbn. repeat split; try congruence; destruct (has_peer ctx); reflexivity. }
  destruct (Selector.nodes d) as [ns|].
  2: { injection H as <- _. apply Hna. reflexivity. }
  destruct (Selector.candidates_of ctx (Selector.apply_options opts) ns) as [cs|];
    [|discriminate].
  destruct (length cs =? 0)%nat.
  { injection H as <- _. apply Hna. reflexivity. }
  destruct (Selector.balancer d ctx cs s) as [pr s1].
  destruct (Selector.picked_err pr) as [e|].
  { injection H as <- _. cbn. repeat split; try congruence.
    destruct (has_peer ctx); reflexivity. }
  destruct (Selector.picked pr) as [wn|]; [|discriminate].
  injection H as <- _. cbn. repeat split; try congruence.
Qed.

(** Witness of X8. *)
Lemma X8_witness :
  let r := {| Selector.selected := Some "a"%string; Selector.done := Some tt;
              Selector.err := @None string; Selector.peer_Node := Some "a"%string |} in
  Selector.peer_Node r = Selector.selected r.
Proof.
  intros r.
  destruct (X8_select_result_contract string string unit string unit nat
              "none"%string (fun w => w) (fun _ => true)
              (Selector.sample_default (Some ["a"; "b"]%string)) tt [] 0%nat 1%nat r eq_refl)
    as (_ & _ & H).
  exact H.
Defined.

(** X9. Filters that hand back only nodes they were given never make
    [Select] panic at the type assertion: the candidates are weighted nodes
    of the stored set, and [Select] answers [ErrNoAvailable] when none is
    left and asks the balancer for these candidates otherwise.  A filter
    chain that yields a node of another type makes [Select] panic, before
    the balancer is called. *)
Theorem X9_select_filters :
  forall (RawNode WeightedNode DoneFunc error Ctx World : Type)
         (ErrNoAvailable : error) (Raw : WeightedNode -> RawNode) (has_peer : Ctx -> bool)
         (d : @Selector.Default RawNode WeightedNode DoneFunc error Ctx World)
         (ctx : Ctx) (opts : list Selector.SelectOption) (s : World)
         (ns : list WeightedNode),
    Selector.nodes d = Some ns ->
    let fs := Selector.NodeFilters (Selector.apply_options opts) in
    (Forall (SelectorBuild.narrowing ctx) fs ->
     exists cs,
       cs ⊆ ns
       /\ Selector.candidates_of ctx (Selector.apply_options opts) ns = Some cs
       /\ Selector.Select ErrNoAvailable Raw has_peer d ctx opts s
          = match cs with
            | [] => (Selector.Returned (Selector.no_available ErrNoAvailable), s)
            | _ => (Selector.propagate Raw has_peer ctx (fst (Selector.balancer d ctx cs s)),
                    snd (Selector.balancer d ctx cs s))
            end)
    /\ (forall r, Selector.Plain r ∈ Selector.run_filters ctx fs (List.map Selector.Weighted ns) ->
        Selector.Select ErrNoAvailable Raw has_peer d ctx opts s = (Selector.Panicked, s)).
Proof.
  intros RawNode WeightedNode DoneFunc error Ctx World ErrNoAvailable Raw has_peer
         d ctx opts s ns Hn fs. split.
  - intros Hf.
    assert (Hc : exists cs, cs ⊆ ns
               /\ Selector.candidates_of ctx (Selector.apply_options opts) ns = Some cs).
    { unfold Selector.candidates_of. fold fs.
      destruct (0 <? length fs)%nat.
      - destruct (SelectFacts.all_weighted
                    (Selector.run_filters ctx fs (List.map Selector.Weighted ns)) ns)
          as (cs & E & Hcs).
        + apply SelectFacts.run_filters_narrowing. exact Hf.
        + exists cs. split; [exact Hcs|]. rewrite E. apply SelectFacts.assert_weighted_map.
      - exists ns. split; [reflexivity | reflexivity]. }
    destruct Hc as (cs & Hcs & Hc). exists cs. split; [exact Hcs|]. split; [exact Hc|].
    apply (SelectorFacts.Select_candidates ErrNoAvailable Raw has_peer d ctx opts s ns cs Hn Hc).
  - intros r Hr. unfold Selector.Select. rewrite Hn.
    unfold Selector.candidates_of. fold fs.
    destruct fs as [|f fs'] eqn:Efs.
    + cbn in Hr. apply list_elem_of_fmap in Hr as (w & Hw & _). discriminate.
    + cbn [length Nat.ltb Nat.leb].
      rewrite (SelectFacts.assert_weighted_Plain _ r Hr). reflexivity.
Qed.

(** Witness of X9: a filter that keeps the nodes whose address starts with
    [a]. *)
Lemma X9_witness :
  exists cs : list string,
    cs ⊆ ["a1"; "b1"; "a2"]%string
    /\ Selector.candidates_of tt
         (Selector.apply_options [Selector.with_filters [SelectorBuild.by_prefix "a"]])
         ["a1"; "b1"; "a2"]%string
       = Some cs.
Proof.
  destruct (X9_select_filters string string unit string unit nat
              "none"%string (fun w => w) (fun _ => false)
              (Selector.sample_default (Some ["a1"; "b1"; "a2"]%string)) tt
              [Selector.with_filters [SelectorBuild.by_prefix "a"]] 0%nat
              ["a1"; "b1"; "a2"]%string eq_refl) as [H _].
  destruct H as (cs & Hs & Hc & _).
  - repeat constructor. intros l x Hx. unfold SelectorBuild.by_prefix in Hx.
    apply list_elem_of_In in Hx. apply List.filter_In in Hx as [Hx _].
    apply list_elem_of_In. exact Hx.
  - exists cs. split; [exact Hs | exact Hc].
Defined.

(** X10. [Apply] replaces the stored node set, it does not merge: after two
    calls only the second list counts, and every node of it is built
    afresh.  A selector just built, and one given the empty list, answer
    [ErrNoAvailable] without asking the balancer; after [Apply] of a
    non-empty list a [Select] without filters asks the balancer once, for
    the weighted nodes built from that list, in its order. *)
Theorem X10_apply_then_select :
  forall (RawNode WeightedNode DoneFunc error Ctx World : Type)
         (ErrNoAvailable : error) (Raw : WeightedNode -> RawNode) (has_peer : Ctx -> bool)
         (db : @SelectorBuild.DefaultBuilder RawNode WeightedNode DoneFunc error Ctx World)
         (d : @Selector.Default RawNode WeightedNode DoneFunc error Ctx World)
         (ctx : Ctx) (opts : list Selector.SelectOption) (s : World)
         (a b : list RawNode),
    let Sel := Selector.Select ErrNoAvailable Raw has_peer in
    Selector.Apply (Selector.Apply d a) b = Selector.Apply d b
    /\ Sel (SelectorBuild.Build db) ctx opts s
       = (Selector.Returned (Selector.no_available ErrNoAvailable), s)
    /\ Sel (Selector.Apply d []) ctx [] s
       = (Selector.Returned (Selector.no_available ErrNoAvailable), s)
    /\ (b <> [] ->
        Sel (Selector.Apply (Selector.Apply d a) b) ctx [] s
        = (Selector.propagate Raw has_peer ctx
             (fst (Selector.balancer d ctx (List.map (Selector.NodeBuilder d) b) s)),
           snd (Selector.balancer d ctx (List.map (Selector.NodeBuilder d) b) s))).
Proof.
  intros RawNode WeightedNode DoneFunc error Ctx World ErrNoAvailable Raw has_peer
         db d ctx opts s a b Sel. subst Sel.
  split; [reflexivity|]. split; [reflexivity|]. split; [reflexivity|].
  intros Hb.
  rewrite (SelectorFacts.Select_candidates ErrNoAvailable Raw has_peer
             (Selector.Apply (Selector.Apply d a) b) ctx [] s
             (List.map (Selector.NodeBuilder d) b) (List.map (Selector.NodeBuilder d) b)
             eq_refl eq_refl).
  destruct b; [congruence | reflexivity].
Qed.

(** Witness of X10. *)
Lemma X10_witness :
  fst (Selector.Select "none"%string (fun w : string => w) (fun _ : unit => false)
         (Selector.Apply (Selector.Apply (Selector.sample_default None) ["x"%string])
            ["y"; "z"]%string) tt [] 0%nat)
  = Selector.Returned {| Selector.selected := Some "y"%string; Selector.done := Some tt;
                         Selector.err := None; Selector.peer_Node := None |}.
Proof.
  destruct (X10_apply_then_select string string unit string unit nat
              "none"%string (fun w => w) (fun _ => false)
              {| SelectorBuild.Node := fun r => r;
                 SelectorBuild.Balancer_Build := fun _ => Selector.first_balancer |}
              (Selector.sample_default None) tt [] 0%nat ["x"%string] ["y"; "z"]%string)
    as (_ & _ & _ & H).
  rewrite H by discriminate. reflexivity.
Defined.

(** ** The resolver: where nodes come from, and its two loops *)

Module LoopFacts.
Import Registry Resolver ResolverLoops.

Section Facts.
Context {Node error : Type}.
Variable Scheme : string -> bool -> string.
Variable ParseEndpoint : list string -> string -> string * option error.
Variable Subset : string -> list ServiceInstance -> Z -> list ServiceInstance.
Variable NewNode : string -> string -> ServiceInstance -> Node.
Variable is_Canceled : error -> bool.

Abbreviation update' := (update Scheme ParseEndpoint Subset NewNode).
Abbreviation effective' := (effective_nodes Scheme ParseEndpoint Subset NewNode).
Abbreviation watch' := (watch Scheme ParseEndpoint Subset NewNode is_Canceled).
Abbreviation bootstrap' := (bootstrap Scheme ParseEndpoint Subset NewNode).


Lemma update_refused (r : resolver) (s : list ServiceInstance) :
  fst (update' r s) = false ->
  List.filter (@is_Apply Node) (snd (update' r s)) = [].
Proof.
  rewrite ResolverFacts.update_unfold.
  destruct (effective' r s); cbn [fst snd]; [|discriminate].
  intros _. apply ResolverFacts.reduced_calls.
Qed.

Lemma update_accepted (r : resolver) (s : list ServiceInstance) :
  fst (update' r s) = true ->
  List.filter (@is_Apply Node) (snd (update' r s)) = [Call_Apply (effective' r s)].
Proof.
  rewrite ResolverFacts.update_unfold.
  destruct (effective' r s) eqn:E; cbn [fst snd]; [discriminate|].
  intros _. rewrite List.filter_app, ResolverFacts.reduced_calls. reflexivity.
Qed.

Lemma watch_app (r : resolver) (pre post : list next_result) :
  no_cancel is_Canceled pre = true ->
  watch' r (pre ++ post) = (fst (watch' r post), snd (watch' r pre) ++ snd (watch' r post)).
Proof.
  induction pre as [|x pre IH]; intros H.
  - cbn. destruct (watch' r post); reflexivity.
  - cbn [no_cancel forallb] in H. apply andb_prop in H as [Hx H].
    specialize (IH H). cbn [app watch]. destruct x as [s | e].
    + destruct (update' r s) as [b calls]. rewrite IH.
      destruct (watch' r pre) as [b' calls']. cbn [fst snd].
      rewrite List.app_assoc. reflexivity.
    + destruct (is_Canceled e); [discriminate | exact IH].
Qed.

Lemma watch_refused (r : resolver) (post : list next_result) :
  all_refused Scheme ParseEndpoint Subset NewNode r post ->
  List.filter (@is_Apply Node) (snd (watch' r post)) = [].
Proof.
  induction 1 as [|x post Hx _ IH]; [reflexivity|].
  cbn [watch]. destruct x as [s | e].
  - pose proof (update_refused r s Hx) as Hu.
    destruct (update' r s) as [b calls]. destruct (watch' r post) as [b' calls'].
    cbn [fst snd] in *. rewrite List.filter_app, Hu, IH. reflexivity.
  - destruct (is_Canceled e); [reflexivity | exact IH].
Qed.

(** Replaying calls depends on the [Apply] calls among them only. *)
Lemma replay_filter {R : Type} (Apply : R -> list Node -> R) (calls : list call) (s : R) :
  replay Apply calls s = replay Apply (List.filter (@is_Apply Node) calls) s.
Proof.
  unfold replay. revert s. induction calls as [|c calls IH]; intros s; [reflexivity|].
  destruct c; cbn; apply IH.
Qed.

End Facts.

End LoopFacts.



(** X12. The goroutine of the blocking phase of [newResolver] calls
    [Apply] exactly once when it reports success, and not at all when it
    reports an error or still waits.  It reports success at the first
    snapshot [update] accepts, with the node set of that snapshot, provided
    every earlier result was a snapshot [update] refused; it reports the
    first error of [watcher.Next] met before such a snapshot. *)
Theorem X12_bootstrap_applies_once :
  forall (Node error : Type)
         (Scheme : string -> bool -> string)
         (ParseEndpoint : list string -> string -> string * option error)
         (Subset : string -> list Registry.ServiceInstance -> Z -> list Registry.ServiceInstance)
         (NewNode : string -> string -> Registry.ServiceInstance -> Node)
         (r : Resolver.resolver) (results : list (@ResolverLoops.next_result error)),
    let upd := Resolver.update Scheme ParseEndpoint Subset NewNode r in
    let out := ResolverLoops.bootstrap Scheme ParseEndpoint Subset NewNode r results in
    let applies := List.filter Resolver.is_Apply (snd (fst out)) in
    exists pre : list (list Registry.ServiceInstance),
      Forall (fun s => fst (upd s) = false) pre
      /\ match fst (fst out) with
         | Some None =>
             exists s, results = List.map ResolverLoops.Next_ok pre
                                   ++ ResolverLoops.Next_ok s :: snd out
                       /\ fst (upd s) = true
                       /\ applies = [Resolver.Call_Apply
                                       (Resolver.effective_nodes Scheme ParseEndpoint Subset
                                          NewNode r s)]
         | Some (Some e) =>
             results = List.map ResolverLoops.Next_ok pre
                         ++ ResolverLoops.Next_err e :: snd out
             /\ applies = []
         | None =>
             results = List.map ResolverLoops.Next_ok pre /\ snd out = [] /\ applies = []
         end.
Proof.
  intros Node error Scheme ParseEndpoint Subset NewNode r results upd out applies.
  subst out applies.
  induction results as [|x results IH].
  - exists []. cbn. repeat split. constructor.
  - destruct x as [s | e].
    + cbn [ResolverLoops.bootstrap].
      pose proof (LoopFacts.update_refused Scheme ParseEndpoint Subset NewNode r s) as Hr.
      pose proof (LoopFacts.update_accepted Scheme ParseEndpoint Subset NewNode r s) as Ha.
      fold upd in Hr, Ha.
      change (Resolver.update Scheme ParseEndpoint Subset NewNode r s) with (upd s).
      destruct (upd s) as [[|] calls] eqn:Eu; cbn [fst snd] in *.
      * exists []. split; [constructor|]. exists s. cbn [List.map app].
        rewrite Eu. cbn [fst]. repeat split. apply Ha. reflexivity.
      * destruct IH as (pre & Hpre & IH).
        destruct (ResolverLoops.bootstrap Scheme ParseEndpoint Subset NewNode r results)
          as [[res calls'] rest']. cbn [fst snd] in *.
        exists (s :: pre). split; [constructor; [rewrite Eu; reflexivity | exact Hpre]|].
        rewrite List.filter_app, (Hr eq_refl). cbn [app List.map].
        destruct res as [[e|]|].
        -- destruct IH as [-> IH]. split; [reflexivity | exact IH].
        -- destruct IH as (s' & -> & IH). exists s'. split; [reflexivity | exact IH].
        -- destruct IH as (-> & IH). split; [reflexivity | exact IH].
    + exists []. cbn. repeat split. constructor.
Qed.

(** X13. The watch loop of [newResolver] feeds every snapshot to [update]
    until [watcher.Next] reports the cancellation of the context; other
    errors do not stop it.  On a default selector the outcome is that of
    the last snapshot [update] accepted: its node set replaces whatever
    earlier snapshots stored, and refused snapshots after it leave it in
    place.  Results that follow the cancellation are never read. *)
Theorem X13_watch_last_accepted_snapshot_wins :
  forall (RawNode WeightedNode DoneFunc error Ctx World : Type)
         (Scheme : string -> bool -> string)
         (ParseEndpoint : list string -> string -> string * option error)
         (Subset : string -> list Registry.ServiceInstance -> Z -> list Registry.ServiceInstance)
         (NewNode : string -> string -> Registry.ServiceInstance -> RawNode)
         (is_Canceled : error -> bool)
         (r : Resolver.resolver)
         (d : @Selector.Default RawNode WeightedNode DoneFunc error Ctx World)
         (pre post : list (@ResolverLoops.next_result error))
         (s : list Registry.ServiceInstance),
    let watch := ResolverLoops.watch Scheme ParseEndpoint Subset NewNode is_Canceled r in
    ResolverLoops.no_cancel is_Canceled pre = true ->
    (fst (Resolver.update Scheme ParseEndpoint Subset NewNode r s) = true ->
     ResolverLoops.all_refused Scheme ParseEndpoint Subset NewNode r post ->
     Resolver.replay Selector.Apply (snd (watch (pre ++ ResolverLoops.Next_ok s :: post))) d
     = Selector.Apply d (Resolver.effective_nodes Scheme ParseEndpoint Subset NewNode r s))
    /\ (forall e rest, is_Canceled e = true ->
        watch (pre ++ ResolverLoops.Next_err e :: rest) = (true, snd (watch pre)))
    /\ fst (watch pre) = false.
Proof.
  intros RawNode WeightedNode DoneFunc error Ctx World Scheme ParseEndpoint Subset NewNode
         is_Canceled r d pre post s watch Hpre.
  subst watch. split; [|split].
  - intros Hs Hpost.
    rewrite (LoopFacts.watch_app _ _ _ _ _ r pre _ Hpre). cbn [snd].
    rewrite ResolverFacts.replay_app.
    cbn [ResolverLoops.watch].
    pose proof (LoopFacts.update_accepted Scheme ParseEndpoint Subset NewNode r s Hs) as Ha.
    pose proof (LoopFacts.watch_refused Scheme ParseEndpoint Subset NewNode is_Canceled
                  r post Hpost) as Hp.
    destruct (Resolver.update Scheme ParseEndpoint Subset NewNode r s) as [b calls].
    destruct (ResolverLoops.watch Scheme ParseEndpoint Subset NewNode is_Canceled r post)
      as [b' calls'].
    cbn [fst snd] in *.
    rewrite (LoopFacts.replay_filter Selector.Apply (calls ++ calls')).
    rewrite List.filter_app, Ha, Hp. cbn.
    set (d' := Resolver.replay Selector.Apply _ d).
    assert (Hd : Selector.NodeBuilder d' = Selector.NodeBuilder d
                 /\ Selector.balancer d' = Selector.balancer d).
    { subst d'. generalize (snd (ResolverLoops.watch Scheme ParseEndpoint Subset NewNode
                                  is_Canceled r pre)).
      intros l. revert d. induction l as [|c l IH]; intros d; [split; reflexivity|].
      destruct c; cbn; [apply IH|].
      destruct (IH (Selector.Apply d nodes)) as [A B]. unfold Resolver.replay in A, B.
      rewrite A, B. split; reflexivity. }
    destruct Hd as [A B]. unfold Selector.Apply. rewrite A, B. reflexivity.
  - intros e rest He.
    rewrite (LoopFacts.watch_app _ _ _ _ _ r pre _ Hpre). cbn [ResolverLoops.watch].
    rewrite He. cbn [fst snd]. rewrite List.app_nil_r. reflexivity.
  - clear s post. induction pre as [|x pre IH]; [reflexivity|].
    cbn [ResolverLoops.no_cancel forallb] in Hpre. apply andb_prop in Hpre as [Hx Hpre].
    cbn [ResolverLoops.watch]. destruct x as [s | e].
    + destruct (Resolver.update Scheme ParseEndpoint Subset NewNode r s).
      specialize (IH Hpre).
      destruct (ResolverLoops.watch Scheme ParseEndpoint Subset NewNode is_Canceled r pre).
      exact IH.
    + destruct (is_Canceled e); [discriminate | exact (IH Hpre)].
Qed.

(** Witness of X13: a snapshot, an error that is not the cancellation, the
    snapshot that counts, and an empty snapshot. *)
Lemma X13_witness :
  let d := {| Selector.NodeBuilder := fun n : string * string * string => n;
              Selector.balancer :=
                fun (_ : unit) (_ : list (string * string * string)) (w : unit) =>
                  ({| Selector.picked := None; Selector.picked_done := @None unit;
                      Selector.picked_err := Some "none"%string |}, w);
              Selector.nodes := None |} in
  let r := {| Resolver.selecterKey := "k"; Resolver.subsetSize := 0;
              Resolver.insecure := true |} in
  Selector.nodes
    (Resolver.replay Selector.Apply
       (snd (ResolverLoops.watch Resolver.sample_Scheme Resolver.sample_ParseEndpoint
               Resolver.sample_Subset Resolver.sample_NewNode (String.eqb "canceled") r
               ([ResolverLoops.Next_ok [Resolver.sample_instance "a" ["http://h1:80"]];
                 ResolverLoops.Next_err "timeout"%string]
                  ++ ResolverLoops.Next_ok [Resolver.sample_instance "b" ["http://h2:80"]]
                  :: [ResolverLoops.Next_ok []]))) d)
  = Some [("http"%string, "h2:80"%string, "b"%string)].
Proof.
  intros d r.
  destruct (X13_watch_last_accepted_snapshot_wins _ _ _ _ _ _
              Resolver.sample_Scheme Resolver.sample_ParseEndpoint
              Resolver.sample_Subset Resolver.sample_NewNode (String.eqb "canceled") r d
              [ResolverLoops.Next_ok [Resolver.sample_instance "a" ["http://h1:80"]];
               ResolverLoops.Next_err "timeout"%string]
              [ResolverLoops.Next_ok []]
              [Resolver.sample_instance "b" ["http://h2:80"]] eq_refl) as [H _].
  rewrite H.
  - reflexivity.
  - reflexivity.
  - repeat constructor.
Defined.

Module TargetFacts.
Import ResolverLoops.




End TargetFacts.



(** ** [ServiceInstance.Equal]: what it decides *)

Module EqualFacts.
Import Registry.

Lemma endpoints_eqb_eq (a b : list string) :
  length a = length b -> (endpoints_eqb a b = true <-> a = b).
Proof.
  revert b. induction a as [|x a IH]; intros [|y b] Hl; try discriminate.
  - split; reflexivity.
  - cbn [endpoints_eqb]. injection Hl as Hl.
    destruct (String.eqb_spec x y) as [-> | Hne].
    + rewrite (IH b Hl). split; [intros ->; reflexivity | intros H; injection H; auto].
    + split; [discriminate | intros H; injection H; intros; contradiction].
Qed.

Lemma metadata_eqb_spec (a b : gmap string string) :
  metadata_eqb a b = true <-> (forall k v, a !! k = Some v -> md_get b k = v).
Proof.
  unfold metadata_eqb. rewrite List.forallb_forall. split.
  - intros H k v Hk. apply elem_of_map_to_list, list_elem_of_In in Hk.
    specialize (H (k, v) Hk). cbn in H. apply String.eqb_eq in H. symmetry. exact H.
  - intros H [k v] Hin. apply list_elem_of_In, elem_of_map_to_list in Hin.
    cbn. apply String.eqb_eq. symmetry. apply H. exact Hin.
Qed.

Lemma sort_Strings_eq (a b : list string) :
  sort_Strings a = sort_Strings b <-> a ≡ₚ b.
Proof.
  split.
  - intros H. rewrite <- (RegistryFacts.sort_Strings_Permutation a), H.
    apply RegistryFacts.sort_Strings_Permutation.
  - intros H. apply (Sorted_unique String.le);
      [apply RegistryFacts.sort_Strings_Sorted | apply RegistryFacts.sort_Strings_Sorted |].
    rewrite !RegistryFacts.sort_Strings_Permutation. exact H.
Qed.

Lemma sort_Strings_length (a : list string) : length (sort_Strings a) = length a.
Proof. apply Permutation_length, RegistryFacts.sort_Strings_Permutation. Qed.

(** What [Equal] decides on two instances of the heap. *)
Definition same (si st : ServiceInstance) : Prop :=
  Endpoints si ≡ₚ Endpoints st
  /\ size (Metadata si) = size (Metadata st)
  /\ (forall k v, Metadata si !! k = Some v -> md_get (Metadata st) k = v)
  /\ ID si = ID st /\ Name si = Name st /\ Version si = Version st.

Lemma Equal_spec (h : heap) (pi pt : nat) (si st : ServiceInstance) :
  h !! pi = Some si -> h !! pt = Some st ->
  exists (b : bool) (h' : heap),
    Equal h (Some pi) (I_instance (Some pt)) = Returned (b, h')
    /\ (b = true <-> same si st).
Proof.
  intros Hi Ht. unfold Equal. rewrite Hi, Ht.
  destruct (Nat.eqb_spec (length (Endpoints si)) (length (Endpoints st))) as [Hl | Hl];
    cbn [negb].
  2: { exists false, h. split; [reflexivity|]. split; [discriminate|].
       intros (Hp & _). exfalso. apply Hl, Permutation_length, Hp. }
  destruct (RegistryFacts.sort_both h pi pt si st Hi Ht) as (H1 & H2 & _).
  rewrite H1, H2.
  unfold RegistryFacts.sorted_instance, set_Endpoints.
  cbn [Endpoints Metadata ID Name Version].
  pose proof (endpoints_eqb_eq (sort_Strings (Endpoints si)) (sort_Strings (Endpoints st))
                ltac:(rewrite !sort_Strings_length; exact Hl)) as He.
  rewrite sort_Strings_eq in He.
  pose proof (metadata_eqb_spec (Metadata si) (Metadata st)) as Hm.
  unfold same.
  destruct (endpoints_eqb _ _); cbn [negb].
  2: { eexists _, _. split; [reflexivity|]. split; [discriminate|].
       intros (Hp & _). apply He in Hp. discriminate. }
  destruct (Nat.eqb_spec (size (Metadata si)) (size (Metadata st))) as [Hs | Hs]; cbn [negb].
  2: { eexists _, _. split; [reflexivity|]. split; [discriminate|]. tauto. }
  destruct (metadata_eqb _ _); cbn [negb].
  2: { eexists _, _. split; [reflexivity|]. split; [discriminate|].
       intros (_ & _ & Hmd & _). apply Hm in Hmd. discriminate. }
  eexists _, _. split; [reflexivity|].
  rewrite !andb_true_iff, !String.eqb_eq.
  split.
  - intros [[A B] C]. repeat split; try assumption.
    + apply He. reflexivity.
    + apply Hm. reflexivity.
  - tauto.
Qed.

End EqualFacts.

(** X15. On two non-nil instances [Equal] returns, and it returns [true]
    exactly when the endpoints of one are a rearrangement of those of the
    other, the two metadata maps have as many keys, every value of the
    receiver's map is what the other map reads at that key (the empty
    string for a missing key), and ID, name and version agree.  An
    instance is equal to itself. *)
Theorem X15_equal_decides :
  forall (h : list Registry.ServiceInstance) (pi pt : nat)
         (si st : Registry.ServiceInstance),
    h !! pi = Some si -> h !! pt = Some st ->
    exists (b : bool) (h' : list Registry.ServiceInstance),
      Registry.Equal h (Some pi) (Registry.I_instance (Some pt)) = Registry.Returned (b, h')
      /\ (b = true <->
          Registry.Endpoints si ≡ₚ Registry.Endpoints st
          /\ size (Registry.Metadata si) = size (Registry.Metadata st)
          /\ (forall k v, Registry.Metadata si !! k = Some v ->
                          Registry.md_get (Registry.Metadata st) k = v)
          /\ Registry.ID si = Registry.ID st /\ Registry.Name si = Registry.Name st
          /\ Registry.Version si = Registry.Version st)
      /\ (pi = pt -> b = true).
Proof.
  intros h pi pt si st Hi Ht.
  destruct (EqualFacts.Equal_spec h pi pt si st Hi Ht) as (b & h' & E & Hb).
  exists b, h'. split; [exact E|]. split; [exact Hb|].
  intros ->. assert (st = si) by congruence. subst st.
  apply Hb. unfold EqualFacts.same. repeat split; try reflexivity.
  intros k v Hk. unfold Registry.md_get. rewrite Hk. reflexivity.
Qed.

(** Witness of X15: the endpoints in another order. *)
Lemma X15_witness :
  exists (b : bool) (h' : list Registry.ServiceInstance),
    Registry.Equal [Resolver.sample_instance "a" ["http://h:80"; "grpc://h:90"];
                    Resolver.sample_instance "a" ["grpc://h:90"; "http://h:80"]]
      (Some 0%nat) (Registry.I_instance (Some 1%nat)) = Registry.Returned (b, h')
    /\ b = true.
Proof.
  destruct (X15_equal_decides
              [Resolver.sample_instance "a" ["http://h:80"; "grpc://h:90"];
               Resolver.sample_instance "a" ["grpc://h:90"; "http://h:80"]]
              0%nat 1%nat _ _ eq_refl eq_refl) as (b & h' & E & Hb & _).
  exists b, h'. split; [exact E|]. apply Hb. cbn.
  repeat split; try reflexivity.
  - apply Permutation_swap.
  - intros k v Hk. rewrite lookup_empty in Hk. discriminate.
Defined.

(** X16. When no value of the receiver's metadata is the empty string,
    [Equal] returns [true] exactly when the two instances differ at most
    in the order of their endpoints.  Without that condition it does not:
    there are instances with different metadata for which [Equal] is
    [true] one way round and [false] the other. *)
Theorem X16_equal_metadata :
  (forall (h : list Registry.ServiceInstance) (pi pt : nat)
          (si st : Registry.ServiceInstance),
      h !! pi = Some si -> h !! pt = Some st ->
      (forall k, Registry.Metadata si !! k <> Some EmptyString) ->
      exists (b : bool) (h' : list Registry.ServiceInstance),
        Registry.Equal h (Some pi) (Registry.I_instance (Some pt)) = Registry.Returned (b, h')
        /\ (b = true <->
            Registry.Endpoints si ≡ₚ Registry.Endpoints st
            /\ Registry.Metadata si = Registry.Metadata st
            /\ Registry.ID si = Registry.ID st /\ Registry.Name si = Registry.Name st
            /\ Registry.Version si = Registry.Version st))
  /\ (exists (h : list Registry.ServiceInstance) (si st : Registry.ServiceInstance),
        h !! 0%nat = Some si /\ h !! 1%nat = Some st
        /\ Registry.Metadata si <> Registry.Metadata st
        /\ Registry.Equal h (Some 0%nat) (Registry.I_instance (Some 1%nat))
           = Registry.Returned (true, h)
        /\ Registry.Equal h (Some 1%nat) (Registry.I_instance (Some 0%nat))
           = Registry.Returned (false, h)).
Proof.
  split.
  - intros h pi pt si st Hi Ht Hne.
    destruct (EqualFacts.Equal_spec h pi pt si st Hi Ht) as (b & h' & E & Hb).
    exists b, h'. split; [exact E|]. rewrite Hb. unfold EqualFacts.same.
    split.
    + intros (Hp & Hs & Hm & Hrest). split; [exact Hp|]. split; [|exact Hrest].
      apply map_subseteq_size_eq; [|lia].
      apply map_subseteq_spec. intros k v Hk.
      specialize (Hm k v Hk). unfold Registry.md_get in Hm.
      destruct (Registry.Metadata st !! k) as [v'|]; cbn in Hm.
      * rewrite Hm. reflexivity.
      * exfalso. apply (Hne k). rewrite Hk, <- Hm. reflexivity.
    + intros (Hp & Hm & Hrest). split; [exact Hp|]. rewrite <- Hm.
      split; [reflexivity|]. split; [|exact Hrest].
      intros k v Hk. unfold Registry.md_get. rewrite Hk. reflexivity.
  - exists [ {| Registry.ID := "a"; Registry.Name := "svc"; Registry.Version := "v1";
                Registry.Metadata := {["x" := EmptyString; "y" := "1"]}%string;
                Registry.Endpoints := [] |};
             {| Registry.ID := "a"; Registry.Name := "svc"; Registry.Version := "v1";
                Registry.Metadata := {["y" := "1"; "z" := "q"]}%string;
                Registry.Endpoints := [] |} ].
    eexists _, _. split; [reflexivity|]. split; [reflexivity|].
    cbn [Registry.Metadata]. split.
    + intros H. apply (f_equal (fun m : gmap string string => m !! "z"%string)) in H.
      vm_compute in H. discriminate.
    + split; vm_compute; reflexivity.
Qed.

(** Witness of X16: metadata without empty values. *)
Lemma X16_witness :
  exists (b : bool) (h' : list Registry.ServiceInstance),
    Registry.Equal [Resolver.sample_instance "a" []; Resolver.sample_instance "b" []]
      (Some 0%nat) (Registry.I_instance (Some 1%nat)) = Registry.Returned (b, h')
    /\ b <> true.
Proof.
  destruct X16_equal_metadata as [H _].
  destruct (H [Resolver.sample_instance "a" []; Resolver.sample_instance "b" []]
              0%nat 1%nat _ _ eq_refl eq_refl) as (b & h' & E & Hb).
  - intros k. cbn. rewrite lookup_empty. discriminate.
  - exists b, h'. split; [exact E|]. intros Ht. apply Hb in Ht.
    destruct Ht as (_ & _ & Hid & _). discriminate.
Defined.

(** ** Chains of middleware and filters, and the router *)

Module ChainFacts.

Section Facts.
Context {Handler : Type}.

Lemma chain_loop_fold (m : list (Handler -> Handler)) (k : nat) :
  (k <= length m)%nat ->
  forall next,
    Middleware.chain_loop m k next = fold_right (fun f acc => f acc) next (take k m).
Proof.
  induction k as [|i IH]; intros Hk next.
  - rewrite take_0. reflexivity.
  - cbn [Middleware.chain_loop].
    destruct (_ !! i) as [f|] eqn:Hf.
    + rewrite (take_S_r m i f Hf), IH by lia.
      rewrite List.fold_right_app. reflexivity.
    + exfalso. apply lookup_ge_None_1 in Hf. lia.
Qed.

Lemma Chain_fold (m : list (Handler -> Handler)) (next : Handler) :
  Middleware.Chain m next = fold_right (fun f acc => f acc) next m.
Proof.
  unfold Middleware.Chain. rewrite chain_loop_fold by apply Nat.le_refl.
  f_equal. apply firstn_all.
Qed.

Lemma filter_loop_chain (m : list (Handler -> Handler)) (k : nat) (next : Handler) :
  Router.filter_loop m k next = Middleware.chain_loop m k next.
Proof. revert next. induction k as [|i IH]; intros next; cbn; [reflexivity | apply IH]. Qed.

Lemma FilterChain_fold (m : list (Handler -> Handler)) (next : Handler) :
  Router.FilterChain m next = fold_right (fun f acc => f acc) next m.
Proof.
  unfold Router.FilterChain. rewrite filter_loop_chain. apply Chain_fold.
Qed.

Lemma FilterChain_app (a b : list (Handler -> Handler)) (next : Handler) :
  Router.FilterChain (a ++ b) next = Router.FilterChain a (Router.FilterChain b next).
Proof. rewrite !FilterChain_fold. apply List.fold_right_app. Qed.

End Facts.

End ChainFacts.

(** X17. [middleware.Chain] and [FilterChain] wrap from the last element
    inwards, so the first element of the list is outermost: the chain of
    [f :: a] is [f] around the chain of [a], the empty chain is the
    identity, and the chain of a concatenation is the chain of the first
    list around the chain of the second. *)
Theorem X17_chain_composition :
  forall (Handler : Type) (f : Handler -> Handler) (a b : list (Handler -> Handler))
         (next : Handler),
    (Middleware.Chain [] next = next
     /\ Middleware.Chain (f :: a) next = f (Middleware.Chain a next)
     /\ Middleware.Chain (a ++ b) next = Middleware.Chain a (Middleware.Chain b next))
    /\ (Router.FilterChain [] next = next
        /\ Router.FilterChain (f :: a) next = f (Router.FilterChain a next)
        /\ Router.FilterChain (a ++ b) next
           = Router.FilterChain a (Router.FilterChain b next)).
Proof.
  intros Handler f a b next. split.
  - split; [reflexivity|]. rewrite !ChainFacts.Chain_fold. split; [reflexivity|].
    apply List.fold_right_app.
  - split; [reflexivity|]. rewrite !ChainFacts.FilterChain_fold. split; [reflexivity|].
    apply List.fold_right_app.
Qed.

(** X18. A route registered on a group of a group is served behind the
    filters of the router, then those of the outer group, then those of the
    inner group, then those given to [Handle], in this order from the
    outside; its path joins the prefixes in the same order.  [Handle] adds
    one route at the end of the mux and leaves the routes before it as they
    are. *)
Theorem X18_router_group_filters_order :
  forall (Handler HandlerFunc : Type) (path_Join : string -> string -> string)
         (wrap : HandlerFunc -> Handler)
         (r : @Router.Router Handler) (p1 p2 method rel : string)
         (f1 f2 fs : list (Handler -> Handler)) (h : HandlerFunc)
         (mux : list (@Router.Route Handler)),
    let g := Router.Group path_Join (Router.Group path_Join r p1 f1) p2 f2 in
    Router.Handle path_Join wrap g method rel h fs mux
    = mux ++ [{| Router.route_path :=
                   path_Join (path_Join (path_Join (Router.prefix r) p1) p2) rel;
                 Router.route_handler :=
                   Router.FilterChain (Router.filters r ++ f1 ++ f2 ++ fs) (wrap h);
                 Router.route_method := method |}]
    /\ Router.GET path_Join wrap g rel h fs mux
       = Router.Handle path_Join wrap g "GET" rel h fs mux
    /\ Router.filters g = Router.filters r ++ f1 ++ f2.
Proof.
  intros Handler HandlerFunc path_Join wrap r p1 p2 method rel f1 f2 fs h mux g.
  subst g. unfold Router.Handle, Router.Group, Router.newRouter.
  cbn [Router.prefix Router.filters app].
  split; [|split].
  - do 2 f_equal.
    rewrite !ChainFacts.FilterChain_fold, !List.fold_right_app. reflexivity.
  - reflexivity.
  - symmetry. apply List.app_assoc.
Qed.

(** ** [App.Stop], [App.buildInstance] and the etcd watcher *)

Module AppFacts.
Import Registry App.

Section Facts.
Context {error World URL : Type}.
Variable url_String : URL -> string.

Abbreviation Hook' := (@Hook error World).

Lemma run_hooks_events (fns : list Hook') :
  forall k err w,
    snd (run_hooks fns k err w) = List.map Ev_beforeStop (seq k (length fns)).
Proof.
  induction fns as [|fn fns IH]; intros k err w; [reflexivity|].
  cbn [run_hooks length seq List.map]. destruct (fn w) as [err' w'].
  specialize (IH (S k) err' w').
  destruct (run_hooks fns (S k) err' w') as [[res w''] evs]. cbn [snd] in *.
  rewrite IH. reflexivity.
Qed.

Lemma run_hooks_nil_err (fns : list Hook') (k : nat) (err : option error) (w : World) :
  fns = [] -> fst (fst (run_hooks fns k err w)) = err.
Proof. intros ->. reflexivity. Qed.

Lemma run_hooks_last (fs : list Hook') (f : Hook') (e : option error) :
  (forall w0, fst (f w0) = e) ->
  forall k err w, fst (fst (run_hooks (fs ++ [f]) k err w)) = e.
Proof.
  intros Hf. induction fs as [|fn fs IH]; intros k err w.
  - cbn. specialize (Hf w). destruct (f w) as [e' w']. cbn in *. exact Hf.
  - cbn [app run_hooks]. destruct (fn w) as [err' w'].
    specialize (IH (S k) err' w').
    destruct (run_hooks (fs ++ [f]) (S k) err' w') as [[res w''] evs]. exact IH.
Qed.

Lemma filter_hooks_all (l : list nat) :
  List.filter is_beforeStop (List.map Ev_beforeStop l) = List.map Ev_beforeStop l
  /\ List.filter is_Deregister (List.map Ev_beforeStop l) = []
  /\ List.filter is_cancel (List.map Ev_beforeStop l) = [].
Proof.
  induction l as [|x l (A & B & C)]; cbn; [repeat split|].
  rewrite A, B, C. repeat split.
Qed.

Definition no_error (s : @Server error URL) : Prop :=
  forall e, server_Endpoint s <> Some (inr e).

Definition endpoint_of (s : @Server error URL) : option string :=
  match server_Endpoint s with
  | Some (inl u) => Some (url_String u)
  | _ => None
  end.

Lemma collect_ok (srvs : list (@Server error URL)) :
  Forall no_error srvs ->
  forall acc, collect_endpoints url_String srvs acc = inl (acc ++ omap endpoint_of srvs).
Proof.
  induction 1 as [|s srvs Hs _ IH]; intros acc; cbn [collect_endpoints omap list_omap].
  - rewrite List.app_nil_r. reflexivity.
  - unfold endpoint_of at 1. destruct (server_Endpoint s) as [[u | e]|] eqn:E.
    + rewrite IH, <- List.app_assoc. reflexivity.
    + exfalso. exact (Hs e E).
    + apply IH.
Qed.

Lemma collect_err (pre post : list (@Server error URL)) (s : Server) (e : error) :
  Forall no_error pre -> server_Endpoint s = Some (inr e) ->
  forall acc, collect_endpoints url_String (pre ++ s :: post) acc = inr e.
Proof.
  intros Hpre Hs. induction Hpre as [|s' pre Hs' _ IH]; intros acc; cbn [app collect_endpoints].
  - rewrite Hs. reflexivity.
  - destruct (server_Endpoint s') as [[u | e']|] eqn:E; [apply IH | | apply IH].
    exfalso. exact (Hs' e' E).
Qed.

End Facts.

End AppFacts.

(** X19. [App.Stop] runs every [beforeStop] hook, in order, whether or not
    an earlier one failed.  With a registrar and a built instance it then
    calls [Deregister] once and returns what [Deregister] returns: the
    errors of the hooks are lost, and when [Deregister] fails [cancel] is
    not called.  Without a registrar or without an instance [Deregister]
    is not called and [cancel] is the last call; the error returned is
    that of the last hook, nil when there is none. *)
Theorem X19_stop_hooks_deregister_cancel :
  forall (error World URL : Type) (a : @App.App error World URL) (w : World),
    let hooks := App.beforeStop (App.opts a) in
    let after_hooks := App.run_hooks hooks 0 None w in
    let out := App.Stop a w in
    let res := fst (fst out) in
    let evs := snd out in
    List.filter App.is_beforeStop evs = List.map App.Ev_beforeStop (seq 0 (length hooks))
    /\ (forall reg ins,
          App.registrar (App.opts a) = Some reg -> App.instance a = Some ins ->
          let dereg := App.Deregister reg ins (snd (fst after_hooks)) in
          res = fst dereg
          /\ List.filter App.is_Deregister evs = [App.Ev_Deregister ins]
          /\ (res <> None ->
              List.filter App.is_cancel evs = [] /\ snd (fst out) = snd dereg)
          /\ (res = None -> forall c, App.cancel a = Some c ->
              List.filter App.is_cancel evs = [App.Ev_cancel]
              /\ snd (fst out) = c (snd dereg)))
    /\ (App.registrar (App.opts a) = None \/ App.instance a = None ->
        List.filter App.is_Deregister evs = []
        /\ (forall c, App.cancel a = Some c ->
            List.filter App.is_cancel evs = [App.Ev_cancel]
            /\ snd (fst out) = c (snd (fst after_hooks)))
        /\ (hooks = [] -> res = None)
        /\ (forall fs f e, hooks = fs ++ [f] -> (forall w0, fst (f w0) = e) -> res = e)).
Proof.
  intros error World URL a w hooks after_hooks out res evs.
  subst res evs out. unfold App.Stop. fold hooks. fold after_hooks.
  pose proof (AppFacts.run_hooks_events hooks 0%nat None w) as Hev. fold after_hooks in Hev.
  pose proof (AppFacts.run_hooks_nil_err hooks 0%nat None w) as Hnil. fold after_hooks in Hnil.
  assert (Hlast : forall fs f e, hooks = fs ++ [f] -> (forall w0, fst (f w0) = e) ->
                                 fst (fst after_hooks) = e).
  { intros fs f e E Hf. subst after_hooks. rewrite E. apply AppFacts.run_hooks_last. exact Hf. }
  destruct after_hooks as [[err w1] hevs]. cbn [fst snd] in *. subst hevs.
  destruct (AppFacts.filter_hooks_all (seq 0 (length hooks))) as (FA & FB & FC).
  destruct (App.registrar (App.opts a)) as [reg|] eqn:Ereg;
    destruct (App.instance a) as [ins|] eqn:Eins;
    [destruct (App.Deregister reg ins w1) as [[e|] w2] eqn:Ed | | |];
    destruct (App.cancel a) as [c|] eqn:Ec; cbn [fst snd];
    rewrite ?List.filter_app, ?FA, ?FB, ?FC; cbn [List.filter App.is_beforeStop
      App.is_Deregister App.is_cancel app]; rewrite ?List.app_nil_r;
    repeat (first [progress intros | split]);
    repeat match goal with
           | H : Some _ = Some _ |- _ => injection H as H; try subst
           | H : _ \/ _ |- _ => destruct H
           | x := _ |- _ => subst x
           end;
    try discriminate;
    repeat match goal with H : App.Deregister _ _ _ = _ |- _ => rewrite H end;
    cbn [fst snd] in *;
    try congruence; try reflexivity; try (apply Hnil; assumption);
    try (eapply Hlast; eassumption).
Qed.

(** Witness of X19: deregistration fails, so [cancel] is not called and
    the error returned is that of the registrar. *)
Lemma X19_witness :
  fst (fst (App.Stop AppSample.app [])) = Some "registry down"%string
  /\ List.filter App.is_cancel (snd (App.Stop AppSample.app [])) = [].
Proof.
  destruct (X19_stop_hooks_deregister_cancel string (list string) string AppSample.app [])
    as (_ & H & _).
  destruct (H AppSample.registrar_down (Resolver.sample_instance "1" ["http://h:8000"])
              eq_refl eq_refl) as (H1 & _ & H2 & _).
  split; [exact H1|]. apply H2. rewrite H1. discriminate.
Defined.

(** X20. [App.buildInstance] takes the endpoints configured explicitly when
    there are any, and then does not ask the servers.  Otherwise it takes
    the endpoints of the servers that are [Endpointer]s, in the order of
    the servers; the first server whose [Endpoint()] fails makes the whole
    call fail with that error.  ID, name, version and metadata are those of
    the options. *)
Theorem X20_build_instance_endpoints :
  forall (error World URL : Type) (url_String : URL -> string)
         (a : @App.App error World URL),
    let o := App.opts a in
    let inst eps :=
      {| Registry.ID := App.id o; Registry.Name := App.name o;
         Registry.Version := App.version o; Registry.Metadata := App.metadata o;
         Registry.Endpoints := eps |} in
    let failing (s : @App.Server error URL) :=
      exists e, App.server_Endpoint s = Some (inr e) in
    (App.endpoints o <> [] ->
     App.buildInstance url_String a = inl (inst (List.map url_String (App.endpoints o))))
    /\ (App.endpoints o = [] -> Forall (fun s => ~ failing s) (App.servers o) ->
        App.buildInstance url_String a
        = inl (inst (omap (fun s => match App.server_Endpoint s with
                                    | Some (inl u) => Some (url_String u)
                                    | _ => None
                                    end) (App.servers o))))
    /\ (forall pre s post e,
          App.endpoints o = [] -> App.servers o = pre ++ s :: post ->
          Forall (fun s => ~ failing s) pre ->
          App.server_Endpoint s = Some (inr e) ->
          App.buildInstance url_String a = inr e).
Proof.
  intros error World URL url_String a o inst failing. subst o.
  assert (Hne : forall l : list (@App.Server error URL),
             Forall (fun s => ~ failing s) l -> Forall AppFacts.no_error l).
  { intros l H. eapply Forall_impl; [exact H|].
    intros s Hs e He. apply Hs. exists e. exact He. }
  unfold App.buildInstance. split; [|split].
  - intros H. destruct (App.endpoints (App.opts a)) as [|u us]; [congruence|]. reflexivity.
  - intros -> Hall. cbn [List.map length Nat.eqb].
    rewrite (AppFacts.collect_ok url_String _ (Hne _ Hall)). reflexivity.
  - intros pre s post e -> -> Hpre Hs. cbn [List.map length Nat.eqb].
    rewrite (AppFacts.collect_err url_String pre post s e (Hne _ Hpre) Hs). reflexivity.
Qed.

(** Witness of X20: three servers, two of them with an endpoint. *)
Lemma X20_witness :
  App.buildInstance (fun u : string => u) AppSample.app
  = inl {| Registry.ID := "1"; Registry.Name := "svc"; Registry.Version := "v1";
           Registry.Metadata := ∅;
           Registry.Endpoints := ["grpc://h:9000"; "http://h:8000"]%string |}.
Proof.
  destruct (X20_build_instance_endpoints string (list string) string (fun u => u)
              AppSample.app) as (_ & H & _).
  rewrite H.
  - reflexivity.
  - reflexivity.
  - repeat constructor; intros [e He]; discriminate.
Defined.

Module StartFacts.
Import Registry App.

Section Facts.
Context {error World : Type}.

Definition succeeds (f : @Hook error World) : Prop := forall w, fst (f w) = None.

Lemma start_hooks_fail (pre post : list (@Hook error World)) (f : Hook) (e : error) :
  Forall succeeds pre -> (forall w, fst (f w) = Some e) ->
  forall k w,
    fst (fst (start_hooks (pre ++ f :: post) k w)) = Some e
    /\ snd (start_hooks (pre ++ f :: post) k w)
       = List.map Ev_beforeStart (seq k (S (length pre))).
Proof.
  intros Hpre Hf. induction Hpre as [|p pre Hp _ IH]; intros k w; cbn [app start_hooks].
  - specialize (Hf w). destruct (f w) as [r w']. cbn in Hf. subst r. split; reflexivity.
  - specialize (Hp w). destruct (p w) as [r w']. cbn in Hp. subst r.
    specialize (IH (S k) w').
    destruct (start_hooks (pre ++ f :: post) (S k) w') as [[res w''] evs].
    cbn [fst snd] in *. destruct IH as [-> ->]. split; reflexivity.
Qed.

Lemma start_hooks_ok (fns : list (@Hook error World)) :
  Forall succeeds fns ->
  forall k w,
    fst (fst (start_hooks fns k w)) = None
    /\ snd (start_hooks fns k w) = List.map Ev_beforeStart (seq k (length fns)).
Proof.
  induction 1 as [|p fns Hp _ IH]; intros k w; cbn [start_hooks]; [split; reflexivity|].
  specialize (Hp w). destruct (p w) as [r w']. cbn in Hp. subst r.
  specialize (IH (S k) w').
  destruct (start_hooks fns (S k) w') as [[res w''] evs].
  cbn [fst snd] in *. destruct IH as [-> ->]. split; reflexivity.
Qed.

End Facts.

End StartFacts.

(** X24. [App.Run] stops at the first [beforeStart] hook that fails, unlike
    [Stop] with its hooks: it returns that error, the hooks after it are
    not called and the servers are not started.  By then the instance is
    built and stored, so [Endpoint()] answers its endpoints.  When
    [buildInstance] fails [Run] returns that error, calls no hook and
    stores nothing; when every hook succeeds all of them are called, in
    order, and [Run] goes on to start the servers. *)
Theorem X24_run_stops_at_first_failing_start_hook :
  forall (error World URL : Type) (url_String : URL -> string)
         (a : @App.App error World URL) (w : World),
    let hooks := App.beforeStart (App.opts a) in
    let out := App.Run_startup url_String a w in
    let returned := fst (fst (fst out)) in
    let a' := snd (fst (fst out)) in
    let evs := snd out in
    (forall err, App.buildInstance url_String a = inr err ->
       returned = Some err /\ evs = [] /\ a' = a)
    /\ (forall ins, App.buildInstance url_String a = inl ins ->
         App.Endpoint a' = Registry.Endpoints ins
         /\ (forall pre f post e,
               hooks = pre ++ f :: post ->
               Forall StartFacts.succeeds pre -> (forall w0, fst (f w0) = Some e) ->
               returned = Some e
               /\ evs = List.map App.Ev_beforeStart (seq 0 (S (length pre))))
         /\ (Forall StartFacts.succeeds hooks ->
             returned = None
             /\ evs = List.map App.Ev_beforeStart (seq 0 (length hooks)))).
Proof.
  intros error World URL url_String a w hooks out returned a' evs.
  subst returned a' evs out. unfold App.Run_startup. fold hooks. split.
  - intros err ->. repeat split.
  - intros ins ->. split; [|split].
    + destruct (App.start_hooks hooks 0 w) as [[res w'] evs]. reflexivity.
    + intros pre f post e E Hpre Hf.
      pose proof (StartFacts.start_hooks_fail pre post f e Hpre Hf 0%nat w) as [A B].
      rewrite <- E in A, B.
      destruct (App.start_hooks hooks 0 w) as [[res w'] evs]. cbn [fst snd] in *.
      split; assumption.
    + intros Hall.
      pose proof (StartFacts.start_hooks_ok hooks Hall 0%nat w) as [A B].
      destruct (App.start_hooks hooks 0 w) as [[res w'] evs]. cbn [fst snd] in *.
      split; assumption.
Qed.

(** Witness of X24: the second of three hooks fails. *)
Lemma X24_witness :
  fst (fst (fst (App.Run_startup (fun u : string => u) AppSample.app [])))
  = Some "hook failed"%string
  /\ snd (App.Run_startup (fun u : string => u) AppSample.app [])
     = [App.Ev_beforeStart 0; App.Ev_beforeStart 1].
Proof.
  destruct (X24_run_stops_at_first_failing_start_hook string (list string) string
              (fun u => u) AppSample.app []) as [_ H].
  destruct (H _ eq_refl) as (_ & H1 & _).
  apply (H1 [AppSample.hook_ok] AppSample.hook_fails [AppSample.hook_ok]).
  - reflexivity.
  - repeat constructor.
  - reflexivity.
Defined.

Module EtcdFacts.
Import Registry Etcd.

Section Facts.
Context {error bytes : Type}.
Variable unmarshal : bytes -> ServiceInstance + error.

Definition named (w : watcher) (si : ServiceInstance) : bool :=
  String.eqb (Name si) (serviceName w).

Lemma unmarshal_all (w : watcher) (kvs : list bytes) (sis : list ServiceInstance) :
  Forall2 (fun kv si => unmarshal kv = inl si) kvs sis ->
  forall items,
    collect unmarshal w kvs items = inl (items ++ List.filter (named w) sis).
Proof.
  induction 1 as [|kv si kvs sis Hkv _ IH]; intros items; cbn [collect List.filter].
  - rewrite List.app_nil_r. reflexivity.
  - rewrite Hkv. unfold named at 1. destruct (String.eqb (Name si) (serviceName w)); cbn [negb].
    + rewrite IH, <- List.app_assoc. reflexivity.
    + apply IH.
Qed.

Lemma unmarshal_fails (w : watcher) (pre post : list bytes) (kv : bytes) (e : error) :
  Forall (fun kv => exists si, unmarshal kv = inl si) pre ->
  unmarshal kv = inr e ->
  forall items, collect unmarshal w (pre ++ kv :: post) items = inr e.
Proof.
  intros Hpre Hkv. induction Hpre as [|kv' pre [si Hsi] _ IH]; intros items;
    cbn [app collect].
  - rewrite Hkv. reflexivity.
  - rewrite Hsi. destruct (negb _); apply IH.
Qed.

Lemma collect_named (w : watcher) (kvs : list bytes) :
  forall items res,
    Forall (fun si => Name si = serviceName w) items ->
    collect unmarshal w kvs items = inl res ->
    Forall (fun si => Name si = serviceName w) res.
Proof.
  induction kvs as [|kv kvs IH]; intros items res Hi H; cbn [collect] in H.
  - injection H as <-. exact Hi.
  - destruct (unmarshal kv) as [si | e]; [|discriminate].
    destruct (String.eqb_spec (Name si) (serviceName w)) as [E | E]; cbn [negb] in H.
    + apply (IH (items ++ [si]) res); [|exact H].
      apply Forall_app. split; [exact Hi | repeat constructor; exact E].
    + apply (IH _ _ Hi H).
Qed.

End Facts.

End EtcdFacts.

(** X21. [getInstance] returns the instances stored under the prefix whose
    name is the watched service name, in the order of the response; every
    instance it returns has that name.  One value under the prefix that
    does not unmarshal makes the whole call fail, whatever the other
    values are.  The first [Next] does not wait: it returns what
    [getInstance] returns and clears [first] even when that is an error, so
    the second [Next] waits for an event instead of fetching again. *)
Theorem X21_etcd_get_instance_and_first_next :
  forall (error bytes : Type) (unmarshal : bytes -> Registry.ServiceInstance + error)
         (w : @Etcd.watcher) (kvs : list bytes),
    (forall sis, Forall2 (fun kv si => unmarshal kv = inl si) kvs sis ->
       Etcd.getInstance unmarshal w (inl kvs)
       = inl (List.filter (fun si => String.eqb (Registry.Name si) (Etcd.serviceName w)) sis))
    /\ (forall pre kv post e,
          kvs = pre ++ kv :: post ->
          Forall (fun kv => exists si, unmarshal kv = inl si) pre ->
          unmarshal kv = inr e ->
          Etcd.getInstance unmarshal w (inl kvs) = inr e)
    /\ (forall items, Etcd.getInstance unmarshal w (inl kvs) = inl items ->
          Forall (fun si => Registry.Name si = Etcd.serviceName w) items)
    /\ (Etcd.first w = true ->
        forall ev reWatch get,
          let out := Etcd.Next unmarshal w ev reWatch get in
          fst out = Etcd.getInstance unmarshal w get
          /\ Etcd.first (snd out) = false
          /\ forall e reWatch' get',
               Etcd.Next unmarshal (snd out) (Etcd.Ctx_Done e) reWatch' get'
               = (inr e, snd out)).
Proof.
  intros error bytes unmarshal w kvs. split; [|split; [|split]].
  - intros sis H. unfold Etcd.getInstance.
    rewrite (EtcdFacts.unmarshal_all unmarshal w kvs sis H). reflexivity.
  - intros pre kv post e -> Hpre Hkv. unfold Etcd.getInstance.
    apply EtcdFacts.unmarshal_fails; assumption.
  - intros items H. unfold Etcd.getInstance in H.
    apply (EtcdFacts.collect_named unmarshal w kvs [] items); [constructor | exact H].
  - intros Hf ev reWatch get out. subst out. unfold Etcd.Next. rewrite Hf.
    cbn [fst snd Etcd.first]. split; [reflexivity|]. split; reflexivity.
Qed.

(** Witness of X21: values are instances or garbage; one garbage value
    after a good one. *)
Lemma X21_witness :
  Etcd.getInstance
    (fun kv : option Registry.ServiceInstance =>
       match kv with Some si => inl si | None => inr "invalid character"%string end)
    {| Etcd.first := true; Etcd.serviceName := "svc" |}
    (inl [Some (Resolver.sample_instance "a" []); None; Some (Resolver.sample_instance "b" [])])
  = inr "invalid character"%string.
Proof.
  destruct (X21_etcd_get_instance_and_first_next string (option Registry.ServiceInstance)
              (fun kv => match kv with Some si => inl si
                                  | None => inr "invalid character"%string end)
              {| Etcd.first := true; Etcd.serviceName := "svc" |}
              [Some (Resolver.sample_instance "a" []); None;
               Some (Resolver.sample_instance "b" [])]) as (_ & H & _).
  apply (H [Some (Resolver.sample_instance "a" [])] None
           [Some (Resolver.sample_instance "b" [])]).
  - reflexivity.
  - repeat constructor. eexists. reflexivity.
  - reflexivity.
Defined.

(** ** The gRPC picker on top of the default selector *)

(** X22. [balancerBuilder.Build] answers the error picker for
    [ErrNoSubConnAvailable] when no connection is ready; otherwise the
    selector of its picker stores one weighted node per ready connection,
    in the order of the iteration.  When the node builder wraps the node
    it is given, the balancer answers with an error or one of its
    candidates, and the filters of the transport hand back only nodes they
    were given, [Pick] on that picker does not panic, and a connection it
    returns is one of the ready connections. *)
Theorem X22_grpc_pick_returns_ready_subconn :
  forall (SubConn Base WeightedNode DoneFunc error Ctx World : Type)
         (NewNode : string -> string -> option Registry.ServiceInstance -> Base)
         (ErrNoSubConnAvailable ErrNoAvailable : error)
         (Raw : WeightedNode -> @Grpc.Node SubConn Base) (has_peer : Ctx -> bool)
         (WithNodeFilter : list Selector.NodeFilter -> Selector.SelectOption)
         (b : @SelectorBuild.DefaultBuilder (@Grpc.Node SubConn Base) WeightedNode DoneFunc
                error Ctx World)
         (info : @Grpc.PickerBuildInfo SubConn),
    (Grpc.ReadySCs info = [] ->
     Grpc.Build NewNode ErrNoSubConnAvailable b info = Grpc.ErrPicker ErrNoSubConnAvailable)
    /\ (Grpc.ReadySCs info <> [] ->
        exists p,
          Grpc.Build NewNode ErrNoSubConnAvailable b info = Grpc.BalancerPicker p
          /\ Selector.nodes p
             = Some (List.map (SelectorBuild.Node b) (Grpc.nodes_of NewNode info))
          /\ ((forall fs o, Selector.NodeFilters (WithNodeFilter fs o) = fs) ->
              (forall n, Raw (SelectorBuild.Node b n) = n) ->
              Grpc.picks_candidate (SelectorBuild.Balancer_Build b tt) ->
              forall (pinfo : Grpc.PickInfo) (w : World),
                Forall (SelectorBuild.narrowing (Grpc.pick_Ctx pinfo))
                       (match Grpc.transport_NodeFilters pinfo with
                        | Some fs => fs
                        | None => []
                        end) ->
                exists res,
                  fst (Grpc.Pick ErrNoAvailable Raw has_peer WithNodeFilter p pinfo w)
                  = Selector.Returned res
                  /\ forall pr, res = inl pr ->
                       Grpc.SubConn_of pr ∈ List.map fst (Grpc.ReadySCs info))).
Proof.
  intros SubConn Base WeightedNode DoneFunc error Ctx World NewNode ErrNoSubConnAvailable
         ErrNoAvailable Raw has_peer WithNodeFilter b info.
  unfold Grpc.Build. split.
  - intros ->. reflexivity.
  - intros Hne. destruct (Grpc.ReadySCs info) as [|ci cis] eqn:Esc; [congruence|].
    cbn [length Nat.eqb]. eexists. split; [reflexivity|]. split; [reflexivity|].
    intros HW HR Hbal pinfo w Hf.
    set (p := Selector.Apply (SelectorBuild.Build b) (Grpc.nodes_of NewNode info)).
    set (fs := match Grpc.transport_NodeFilters pinfo with Some fs => fs | None => [] end) in *.
    set (ns := List.map (SelectorBuild.Node b) (Grpc.nodes_of NewNode info)).
    assert (Hopts : Selector.NodeFilters (Selector.apply_options [WithNodeFilter fs]) = fs).
    { unfold Selector.apply_options. cbn [fold_left]. apply HW. }
    assert (Hc : exists cs, cs ⊆ ns
               /\ Selector.candidates_of (Grpc.pick_Ctx pinfo)
                    (Selector.apply_options [WithNodeFilter fs]) ns = Some cs).
    { unfold Selector.candidates_of. rewrite Hopts.
      destruct (0 <? length fs)%nat.
      - destruct (SelectFacts.all_weighted
                    (Selector.run_filters (Grpc.pick_Ctx pinfo) fs
                       (List.map Selector.Weighted ns)) ns) as (cs & E & Hcs).
        + apply SelectFacts.run_filters_narrowing. exact Hf.
        + exists cs. split; [exact Hcs|]. rewrite E. apply SelectFacts.assert_weighted_map.
      - exists ns. split; reflexivity. }
    destruct Hc as (cs & Hcs & Hc).
    unfold Grpc.Pick. fold fs.
    rewrite (SelectorFacts.Select_candidates ErrNoAvailable Raw has_peer p
               (Grpc.pick_Ctx pinfo) [WithNodeFilter fs] w ns cs eq_refl Hc).
    destruct cs as [|c cs'].
    { cbn. eexists. split; [reflexivity|]. intros pr H. discriminate. }
    set (cs := c :: cs') in *.
    change (Selector.balancer p) with (SelectorBuild.Balancer_Build b tt).
    destruct (Hbal (Grpc.pick_Ctx pinfo) cs w) as [He | (wn & Hp & Hin)];
      unfold Selector.propagate;
      destruct (SelectorBuild.Balancer_Build b tt (Grpc.pick_Ctx pinfo) cs w) as [r w'];
      cbn [fst snd] in *.
    + destruct (Selector.picked_err r) as [e|]; [|congruence].
      cbn. eexists. split; [reflexivity|]. intros pr H. discriminate.
    + destruct (Selector.picked_err r) as [e|].
      { cbn. eexists. split; [reflexivity|]. intros pr H. discriminate. }
      rewrite Hp. cbn [Selector.err Selector.selected].
      assert (Hwn : wn ∈ ns) by (apply Hcs; exact Hin).
      subst ns. apply list_elem_of_fmap in Hwn as (n & -> & Hn).
      rewrite HR. unfold Grpc.nodes_of in Hn.
      apply list_elem_of_fmap in Hn as (ci' & -> & Hci).
      cbn. eexists. split; [reflexivity|]. intros pr H. injection H as <-.
      cbn [Grpc.SubConn_of]. rewrite Esc in Hci.
      apply (list_elem_of_fmap_2 fst) in Hci. exact Hci.
Qed.

(** Witness of X22: two ready connections, the balancer takes the first
    candidate. *)
Lemma X22_witness :
  exists res,
    fst (Grpc.Pick "none"%string
           (fun wn : @Grpc.Node nat string => wn) (fun _ : unit => false)
           (fun fs _ => {| Selector.NodeFilters := fs |})
           (Selector.Apply
              (SelectorBuild.Build
                 {| SelectorBuild.Node := fun n : @Grpc.Node nat string => n;
                    SelectorBuild.Balancer_Build := fun _ : unit =>
                      fun (_ : unit) (cs : list (@Grpc.Node nat string)) (w : unit) =>
                        ({| Selector.picked := head cs; Selector.picked_done := Some tt;
                            Selector.picked_err :=
                              match cs with [] => Some "empty"%string | _ => None end |}, w) |})
              (Grpc.nodes_of (fun _ addr _ => addr)
                 {| Grpc.ReadySCs := [(7%nat, {| Grpc.Addr := "h1:9000";
                                                 Grpc.rawServiceInstance := None |});
                                      (8%nat, {| Grpc.Addr := "h2:9000";
                                                 Grpc.rawServiceInstance := None |})] |}))
           {| Grpc.pick_Ctx := tt; Grpc.transport_NodeFilters := None |} tt)
    = Selector.Returned res
    /\ forall pr, res = inl pr -> Grpc.SubConn_of pr ∈ [7%nat; 8%nat].
Proof.
  destruct (X22_grpc_pick_returns_ready_subconn nat string (@Grpc.Node nat string) unit
              string unit unit (fun _ addr _ => addr) "no subconn"%string "none"%string
              (fun wn => wn) (fun _ => false)
              (fun fs _ => {| Selector.NodeFilters := fs |})
              {| SelectorBuild.Node := fun n : @Grpc.Node nat string => n;
                 SelectorBuild.Balancer_Build := fun _ : unit =>
                   fun (_ : unit) (cs : list (@Grpc.Node nat string)) (w : unit) =>
                     ({| Selector.picked := head cs; Selector.picked_done := Some tt;
                         Selector.picked_err :=
                           match cs with [] => Some "empty"%string | _ => None end |}, w) |}
              {| Grpc.ReadySCs := [(7%nat, {| Grpc.Addr := "h1:9000";
                                              Grpc.rawServiceInstance := None |});
                                   (8%nat, {| Grpc.Addr := "h2:9000";
                                              Grpc.rawServiceInstance := None |})] |})
    as [_ H].
  destruct (H ltac:(discriminate)) as (p & Ep & _ & Hp).
  injection Ep as <-.
  apply (Hp ltac:(reflexivity) ltac:(reflexivity)).
  - intros ctx cs w. destruct cs as [|c cs]; [left; discriminate|].
    right. exists c. split; [reflexivity | left].
  - constructor.
Defined.

(** ** The predicted lag *)

Module ScanFacts.
Import Ewma.

Lemma recentb_recent (now : Z) (l : list Element) :
  EwmaAges.recentb now l = true -> EwmaAges.recent now l.
Proof.
  unfold EwmaAges.recentb, EwmaAges.recent. rewrite List.forallb_forall, List.Forall_forall.
  intros H e He. specialize (H e He). apply andb_prop in H as [A B]. lia.
Qed.

(** The sum and the count of the scan, while nothing wraps. *)
Lemma scan_bounds (now avgLag : Z) (l : list Element) :
  0 <= avgLag ->
  EwmaAges.recent now l ->
  forall total count : Z,
    0 <= count -> 0 <= total ->
    count + Z.of_nat (length l) <= 2 ^ 13 ->
    total + Z.of_nat (length l) * 2 ^ 49 <= 2 ^ 62 ->
    let '(t', c') := scan now avgLag l total count in
    count <= c' <= count + Z.of_nat (length l)
    /\ total + (c' - count) * (avgLag + 1) <= t' <= total + (c' - count) * 2 ^ 49.
Proof.
  intros Ha Hr. induction Hr as [|e l He _ IH]; intros total count Hc Ht Hlen Hsum.
  - cbn. lia.
  - cbn [scan length] in *. rewrite Nat2Z.inj_succ in *.
    rewrite (InflightFacts.i64_small (now - el_value e))
      by (unfold Int.min_i64, Int.max_i64; lia).
    destruct (Z.gtb_spec (now - el_value e) avgLag) as [Hgt | Hle].
    + rewrite (InflightFacts.i64_small (count + 1))
        by (unfold Int.min_i64, Int.max_i64; lia).
      rewrite (InflightFacts.i64_small (total + (now - el_value e)))
        by (unfold Int.min_i64, Int.max_i64; lia).
      specialize (IH (total + (now - el_value e)) (count + 1)
                    ltac:(lia) ltac:(lia) ltac:(lia) ltac:(lia)).
      destruct (scan now avgLag l (total + (now - el_value e)) (count + 1)) as [t' c'].
      destruct IH as [IH1 IH2]. split; [lia|]. nia.
    + specialize (IH total count Hc Ht ltac:(lia) ltac:(lia)).
      destruct (scan now avgLag l total count) as [t' c'].
      destruct IH as [IH1 IH2]. split; [lia|]. nia.
Qed.

End ScanFacts.

(** X23. With at most [2^13] requests in flight, none picked after [now]
    or more than [2^49] ns before it, and a lag that is not negative, the
    prediction a refresh stores is 0 or lies above the average lag and at
    most [2^49]; it is 0 unless the requests older than the average lag
    are more than half of those in flight plus one. *)
Theorem X23_predict_above_lag :
  forall (RawNode error : Type) (n : Ewma.Node RawNode error) (now : Z),
    0 <= Ewma.lag n ->
    EwmaAges.recent now (Ewma.inflights n) ->
    Z.of_nat (length (Ewma.inflights n)) <= 2 ^ 13 ->
    Int.i64 (now - Ewma.predictTs n) > 200000000 ->
    let n' := snd (Ewma.load n now) in
    (Ewma.predict n' = 0 \/ Ewma.lag n < Ewma.predict n' <= 2 ^ 49)
    /\ (Ewma.predict n' <> 0 ->
        2 * Z.of_nat (length (List.filter
                                (fun e => now - Ewma.el_value e >? Ewma.lag n)
                                (Ewma.inflights n)))
        > Z.of_nat (length (Ewma.inflights n)) + 1).
Proof.
  intros RawNode error n now Hl Hr Hlen Hts n'. subst n'.
  rewrite InflightFacts.load_fields.
  pose proof (PredictFacts.clamp_interval_bounds (Ewma.lag n)) as Hc.
  pose proof (PredictFacts.refresh_ran n now ltac:(lia)) as Hran.
  pose proof (ScanFacts.scan_bounds now (Ewma.lag n) (Ewma.inflights n) Hl Hr 0 0
                ltac:(lia) ltac:(lia) ltac:(lia) ltac:(lia)) as Hs.
  assert (Hcount : snd (Ewma.scan now (Ewma.lag n) (Ewma.inflights n) 0 0)
                   = Z.of_nat (length (List.filter
                                         (fun e => now - Ewma.el_value e >? Ewma.lag n)
                                         (Ewma.inflights n)))).
  { clear Hran Hs Hts Hc.
    assert (G : forall l total count,
               EwmaAges.recent now l -> 0 <= count ->
               count + Z.of_nat (length l) <= 2 ^ 13 ->
               snd (Ewma.scan now (Ewma.lag n) l total count)
               = count + Z.of_nat (length (List.filter
                                             (fun e => now - Ewma.el_value e >? Ewma.lag n) l))).
    { intros l total count Hrl. revert total count.
      induction Hrl as [|e l He _ IH]; intros total count H0 Hb; cbn [Ewma.scan List.filter].
      - cbn. lia.
      - cbn [length] in Hb. rewrite Nat2Z.inj_succ in Hb.
        rewrite (InflightFacts.i64_small (now - Ewma.el_value e))
          by (unfold Int.min_i64, Int.max_i64; lia).
        destruct (now - Ewma.el_value e >? Ewma.lag n).
        + rewrite (InflightFacts.i64_small (count + 1))
            by (unfold Int.min_i64, Int.max_i64; lia).
          rewrite IH by lia. cbn [length]. lia.
        + apply IH; lia. }
    rewrite (G _ 0 0 Hr) by lia. lia. }
  destruct (Ewma.scan now (Ewma.lag n) (Ewma.inflights n) 0 0) as [total count].
  cbn [snd] in Hcount. destruct Hran as [_ Hp]. destruct Hs as [Hs1 Hs2].
  rewrite Hp. rewrite <- Hcount.
  assert (Hq : 0 <= Z.quot (Z.of_nat (length (Ewma.inflights n))) 2).
  { apply Z.quot_pos; lia. }
  assert (Hq2 : Z.of_nat (length (Ewma.inflights n))
                <= 2 * Z.quot (Z.of_nat (length (Ewma.inflights n))) 2 + 1).
  { rewrite Z.quot_div_nonneg by lia.
    pose proof (Z.mod_pos_bound (Z.of_nat (length (Ewma.inflights n))) 2 ltac:(lia)).
    pose proof (Z.div_mod (Z.of_nat (length (Ewma.inflights n))) 2 ltac:(lia)). lia. }
  destruct (Z.gtb_spec count (Z.quot (Z.of_nat (length (Ewma.inflights n))) 2 + 1))
    as [Hgt | Hle].
  - assert (Hpos : 0 < count) by lia.
    rewrite Z.quot_div_nonneg by lia.
    assert (Hlo : Ewma.lag n + 1 <= total / count).
    { apply Z.div_le_lower_bound; [lia | nia]. }
    assert (Hhi : total / count <= 2 ^ 49).
    { apply Z.div_le_upper_bound; [lia | nia]. }
    split; [right; lia | intros _; lia].
  - split; [left; reflexivity | intros H; congruence].
Qed.

(** Witness of X23: five requests in flight, four of them older than the
    average lag of 1 ms. *)
Lemma X23_witness :
  let n := Ewma.node (Ewma.sample_run Ewma.fresh
                        (Ewma.first_ok
                           ++ [Ewma.OpPick 1002000000; Ewma.OpPick 1003000000;
                               Ewma.OpPick 1004000000; Ewma.OpPick 1005000000;
                               Ewma.OpPick 4999900000])) in
  let n' := snd (Ewma.load n 5000000000) in
  Ewma.lag n < Ewma.predict n' <= 2 ^ 49.
Proof.
  intros n n'.
  destruct (X23_predict_above_lag unit Ewma.sample_error n 5000000000) as [H _].
  - vm_compute. discriminate.
  - apply ScanFacts.recentb_recent. vm_compute. reflexivity.
  - vm_compute. discriminate.
  - vm_compute. reflexivity.
  - destruct H as [H | H]; [|exact H].
    exfalso. revert H. vm_compute. discriminate.
Defined.
